(** * Massage-plan generator: the parse / classify / render pipeline of
    [src/server.js], embedded in Rocq.

    JavaScript strings are sequences of UTF-16 code units; a code unit is
    modelled as an [N] and a string as a list of them.  Regular expressions
    are kept as syntax and run by a backtracking matcher that follows the
    continuation-passing matchers of the ECMAScript specification, so that
    every pattern of the source appears below as the pattern it is. *)

From Stdlib Require Import Ascii String.
From Stdlib Require Import List NArith Bool Arith Lia.
Import ListNotations.

Set Implicit Arguments.

(* ===================================================================== *)
(** ** JavaScript strings *)
(* ===================================================================== *)

Module JS.

Definition char := N.
Definition str := list char.

(** A source literal without double quotes. *)
Definition lit (s : string) : str :=
  map N_of_ascii (list_ascii_of_string s).

(** A template: the source templates contain double quotes and never a
    backquote, so a backquote in the Rocq literal stands for the double
    quote (code unit 34) of the source. *)
Definition tpl (s : string) : str :=
  map (fun a => let c := N_of_ascii a in if N.eqb c 96 then 34%N else c)
      (list_ascii_of_string s).

Definition ch (a : ascii) : char := N_of_ascii a.

Definition dquote : char := 34%N.
Definition bullet_dot : char := 8226%N.   (* U+2022, the round bullet *)
Definition newline : char := 10%N.

Fixpoint str_eqb (a b : str) : bool :=
  match a, b with
  | [], [] => true
  | x :: a', y :: b' => N.eqb x y && str_eqb a' b'
  | _, _ => false
  end.

(** WhiteSpace and LineTerminator code units: what [trim], [trimEnd] and
    the class [\s] recognise. *)
Definition is_ws (c : char) : bool :=
  existsb (N.eqb c)
    [9; 10; 11; 12; 13; 32; 160; 5760; 8232; 8233; 8239; 8287; 12288; 65279]%N
  || (N.leb 8192 c && N.leb c 8202).

(** LineTerminator code units: what [.] refuses. *)
Definition is_lt (c : char) : bool :=
  existsb (N.eqb c) [10; 13; 8232; 8233]%N.

Definition is_digit (c : char) : bool := N.leb 48 c && N.leb c 57.

Fixpoint dropWhile (p : char -> bool) (s : str) : str :=
  match s with
  | [] => []
  | c :: t => if p c then dropWhile p t else s
  end.

Fixpoint takeWhile (p : char -> bool) (s : str) : str :=
  match s with
  | [] => []
  | c :: t => if p c then c :: takeWhile p t else []
  end.

Definition dropWhileEnd (p : char -> bool) (s : str) : str :=
  rev (dropWhile p (rev s)).

Definition trimStart (s : str) : str := dropWhile is_ws s.
Definition trimEnd (s : str) : str := dropWhileEnd is_ws s.
Definition trim (s : str) : str := trimEnd (trimStart s).

Fixpoint startsWith (p s : str) : bool :=
  match p, s with
  | [], _ => true
  | x :: p', y :: s' => N.eqb x y && startsWith p' s'
  | _ :: _, [] => false
  end.

Fixpoint includes (p s : str) : bool :=
  startsWith p s ||
  match s with
  | [] => false
  | _ :: t => includes p t
  end.

(** [s.indexOf(c)] for a one-unit needle: [None] is the source's -1. *)
Fixpoint indexOf (c : char) (s : str) : option nat :=
  match s with
  | [] => None
  | x :: t => if N.eqb x c then Some 0
              else option_map S (indexOf c t)
  end.

Definition substring (a b : nat) (s : str) : str := firstn (b - a) (skipn a s).
Definition substringFrom (a : nat) (s : str) : str := skipn a s.

(** [s.split(c)] for a one-unit separator: never empty, ["".split(c)] is
    [[""]]. *)
Fixpoint split (c : char) (s : str) : list str :=
  match s with
  | [] => [[]]
  | x :: t =>
      if N.eqb x c then [] :: split c t
      else match split c t with
           | [] => [[x]]
           | w :: ws => (x :: w) :: ws
           end
  end.

(** [a.join(sep)]. *)
Fixpoint join (sep : str) (l : list str) : str :=
  match l with
  | [] => []
  | [a] => a
  | a :: t => a ++ sep ++ join sep t
  end.

(** A string is truthy when it is not empty. *)
Definition truthy (s : str) : bool :=
  match s with [] => false | _ => true end.

End JS.

Import JS.

(* ===================================================================== *)
(** ** Regular expressions *)
(* ===================================================================== *)

Module Re.

(** The fragment of the pattern language that the source uses.  No pattern
    of the source puts a group or an alternative that can match the empty
    string under a star. *)
Inductive regex : Type :=
| Empty                              (* the empty pattern *)
| Cls (p : char -> bool)             (* one code unit of a class *)
| Seq (r1 r2 : regex)                (* r1 r2 *)
| Alt (r1 r2 : regex)                (* r1|r2, the left one first *)
| Star (r : regex)                   (* greedy r* *)
| Group (i : nat) (r : regex)        (* capturing group number i *)
| Bol                                (* ^ without the m flag *)
| Eol.                               (* $ without the m flag *)

Definition Plus (r : regex) : regex := Seq r (Star r).
Definition Opt (r : regex) : regex := Alt r Empty.

(** The matcher state: index of the next code unit, the code units from
    there on, and the captures made so far (latest first). *)
Record mstate : Type := MState {
  pos : nat;
  rest : str;
  caps : list (nat * str)
}.

Definition cont := mstate -> option mstate.

(** Greedy repetition: one more round of [body] as long as it makes
    progress, otherwise on with the continuation.  A round consumes at
    least one code unit, so the length of the remaining input bounds the
    number of rounds (lemma [star_any_fuel]: a larger bound changes
    nothing). *)
Fixpoint star_loop (body : cont -> cont) (k : cont) (fuel : nat)
    (s : mstate) : option mstate :=
  match fuel with
  | 0 => k s
  | S fuel' =>
      match body (fun s' => if pos s <? pos s' then star_loop body k fuel' s'
                            else None) s with
      | Some m => Some m
      | None => k s
      end
  end.

Fixpoint rmatch (r : regex) (k : cont) (s : mstate) : option mstate :=
  match r with
  | Empty => k s
  | Cls p =>
      match rest s with
      | c :: t => if p c then k (MState (S (pos s)) t (caps s)) else None
      | [] => None
      end
  | Seq r1 r2 => rmatch r1 (rmatch r2 k) s
  | Alt r1 r2 =>
      match rmatch r1 k s with
      | Some m => Some m
      | None => rmatch r2 k s
      end
  | Star r1 => star_loop (rmatch r1) k (length (rest s)) s
  | Group i r1 =>
      rmatch r1
        (fun s' => k (MState (pos s') (rest s')
                        ((i, firstn (pos s' - pos s) (rest s)) :: caps s')))
        s
  | Bol => if pos s =? 0 then k s else None
  | Eol => match rest s with [] => k s | _ :: _ => None end
  end.

(** The leftmost match that starts at index [p] or later; [s] holds the
    code units from [p] on.  The result is the start index and the final
    matcher state. *)
Fixpoint search_from (r : regex) (p : nat) (s : str)
    : option (nat * mstate) :=
  match rmatch r Some (MState p s []) with
  | Some m => Some (p, m)
  | None =>
      match s with
      | [] => None
      | _ :: t => search_from r (S p) t
      end
  end.

(** [re.exec(s)] / [s.match(re)] without the g flag. *)
Definition exec (r : regex) (s : str) : option mstate :=
  option_map snd (search_from r 0 s).

(** [re.test(s)]. *)
Definition test (r : regex) (s : str) : bool :=
  match exec r s with Some _ => true | None => false end.

(** [match[i]] of a successful match; a group that took no part is
    [undefined], here [None]. *)
Fixpoint lookup_cap (i : nat) (cs : list (nat * str)) : option str :=
  match cs with
  | [] => None
  | (j, w) :: t => if i =? j then Some w else lookup_cap i t
  end.

Definition group (i : nat) (m : mstate) : option str := lookup_cap i (caps m).

(** [s.replace(re, repl)] without the g flag and with a replacement text
    free of dollar patterns: the first match is replaced. *)
Definition replace (r : regex) (repl : str) (s : str) : str :=
  match search_from r 0 s with
  | None => s
  | Some (start, m) => firstn start s ++ repl ++ rest m
  end.

(** [s.replace(re, repl)] with the g flag: matches are replaced from left
    to right, the search resuming where the previous match ended (one code
    unit further after an empty match).  [p] is the index of the first
    code unit of [s] in the whole subject.  There are at most as many
    rounds as code units, and one more (lemma [replaceAll_any_fuel]: a
    larger bound changes nothing). *)
Fixpoint replace_loop (r : regex) (repl : str) (fuel p : nat) (s : str)
    : str :=
  match fuel with
  | 0 => s
  | S fuel' =>
      match search_from r p s with
      | None => s
      | Some (start, m) =>
          firstn (start - p) s ++ repl ++
          (if pos m =? start then
             match rest m with
             | [] => []
             | c :: t => c :: replace_loop r repl fuel' (S start) t
             end
           else replace_loop r repl fuel' (pos m) (rest m))
      end
  end.

Definition replaceAll (r : regex) (repl : str) (s : str) : str :=
  replace_loop r repl (S (length s)) 0 s.

(** Pattern building blocks. *)
Definition chr (c : char) : regex := Cls (N.eqb c).
Definition ws : regex := Cls is_ws.                      (* \s *)
Definition digit : regex := Cls is_digit.                (* \d *)
Definition dot : regex := Cls (fun c => negb (is_lt c)). (* .  *)
Definition oneOf (l : list char) : regex :=              (* [...]  *)
  Cls (fun c => existsb (N.eqb c) l).
Definition noneOf (l : list char) : regex :=             (* [^...] *)
  Cls (fun c => negb (existsb (N.eqb c) l)).

Fixpoint seqs (l : list regex) : regex :=
  match l with
  | [] => Empty
  | [r] => r
  | r :: t => Seq r (seqs t)
  end.

Fixpoint alts (l : list regex) : regex :=
  match l with
  | [] => Cls (fun _ => false)
  | [r] => r
  | r :: t => Alt r (alts t)
  end.

(** A literal run of code units. *)
Definition word (w : str) : regex := seqs (map chr w).

(** Canonicalisation under the i flag (without the u flag): a code unit is
    upper-cased, and a code unit outside ASCII never becomes an ASCII one.
    Every letter of the source's i-patterns is ASCII, so only the ASCII
    part of the mapping can make a pattern letter and an input unit
    agree. *)
Definition canon (c : char) : char :=
  if N.leb 97 c && N.leb c 122 then (c - 32)%N else c.

Definition chr_i (c : char) : regex := Cls (fun x => N.eqb (canon x) (canon c)).
Definition word_i (w : str) : regex := seqs (map chr_i w).

End Re.

Import Re.

(* ===================================================================== *)
(** ** The plan model of [server.js] *)
(* ===================================================================== *)

(** [escapeHtml]: four global replacements, one after the other. *)
Definition escapeHtml (text : str) : str :=
  replaceAll (chr (ch ">")) (lit "&gt;")
    (replaceAll (chr (ch "<")) (lit "&lt;")
      (replaceAll (chr (ch "&")) (lit "&amp;")
        (replaceAll (word (lit "**")) [] text))).

(** *** Intro phrases *)

Definition opt_word (i : nat) (w : string) : regex :=
  Opt (Group i (word_i (lit w))).

(** [(treatment|massage)?] *)
Definition opt_kind (i : nat) : regex :=
  Opt (Group i (Alt (word_i (lit "treatment")) (word_i (lit "massage")))).

(** [plan:?\.?$] *)
Definition plan_tail : list regex :=
  [word_i (lit "plan"); Opt (chr_i (ch ":")); Opt (chr_i (ch ".")); Eol].

Definition INTRO_PHRASE_PATTERNS : list regex :=
  [ (* /^here\s*(is|'s)\s*(your)?\s*(personalized)?\s*(treatment|massage)?\s*(therapy)?\s*plan:?\.?$/i *)
    seqs ([Bol; word_i (lit "here"); Star ws;
           Group 1 (Alt (word_i (lit "is")) (word_i (lit "'s"))); Star ws;
           opt_word 2 "your"; Star ws; opt_word 3 "personalized"; Star ws;
           opt_kind 4; Star ws; opt_word 5 "therapy"; Star ws] ++ plan_tail);
    (* /^this\s+is\s+(your)?\s*(personalized)?\s*(treatment|massage)?\s*(therapy)?\s*plan:?\.?$/i *)
    seqs ([Bol; word_i (lit "this"); Plus ws; word_i (lit "is"); Plus ws;
           opt_word 1 "your"; Star ws; opt_word 2 "personalized"; Star ws;
           opt_kind 3; Star ws; opt_word 4 "therapy"; Star ws] ++ plan_tail);
    (* /^(your)?\s*(personalized)?\s*(treatment|massage)?\s*(therapy)?\s*plan:?\.?$/i *)
    seqs ([Bol; opt_word 1 "your"; Star ws; opt_word 2 "personalized"; Star ws;
           opt_kind 3; Star ws; opt_word 4 "therapy"; Star ws] ++ plan_tail);
    (* /^below\s+(is|are)\s+(your)?\s*(personalized)?\s*(treatment|massage)?\s*plan:?\.?$/i *)
    seqs ([Bol; word_i (lit "below"); Plus ws;
           Group 1 (Alt (word_i (lit "is")) (word_i (lit "are"))); Plus ws;
           opt_word 2 "your"; Star ws; opt_word 3 "personalized"; Star ws;
           opt_kind 4; Star ws] ++ plan_tail);
    (* /^i('ve|'ve| have)\s+(created|prepared|developed)\s+(a|your)\s*(personalized)?\s*(treatment|massage)?\s*plan/i *)
    seqs [Bol; word_i (lit "i");
          Group 1 (alts [word_i (lit "'ve"); word_i (lit "'ve");
                         word_i (lit " have")]); Plus ws;
          Group 2 (alts [word_i (lit "created"); word_i (lit "prepared");
                         word_i (lit "developed")]); Plus ws;
          Group 3 (Alt (word_i (lit "a")) (word_i (lit "your"))); Star ws;
          opt_word 4 "personalized"; Star ws; opt_kind 5; Star ws;
          word_i (lit "plan")];
    (* /^based\s+on\s+(your|the)\s+(case\s+note|assessment|session)/i *)
    seqs [Bol; word_i (lit "based"); Plus ws; word_i (lit "on"); Plus ws;
          Group 1 (Alt (word_i (lit "your")) (word_i (lit "the"))); Plus ws;
          Group 2 (alts [seqs [word_i (lit "case"); Plus ws;
                               word_i (lit "note")];
                         word_i (lit "assessment"); word_i (lit "session")])];
    (* /^here('s| is)\s+your\s+plan:?\.?$/i *)
    seqs ([Bol; word_i (lit "here");
           Group 1 (Alt (word_i (lit "'s")) (word_i (lit " is"))); Plus ws;
           word_i (lit "your"); Plus ws] ++ plan_tail) ].

Definition isIntroPhrase (line : str) : bool :=
  let trimmed := trim line in
  existsb (fun pattern => test pattern trimmed) INTRO_PHRASE_PATTERNS.

(** *** Sections *)

Record section : Type := mkSection {
  number : str;
  title : str;
  description : str;
  lines : list str;
  isOrphaned : bool      (* absent on a numbered section, hence falsy *)
}.

(** [/^\s*(\d)\.\s*(.+)$/] *)
Definition header_re : regex :=
  seqs [Bol; Star ws; Group 1 digit; chr (ch "."); Star ws;
        Group 2 (Plus dot); Eol].

(** The value of [match[i]] as a string; both groups of [header_re] take
    part in every match (lemma [header_groups] below), so the default is
    never used. *)
Definition cap (i : nat) (m : mstate) : str :=
  match group i m with Some w => w | None => [] end.

(** The object literal built for the content before the first header. *)
Definition orphanedSection (meaningfulLines : list str) : section :=
  {| number := lit "0";
     title := lit "Additional Notes";
     description := [];
     lines := meaningfulLines;
     isOrphaned := true |}.

Definition meaningful (orphanedLines : list str) : list str :=
  filter (fun l => (0 <? length (trim l)) && negb (isIntroPhrase l))
         orphanedLines.

(** The section a header line opens: [match[1]] is the number and
    [match[2]] is cut at its first colon, unless that colon comes first. *)
Definition newSection (m : mstate) : section :=
  let fullContent := trim (cap 2 m) in
  let '(title, description) :=
    match indexOf (ch ":") fullContent with
    | Some (S i) =>
        (trim (substring 0 (S i) fullContent),
         trim (substringFrom (S i + 1) fullContent))
    | _ => (fullContent, [])
    end in
  {| number := cap 1 m;
     title := title;
     description := description;
     lines := if truthy description then [description] else [];
     isOrphaned := false |}.

(** The variables of the loop of [parsePlanText]. *)
Record pstate : Type := mkPState {
  sections : list section;
  current : option section;
  orphanedLines : list str
}.

Definition push_current (st : pstate) : list section :=
  match current st with
  | Some c => sections st ++ [c]
  | None => sections st
  end.

(** The block run at a header before the new section is opened: the
    buffered orphaned lines become a section if any of them means
    something. *)
Definition flush_orphans (st : pstate) : pstate :=
  match orphanedLines st, current st with
  | _ :: _, None =>
      let meaningfulLines := meaningful (orphanedLines st) in
      {| sections := match meaningfulLines with
                     | _ :: _ => sections st ++ [orphanedSection meaningfulLines]
                     | [] => sections st
                     end;
         current := current st;
         orphanedLines := [] |}
  | _, _ => st
  end.

Definition add_line (c : section) (line : str) : section :=
  {| number := number c; title := title c; description := description c;
     lines := lines c ++ [line]; isOrphaned := isOrphaned c |}.

(** One round of the loop over the raw lines. *)
Definition step (st : pstate) (rawLine : str) : pstate :=
  let line := trimEnd rawLine in
  match exec header_re line with
  | Some m =>
      let st1 := flush_orphans st in
      {| sections := push_current st1;
         current := Some (newSection m);
         orphanedLines := orphanedLines st1 |}
  | None =>
      match current st with
      | Some c =>
          {| sections := sections st;
             current := Some (add_line c line);
             orphanedLines := orphanedLines st |}
      | None =>
          if truthy (trim line)
          then {| sections := sections st;
                  current := None;
                  orphanedLines := orphanedLines st ++ [line] |}
          else st
      end
  end.

(** The code after the loop. *)
Definition finish (st : pstate) : list section :=
  let secs :=
    match orphanedLines st with
    | _ :: _ =>
        match meaningful (orphanedLines st) with
        | (_ :: _) as meaningfulLines =>
            sections st ++ [orphanedSection meaningfulLines]
        | [] => sections st
        end
    | [] => sections st
    end in
  match current st with
  | Some c => secs ++ [c]
  | None => secs
  end.

Definition init : pstate :=
  {| sections := []; current := None; orphanedLines := [] |}.

Definition parsePlanText (planText : str) : list section :=
  finish (fold_left step (split newline planText) init).

(* ===================================================================== *)
(** ** Renderers *)
(* ===================================================================== *)

(** The [<h2>] line shared by the numbered renderers. *)
Definition numbered_heading (sec : section) : str :=
  tpl "<h2><span class=`num`>" ++ number sec ++ tpl ".</span> "
  ++ escapeHtml (title sec) ++ tpl "</h2>".

Definition li (item : str) : str :=
  tpl "<li>" ++ escapeHtml item ++ tpl "</li>".

(** *** Goals and Key Actions

    [renderGoalsSection] and [renderKeyActionsSection] are the same text
    in the source but for the list tag ([ul] / [ol]) and the names of the
    variables; they share the pieces below. *)

(** The first loop: the trimmed lines that are not empty and start with
    neither a double quote nor an asterisk. *)
Definition candidates (ls : list str) : list str :=
  filter (fun trimmedLine =>
            truthy trimmedLine
            && negb (startsWith [dquote] trimmedLine)
            && negb (startsWith (lit "*") trimmedLine))
         (map trim ls).

(** [/^[,\s]+|[,\s]+$/g] *)
Definition comma_ws : regex :=
  Cls (fun c => N.eqb c (ch ",") || is_ws c).
Definition edge_punct_re : regex :=
  Alt (Seq Bol (Plus comma_ws)) (Seq (Plus comma_ws) Eol).

(** The body of the [forEach] of the fallback: what one sentence adds. *)
Definition sentence_item (sentence : str) : list str :=
  let cleanSentence := trim sentence in
  if (0 <? length cleanSentence) && negb (includes (lit "*") cleanSentence)
  then
    let finalSentence := replaceAll edge_punct_re [] cleanSentence in
    if 0 <? length finalSentence then [finalSentence] else []
  else [].

(** The fallback for one or two candidate lines. *)
Definition fallbackItems (goals : list str) : list str :=
  let allText := join (lit " ") goals in
  let sentences :=
    filter (fun s => 0 <? length (trim s)) (split (ch ".") allText) in
  flat_map sentence_item sentences.

(** The items that reach the list. *)
Definition listItems (ls : list str) : list str :=
  let goals := candidates ls in
  if 3 <=? length goals then
    filter (fun goal => 0 <? length goal) (firstn 3 goals)
  else
    match goals with
    | _ :: _ => fallbackItems goals
    | [] => goals
    end.

Definition renderListSection (tag : str) (sec : section) : str :=
  let goals := candidates (lines sec) in
  let itemsHtml := concat (map li (listItems (lines sec))) in
  if 3 <=? length goals then
    tpl "
      <section class=`section`>
        " ++ numbered_heading sec ++ tpl "
        <" ++ tag ++ tpl ">" ++ itemsHtml ++ tpl "</" ++ tag ++ tpl ">
      </section>
    "
  else
    tpl "
    <section class=`section`>
      " ++ numbered_heading sec ++ tpl "
      <" ++ tag ++ tpl ">" ++ itemsHtml ++ tpl "</" ++ tag ++ tpl ">
    </section>
  ".

Definition renderGoalsSection (sec : section) : str :=
  renderListSection (lit "ul") sec.

Definition renderKeyActionsSection (sec : section) : str :=
  renderListSection (lit "ol") sec.

(** *** Treatment plan *)

Module Phase.
Record phase : Type := mk {
  title : str;
  subtitle : str;
  content : list str;
  recommended : str
}.
End Phase.

Definition star_c : regex := chr (ch "*").

(** [/\*?\*?([^*]+)\*?\*?\s*\(([^)]+)\)/] *)
Definition phase_header_re : regex :=
  seqs [Opt star_c; Opt star_c; Group 1 (Plus (noneOf [ch "*"]));
        Opt star_c; Opt star_c; Star ws; chr (ch "(");
        Group 2 (Plus (noneOf [ch ")"])); chr (ch ")")].

(** [/^Recommended:\s*(.+)/i] *)
Definition recommended_re : regex :=
  seqs [Bol; word_i (lit "Recommended:"); Star ws; Group 1 (Plus dot)].

Definition isPhaseHeader (trimmedLine : str) : bool :=
  includes (lit "Getting You Comfortable") trimmedLine
  || includes (lit "Keeping You at Your Best") trimmedLine.

Definition newPhase (trimmedLine : str) : Phase.phase :=
  match exec phase_header_re trimmedLine with
  | Some headerMatch =>
      {| Phase.title := trim (cap 1 headerMatch);
         Phase.subtitle := trim (cap 2 headerMatch);
         Phase.content := [];
         Phase.recommended := [] |}
  | None =>
      {| Phase.title := trim (replaceAll (Plus star_c) [] trimmedLine);
         Phase.subtitle := [];
         Phase.content := [];
         Phase.recommended := [] |}
  end.

(** The loop variables of [renderTreatmentPlanSection]: the phases pushed
    so far and the phase being filled. *)
Definition tstate : Type := (list Phase.phase * option Phase.phase)%type.

Definition phase_step (st : tstate) (line : str) : tstate :=
  let '(phases, currentPhase) := st in
  let trimmedLine := trim line in
  if isPhaseHeader trimmedLine then
    (match currentPhase with
     | Some p => phases ++ [p]
     | None => phases
     end,
     Some (newPhase trimmedLine))
  else
    match currentPhase with
    | Some p =>
        match exec recommended_re trimmedLine with
        | Some recommendedMatch =>
            (phases,
             Some {| Phase.title := Phase.title p;
                     Phase.subtitle := Phase.subtitle p;
                     Phase.content := Phase.content p;
                     Phase.recommended := trim (cap 1 recommendedMatch) |})
        | None =>
            if (0 <? length trimmedLine)
               && negb (startsWith (lit "**") trimmedLine)
            then (phases,
                  Some {| Phase.title := Phase.title p;
                          Phase.subtitle := Phase.subtitle p;
                          Phase.content := Phase.content p ++ [trimmedLine];
                          Phase.recommended := Phase.recommended p |})
            else st
        end
    | None => st
    end.

Definition collectPhases (ls : list str) : list Phase.phase :=
  let '(phases, currentPhase) := fold_left phase_step ls ([], None) in
  match currentPhase with
  | Some p => phases ++ [p]
  | None => phases
  end.

Definition phaseCard (p : Phase.phase) : str :=
  let contentText := trim (join (lit " ") (Phase.content p)) in
  tpl "
      <div class=`treatment-phase-card`>
        <div class=`treatment-phase-header`>
          <span class=`treatment-phase-title`>" ++ escapeHtml (Phase.title p)
  ++ tpl "</span>
          "
  ++ (if truthy (Phase.subtitle p)
      then tpl "<span class=`treatment-phase-subtitle`>("
           ++ escapeHtml (Phase.subtitle p) ++ tpl ")</span>"
      else [])
  ++ tpl "
        </div>
        <div class=`treatment-phase-content`>
          <p>" ++ escapeHtml contentText ++ tpl "</p>
        </div>
        "
  ++ (if truthy (Phase.recommended p)
      then tpl "
        <div class=`treatment-phase-recommended`>
          <strong>Recommended:</strong> " ++ escapeHtml (Phase.recommended p)
           ++ tpl "
        </div>
        "
      else [])
  ++ tpl "
      </div>
    ".

Definition treatmentHeading (sec : section) : str :=
  tpl "
    <section class=`section treatment-plan-section`>
      " ++ numbered_heading sec ++ tpl "
  ".

Definition treatmentClose : str :=
  tpl "
    </section>
  ".

Definition renderTreatmentPlanSection (sec : section) : str :=
  treatmentHeading sec
  ++ concat (map phaseCard (collectPhases (lines sec)))
  ++ treatmentClose.

(** *** Generic and orphaned sections *)

(** [/^\s*[-*\u2022]\s+/], the last unit of the class being the round
    bullet *)
Definition bullet_re : regex :=
  seqs [Bol; Star ws; oneOf [ch "-"; ch "*"; bullet_dot]; Plus ws].

Definition ul (bullets : list str) : str :=
  tpl "<ul>" ++ concat bullets ++ tpl "</ul>".

(** The loop over the lines: [items] and the pending [bullets]. *)
Definition item_step (st : list str * list str) (l : str)
    : list str * list str :=
  let '(items, bullets) := st in
  if test bullet_re l then
    (items, bullets ++ [li (replace bullet_re [] l)])
  else if 0 <? length (trim l) then
    (match bullets with
     | _ :: _ => items ++ [ul bullets]
     | [] => items
     end ++ [tpl "<p>" ++ escapeHtml l ++ tpl "</p>"],
     [])
  else st.

Definition collectItems (ls : list str) : list str :=
  let '(items, bullets) := fold_left item_step ls ([], []) in
  match bullets with
  | _ :: _ => items ++ [ul bullets]
  | [] => items
  end.

Definition renderOrphaned (sec : section) : str :=
  tpl "
        <section class=`section orphaned-section`>
          <h2>" ++ escapeHtml (title sec) ++ tpl "</h2>
          " ++ join [newline] (collectItems (lines sec)) ++ tpl "
        </section>
      ".

Definition renderGeneric (sec : section) : str :=
  tpl "
      <section class=`section`>
        " ++ numbered_heading sec ++ tpl "
        " ++ join [newline] (collectItems (lines sec)) ++ tpl "
      </section>
    ".

(** The callback of [sections.map] in [renderStructuredHtml]. *)
Definition renderSection (sec : section) : str :=
  if isOrphaned sec then renderOrphaned sec
  else if str_eqb (number sec) (lit "5")
          && includes (lit "Treatment Plan") (title sec)
  then renderTreatmentPlanSection sec
  else if str_eqb (number sec) (lit "3") && includes (lit "Goals") (title sec)
  then renderGoalsSection sec
  else if str_eqb (number sec) (lit "4")
          && includes (lit "Key Actions") (title sec)
  then renderKeyActionsSection sec
  else renderGeneric sec.

Definition sectionHtml (planText : str) : str :=
  join [newline] (map renderSection (parsePlanText planText)).

(** The fallback of the [<main>] element. *)
Definition rawFallback (planText : str) : str :=
  tpl "<div class=`section`><p>"
  ++ replaceAll (chr newline) (lit "<br/>") (escapeHtml planText)
  ++ tpl "</p></div>".

(** [sectionHtml || fallback] *)
Definition mainHtml (planText : str) : str :=
  let html := sectionHtml planText in
  if truthy html then html else rawFallback planText.

(* ===================================================================== *)
(** ** The document *)
(* ===================================================================== *)

(** [THERAPIST_BOOKING_URLS], looked up by own key; the members that a
    JavaScript object inherits from [Object.prototype] are no booking URLs
    and are left out. *)
Definition THERAPIST_BOOKING_URLS : list (str * str) :=
  [ (lit "Amanda O'Dempsey", lit "https://mygcphysio.bookings.pracsuite.com/?p=4819");
    (lit "Elle Badrak", lit "https://mygcphysio.bookings.pracsuite.com/?p=530");
    (lit "Frederic Impens", lit "https://mygcphysio.bookings.pracsuite.com/?p=534");
    (lit "Katie Harders", lit "https://mygcphysio.bookings.pracsuite.com/?p=533");
    (lit "Nicole Grimshaw", lit "https://mygcphysio.bookings.pracsuite.com/?p=2179");
    (lit "Payton Windsor", lit "https://mygcphysio.bookings.pracsuite.com/?p=4522");
    (lit "Sarah Allcock", lit "https://mygcphysio.bookings.pracsuite.com/?p=5446");
    (lit "Trent Ousby", lit "https://mygcphysio.bookings.pracsuite.com/?p=2410") ].

Fixpoint lookup_url (name : str) (table : list (str * str)) : option str :=
  match table with
  | [] => None
  | (k, v) :: t => if str_eqb k name then Some v else lookup_url name t
  end.

(** What the page takes from outside the pipeline: the QR image of a
    booking URL ([generateQRCodeDataURL], [None] when it fails), the date
    as [toLocaleDateString] prints it, and the constant text of the head
    from the font links to the end of the style sheet. *)
Record env : Type := mkEnv {
  generateQRCodeDataURL : str -> option str;
  today : str;
  headStatic : str
}.

Definition qrCodeHtml (e : env) (therapistName : str) : str :=
  match lookup_url therapistName THERAPIST_BOOKING_URLS with
  | Some bookingUrl =>
      if truthy therapistName && truthy bookingUrl then
        match generateQRCodeDataURL e bookingUrl with
        | Some qrCodeDataUrl =>
            if truthy qrCodeDataUrl then
              tpl "
        <div class=`qr-code-container`>
          <div class=`qr-code-label`>
            <a href=`" ++ bookingUrl ++ tpl "` target=`_blank` class=`booking-link`>Book with "
              ++ therapistName ++ tpl "</a>
          </div>
          <div class=`qr-code-wrapper`>
            <img src=`" ++ qrCodeDataUrl ++ tpl "` alt=`QR Code for "
              ++ therapistName ++ tpl "` class=`qr-code` />
          </div>
        </div>
      "
            else []
        | None => []
        end
      else []
  | None => []
  end.

Definition patientInfo (e : env) (patientName therapistName : str) : str :=
  if truthy patientName then
    tpl "<div class=`patient-info`>Patient: " ++ escapeHtml patientName
    ++ tpl " | Date: " ++ today e ++ tpl " | Therapist: "
    ++ escapeHtml therapistName ++ tpl "</div>"
  else [].

(** The text of the page before the [<main>] element. *)
Definition pageTop (e : env) (patientName therapistName : str) : str :=
  tpl "<!doctype html>
<html>
  <head>
    <meta charset=`utf-8` />
    <meta name=`viewport` content=`width=device-width, initial-scale=1` />
    <title>Gold Coast Physio & Sports Health - Massage Treatment Plan for "
  ++ (if truthy patientName then patientName else lit "Patient")
  ++ tpl "</title>
" ++ headStatic e ++ tpl "
  </head>
  <body>
    <div class=`page`>
      <header>
        <img src=`https://www.mygcphysio.com.au/wp-content/uploads/2024/09/GCPSH-Colour-500px.png` alt=`Gold Coast Physio & Sports Health` />
        <div class=`title`>
          <h1>Massage Treatment Plan</h1>
          " ++ patientInfo e patientName therapistName ++ tpl "
        </div>
        " ++ qrCodeHtml e therapistName ++ tpl "
      </header>
      <main>
        ".

(** The text of the page after the [<main>] element's content. *)
Definition pageBottom (e : env) : str :=
  tpl "
      </main>
      <footer>
        <div>Generated on " ++ today e ++ tpl "</div>
        <div class=`accent`>mygcphysio.com.au | (07) 5500 6470</div>
      </footer>
    </div>
  </body>
</html>".

Definition renderStructuredHtml (e : env)
    (planText patientName therapistName : str) : str :=
  pageTop e patientName therapistName ++ mainHtml planText ++ pageBottom e.

(** *** The name of the PDF file

    The [filename] that [/api/pdf] puts in the [Content-Disposition] header
    of a PDF it made.  The handler has rendered the page by then, so a
    truthy [patientName] is a string. *)

Definition is_lower (c : char) : bool := N.leb 97 c && N.leb c 122.
Definition is_upper (c : char) : bool := N.leb 65 c && N.leb c 90.

(** [/[^a-zA-Z0-9\s-]/g] *)
Definition unsafe_re : regex :=
  Cls (fun c => negb (is_lower c || is_upper c || is_digit c || is_ws c
                      || N.eqb c (ch "-"))).

Definition pdfFilename (patientName : str) : str :=
  if truthy patientName then
    lit "massage-treatment-plan-"
    ++ replaceAll (Plus ws) (lit "-") (replaceAll unsafe_re [] patientName)
    ++ lit ".pdf"
  else lit "massage-treatment-plan.pdf".

(* ===================================================================== *)
(** ** Reference definitions

    What the claims say in their own words, to be compared with the
    functions above, and the closed forms used to reason about the
    matcher. *)
(* ===================================================================== *)

(** *** The matcher *)

(** Greedy repetition of one class, written out on the input: the longest
    run first, then one code unit less at a time. *)
Fixpoint star_cls (p : char -> bool) (k : cont) (q : nat) (x : str)
    (cs : list (nat * str)) : option mstate :=
  match x with
  | c :: t =>
      if p c then
        match star_cls p k (S q) t cs with
        | Some m => Some m
        | None => k (MState q x cs)
        end
      else k (MState q x cs)
  | [] => k (MState q [] cs)
  end.

(** [s'] is a state the matcher can be in after it started in [s]: some
    code units further in the same input. *)
Definition reach (s s' : mstate) : Prop :=
  exists w, rest s = w ++ rest s' /\ pos s' = pos s + length w.

(** *** Escaping *)

(** Removing the bold markers: pairs of asterisks go, from left to right. *)
Fixpoint strip_bold (s : str) : str :=
  match s with
  | [] => []
  | c :: t =>
      match t with
      | d :: u =>
          if N.eqb c 42 && N.eqb d 42 then strip_bold u
          else c :: strip_bold t
      | [] => [c]
      end
  end.

(** The entity of one code unit. *)
Definition entity (c : char) : str :=
  if N.eqb c (ch "&") then lit "&amp;"
  else if N.eqb c (ch "<") then lit "&lt;"
  else if N.eqb c (ch ">") then lit "&gt;"
  else [c].

(** The code units that [escapeHtml] rewrites. *)
Definition special (c : char) : bool :=
  N.eqb c (ch "&") || N.eqb c (ch "<") || N.eqb c (ch ">").

(** The line break put in place of a newline. *)
Definition line_break (c : char) : str :=
  if N.eqb c newline then lit "<br/>" else [c].

(** *** The section splitter *)

(** Trimmed strings: the fixed points of [trim]. *)
Definition trimmed (s : str) : Prop := trim s = s.








(** A line that is neither blank nor an intro phrase. *)
Definition meaningful_line (l : str) : bool :=
  truthy (trim l) && negb (isIntroPhrase l).

(** The orphaned section the specification promises for the lines before
    the first header: it is there when one of them is meaningful, and it
    holds the meaningful ones. *)
Definition orphaned_part (pre : list str) : list section :=
  if existsb meaningful_line pre
  then [orphanedSection (map trimEnd (filter meaningful_line pre))]
  else [].

(** The same, as the loop computes it: the buffer of the lines that are
    not blank, and the section made of it. *)
Definition buffered (pre : list str) : list str :=
  filter (fun l => truthy (trim l)) (map trimEnd pre).

Definition orphans_of (buffer : list str) : list section :=
  match meaningful buffer with
  | [] => []
  | (_ :: _) as meaningfulLines => [orphanedSection meaningfulLines]
  end.

(** A numbered section: not orphaned, its number one decimal digit. *)
Definition numbered (sec : section) : Prop :=
  isOrphaned sec = false
  /\ exists d, is_digit d = true /\ number sec = [d].

(** The synthetic section of the content before the first header. *)
Definition synthetic (sec : section) : Prop :=
  exists ls, ls <> [] /\ sec = orphanedSection ls.

(** Numbered sections, after at most one synthetic section. *)
Definition shaped (secs : list section) : Prop :=
  match secs with
  | [] => True
  | first :: others =>
      (numbered first \/ synthetic first) /\ Forall numbered others
  end.

(** What holds of the loop variables of [parsePlanText] before and after
    every line. *)
Definition parse_inv (st : pstate) : Prop :=
  match current st with
  | None => sections st = []
  | Some c => numbered c /\ orphanedLines st = [] /\ shaped (sections st)
  end.

(** A section with other lines. *)
Definition with_lines (sec : section) (ls : list str) : section :=
  {| number := number sec; title := title sec;
     description := description sec; lines := ls;
     isOrphaned := isOrphaned sec |}.

(** *** Goals and Key Actions *)

(** A candidate item line, said of its first code unit: not empty, and
    that code unit neither a double quote nor an asterisk. *)
Definition is_candidate (t : str) : bool :=
  match t with
  | [] => false
  | c :: _ => negb (N.eqb c dquote) && negb (N.eqb c (ch "*"))
  end.

(** Commas and white space taken off both ends. *)
Definition is_comma_ws (c : char) : bool := N.eqb c (ch ",") || is_ws c.
Definition strip_edges (s : str) : str :=
  dropWhileEnd is_comma_ws (dropWhile is_comma_ws s).

(** The sentence-level recovery in the words of the specification: join
    with single spaces, split on the period, drop the blank fragments and
    those with an asterisk, trim commas and white space, keep what is not
    empty. *)
Definition spec_fallback (cands : list str) : list str :=
  filter (fun s => 0 <? length s)
    (map strip_edges
       (filter (fun s => negb (includes (lit "*") s))
          (filter (fun s => 0 <? length (trim s))
             (split (ch ".") (join (lit " ") cands))))).

(** What one fragment of the sentence-level recovery contributes. *)
Definition fragment_item (f : str) : list str :=
  if truthy (trim f) && negb (includes (lit "*") f) && truthy (strip_edges f)
  then [strip_edges f] else [].

(** A fragment that yields an item: no asterisk, and something left once
    commas and white space are trimmed. *)
Definition proper (f : str) : bool :=
  negb (includes (lit "*") f) && truthy (strip_edges f).

(** *** The treatment plan *)

(** The two phase headers and the dose line of the template. *)
Definition acute_header : str :=
  lit "**Getting You Comfortable** (Acute Phase, 2-4 weeks):".
Definition maintenance_header : str :=
  lit "**Keeping You at Your Best** (Maintenance, Ongoing):".
Definition dose_line : str := lit "Recommended: 2x/week".

(** A line that opens no phase. *)
Definition no_phase_header (l : str) : Prop := isPhaseHeader (trim l) = false.

(** A line of body text: not blank, not a phase header, not a dose line,
    not a line in bold. *)
Definition text_line (l : str) : Prop :=
  trim l <> []
  /\ startsWith (lit "**") (trim l) = false
  /\ isPhaseHeader (trim l) = false
  /\ exec recommended_re (trim l) = None.

Definition blank (l : str) : Prop := trim l = [].

(** A phase with more content, and with a dose. *)
Definition add_content (p : Phase.phase) (c : list str) : Phase.phase :=
  Phase.mk (Phase.title p) (Phase.subtitle p) (Phase.content p ++ c) (Phase.recommended p).
Definition set_recommended (p : Phase.phase) (r : str) : Phase.phase :=
  Phase.mk (Phase.title p) (Phase.subtitle p) (Phase.content p) r.

(** The phases pushed so far together with the open one, if any. *)
Definition close_phase (phases : list Phase.phase) (cur : option Phase.phase)
    : list Phase.phase :=
  match cur with
  | Some p => phases ++ [p]
  | None => phases
  end.

(** A phase card with its subtitle and its dose, the fields already
    escaped. *)
Definition full_card (title subtitle paragraph recommended : str) : str :=
  tpl "
      <div class=`treatment-phase-card`>
        <div class=`treatment-phase-header`>
          <span class=`treatment-phase-title`>" ++ title ++ tpl "</span>
          <span class=`treatment-phase-subtitle`>(" ++ subtitle
  ++ tpl ")</span>
        </div>
        <div class=`treatment-phase-content`>
          <p>" ++ paragraph ++ tpl "</p>
        </div>
        " ++ tpl "
        <div class=`treatment-phase-recommended`>
          <strong>Recommended:</strong> " ++ recommended ++ tpl "
        </div>
        " ++ tpl "
      </div>
    ".

(** *** Sample inputs *)



Definition orphan_scenario : str :=
  lit "Here is your personalized treatment plan.

Some clinician note.
1. Starting Point: ...".

Definition sample_goals : section :=
  {| number := lit "3"; title := lit "Where You Want to Get To (Goals)";
     description := lit "Sleep through the night.";
     lines := [ lit "Sleep through the night.";
                dquote :: lit "How will you know?" ++ [dquote];
                lit "   * an aside";
                lit "";
                lit "   Walk 30 minutes daily.";
                lit "Return to tennis in 6 weeks.";
                lit "A fourth goal." ];
     isOrphaned := false |}.

Definition sample_paragraph : section :=
  {| number := lit "4"; title := lit "Do This Now (Key Actions)";
     description := lit "Heat pack nightly. Stretch twice a day.";
     lines := [ lit "Heat pack nightly. Stretch twice a day."; lit "" ];
     isOrphaned := false |}.

Definition sample_plan : section :=
  {| number := lit "5"; title := lit "Treatment Plan";
     description := lit "Use EXACTLY this format with two phases:";
     lines := [ lit "Use EXACTLY this format with two phases:"; lit "";
                acute_header;
                lit "We start with gentle work on the upper traps.";
                lit "  You should notice easier turning within two weeks.  ";
                dose_line; lit "";
                maintenance_header;
                lit "Regular sessions keep desk tension from building up.";
                dose_line; lit "" ];
     isOrphaned := false |}.

(** A page environment for the examples: no QR image, a fixed date. *)
Definition sample_env : env :=
  {| generateQRCodeDataURL := fun _ => None;
     today := lit "02/11/2026";
     headStatic := lit "    <style></style>" |}.

(** *** Escaping, continued *)

(** The angle brackets. *)
Definition angle (c : char) : bool := N.eqb c (ch "<") || N.eqb c (ch ">").

(** *** Matching under a change of letters *)

(** Every class of the pattern gives the same answer on [c] and on
    [f c]. *)
Fixpoint cls_respect (f : char -> char) (r : regex) : Prop :=
  match r with
  | Cls p => forall c, p (f c) = p c
  | Seq a b | Alt a b => cls_respect f a /\ cls_respect f b
  | Star a | Group _ a => cls_respect f a
  | Empty | Bol | Eol => True
  end.

(** Two matcher states at the same index, the input of the second being
    the input of the first under [f]. *)
Definition same_place (f : char -> char) (s s' : mstate) : Prop :=
  pos s' = pos s /\ rest s' = map f (rest s).

Definition matched (A : Type) (o : option A) : bool :=
  match o with Some _ => true | None => false end.

(** *** The section splitter on any input *)

(** A raw line that the loop takes for a header. *)
Definition is_header (rawLine : str) : bool := test header_re (trimEnd rawLine).

(** The lines before the first header. *)
Fixpoint leading (ls : list str) : list str :=
  match ls with
  | [] => []
  | l :: t => if is_header l then [] else l :: leading t
  end.

(** One section for every header line: the section that the header opens,
    with the lines up to the next header added, less their trailing white
    space. *)
Fixpoint sections_from (ls : list str) : list section :=
  match ls with
  | [] => []
  | l :: t =>
      match exec header_re (trimEnd l) with
      | Some m =>
          with_lines (newSection m)
            (lines (newSection m) ++ map trimEnd (leading t))
          :: sections_from t
      | None => sections_from t
      end
  end.

(** The number and the text of a header line: after leading white space
    a digit and a period, then, after more white space, a text that is not
    empty and holds no line terminator. *)
Definition header_parts (line : str) : option (char * str) :=
  match dropWhile is_ws line with
  | d :: c :: r =>
      if is_digit d && N.eqb (ch ".") c then
        let g := dropWhile is_ws r in
        if truthy g && forallb (fun c => negb (is_lt c)) g
        then Some (d, g) else None
      else None
  | _ => None
  end.

(** What holds of the fields of every numbered section. *)
Definition tidy (sec : section) : Prop :=
  title sec <> []
  /\ trimmed (title sec)
  /\ trimmed (description sec)
  /\ (indexOf (ch ":") (title sec) = None
      \/ indexOf (ch ":") (title sec) = Some 0)
  /\ (description sec <> [] -> hd_error (lines sec) = Some (description sec))
  /\ Forall (fun l => trimEnd l = l) (lines sec).

(** Carriage return and line feed, and the lines of a text that ends its
    lines with them, cut at the line feeds: all but the last end with a
    carriage return. *)
Definition CRLF : str := [13; 10]%N.

Fixpoint cr_lines (ls : list str) : list str :=
  match ls with
  | [] => []
  | [a] => [a]
  | a :: t => (a ++ [13%N]) :: cr_lines t
  end.

(** *** The treatment plan on any input *)

(** A line that opens a phase. *)
Definition opens_phase (l : str) : bool := isPhaseHeader (trim l).

(** A line of the content of a phase card. *)
Definition body_text (t : str) : Prop :=
  t <> [] /\ trimmed t
  /\ startsWith (lit "**") t = false
  /\ isPhaseHeader t = false
  /\ exec recommended_re t = None.

(** A phase made from the lines [all]. *)
Definition phase_ok (all : list str) (p : Phase.phase) : Prop :=
  Forall (fun t => body_text t /\ In t (map trim all)) (Phase.content p)
  /\ trimmed (Phase.title p)
  /\ trimmed (Phase.subtitle p)
  /\ trimmed (Phase.recommended p).

Definition state_ok (all : list str) (st : tstate) : Prop :=
  Forall (phase_ok all) (fst st)
  /\ match snd st with Some p => phase_ok all p | None => True end.

(** [x] starts with [w], whatever the case of its ASCII letters. *)
Fixpoint prefix_i (w x : str) : bool :=
  match w, x with
  | [], _ => true
  | a :: w', c :: x' => N.eqb (canon c) (canon a) && prefix_i w' x'
  | _ :: _, [] => false
  end.

(** The dose of a Recommended line: after the label and white space, the
    text up to the first line terminator. *)
Definition dose_text (trimmedLine : str) : option str :=
  if prefix_i (lit "Recommended:") trimmedLine then
    match dropWhile is_ws (skipn 12 trimmedLine) with
    | c :: r => Some (c :: takeWhile (fun c => negb (is_lt c)) r)
    | [] => None
    end
  else None.

(** Captures that satisfy a property. *)
Definition caps_ok (Q : nat -> str -> Prop) (cs : list (nat * str)) : Prop :=
  forall i w, In (i, w) cs -> Q i w.

(** Every group of the pattern captures a text with the property and
    leaves the other captures alone. *)
Fixpoint groups_ok (Q : nat -> str -> Prop) (r : regex) : Prop :=
  match r with
  | Group i r1 =>
      forall k s m,
        rmatch r1 k s = Some m ->
        exists s', k s' = Some m /\ caps s' = caps s
                   /\ Q i (firstn (pos s' - pos s) (rest s))
  | Seq a b | Alt a b => groups_ok Q a /\ groups_ok Q b
  | Star a => groups_ok Q a
  | Empty | Cls _ | Bol | Eol => True
  end.

(** What the two groups of the phase header pattern can hold. *)
Definition phase_caps (i : nat) (w : str) : Prop :=
  (i = 1 -> @existsb char (N.eqb (ch "*")) w = false)
  /\ (i = 2 -> @existsb char (N.eqb (ch ")")) w = false).

(** *** Generic sections *)

Definition is_bullet (c : char) : bool :=
  existsb (N.eqb c) [ch "-"; ch "*"; bullet_dot].

(** The text of a bullet line: what follows the marker and the white
    space after it; [None] when the line is no bullet line. *)
Definition bullet_text (l : str) : option str :=
  match dropWhile is_ws l with
  | b :: c :: t =>
      if is_bullet b && is_ws c then Some (dropWhile is_ws t) else None
  | _ => None
  end.

(** A line that becomes a paragraph. *)
Definition paragraph_line (l : str) : Prop :=
  test bullet_re l = false /\ trim l <> [].

(** The code after the loop of the generic renderer: a pending list is
    closed. *)
Definition close_items (st : list str * list str) : list str :=
  match snd st with
  | _ :: _ => fst st ++ [ul (snd st)]
  | [] => fst st
  end.

(** *** The name of the PDF file *)

(** The code units that the first replacement keeps. *)
Definition kept (c : char) : bool :=
  is_lower c || is_upper c || is_digit c || is_ws c || N.eqb c (ch "-").

(** Every run of a class becomes one copy of the replacement; [inside]
    says that the previous code unit was of the class. *)
Fixpoint squeeze (p : char -> bool) (repl : str) (inside : bool) (s : str)
    : str :=
  match s with
  | [] => []
  | c :: t =>
      if p c then (if inside then [] else repl) ++ squeeze p repl true t
      else c :: squeeze p repl false t
  end.

(** Letters, digits, the hyphen and the period. *)
Definition file_safe (c : char) : bool :=
  is_lower c || is_upper c || is_digit c || N.eqb c (ch "-")
  || N.eqb c (ch ".").

(** *** The list filter as the claims word it

    A candidate line of a Goals or Key Actions section in the words of the
    claim about the first three items: not blank, and starting with neither
    a quotation mark nor a bullet marker (a hyphen, an asterisk or the
    round bullet). *)
Definition claimed_candidate (t : str) : bool :=
  match t with
  | [] => false
  | c :: _ =>
      negb (N.eqb c dquote) && negb (N.eqb c (ch "-"))
      && negb (N.eqb c (ch "*")) && negb (N.eqb c bullet_dot)
  end.

(* ===================================================================== *)
(** * Facts about strings *)
(* ===================================================================== *)

Module StrFacts.

Lemma str_eqb_eq a b : str_eqb a b = true <-> a = b.
Proof.
  revert b; induction a as [|x a IH]; intros [|y b]; simpl;
    try (split; [discriminate | discriminate]); try tauto.
  rewrite andb_true_iff, N.eqb_eq, IH.
  split; [intros [-> ->]; reflexivity | intros H; inversion H; auto].
Qed.

Lemma str_eqb_refl a : str_eqb a a = true.
Proof. apply str_eqb_eq; reflexivity. Qed.

Section Runs.
Variable p : char -> bool.

Lemma takeWhile_dropWhile s : takeWhile p s ++ dropWhile p s = s.
Proof.
  induction s as [|c t IH]; simpl; [reflexivity|].
  destruct (p c); simpl; [rewrite IH|]; reflexivity.
Qed.

Lemma dropWhile_all s : forallb p s = true -> dropWhile p s = [].
Proof.
  induction s as [|c t IH]; simpl; [reflexivity|].
  destruct (p c); simpl; [exact IH | discriminate].
Qed.

Lemma dropWhile_nil_all s : dropWhile p s = [] -> forallb p s = true.
Proof.
  induction s as [|c t IH]; simpl; [reflexivity|].
  destruct (p c); simpl; [exact IH | discriminate].
Qed.

Lemma dropWhile_head s c t : dropWhile p s = c :: t -> p c = false.
Proof.
  induction s as [|x s IH]; simpl; [discriminate|].
  destruct (p x) eqn:E; [exact IH|].
  intros H; inversion H; subst; exact E.
Qed.

Lemma dropWhile_idem s : dropWhile p (dropWhile p s) = dropWhile p s.
Proof.
  destruct (dropWhile p s) as [|c t] eqn:E; [reflexivity|].
  simpl. rewrite (dropWhile_head _ E). reflexivity.
Qed.

Lemma dropWhile_app_all a b :
  forallb p a = true -> dropWhile p (a ++ b) = dropWhile p b.
Proof.
  induction a as [|c t IH]; simpl; [reflexivity|].
  destruct (p c); simpl; [exact IH | discriminate].
Qed.

Lemma dropWhile_stop c t : p c = false -> dropWhile p (c :: t) = c :: t.
Proof. intros H; simpl; rewrite H; reflexivity. Qed.

Lemma dropWhile_app_keep a x b :
  p x = false -> dropWhile p ((a ++ [x]) ++ b) = dropWhile p (a ++ [x]) ++ b.
Proof.
  intros Hx. induction a as [|c t IH]; simpl.
  - rewrite Hx. reflexivity.
  - destruct (p c); [exact IH | reflexivity].
Qed.

Lemma forallb_rev s : forallb p (rev s) = forallb p s.
Proof.
  induction s as [|c t IH]; simpl; [reflexivity|].
  rewrite forallb_app, IH. simpl. rewrite andb_true_r. apply andb_comm.
Qed.

Lemma dropWhile_app_some a b :
  dropWhile p a <> [] -> dropWhile p (a ++ b) = dropWhile p a ++ b.
Proof.
  induction a as [|c t IH]; simpl; [congruence|].
  destruct (p c); [exact IH | reflexivity].
Qed.

(** [dropWhileEnd] read from the left. *)
Lemma dropWhileEnd_cons c t :
  dropWhileEnd p (c :: t)
  = if forallb p (c :: t) then [] else c :: dropWhileEnd p t.
Proof.
  unfold dropWhileEnd. simpl rev. simpl forallb.
  destruct (forallb p t) eqn:Et.
  - rewrite dropWhile_app_all by (rewrite forallb_rev; exact Et).
    rewrite (dropWhile_all (rev t)) by (rewrite forallb_rev; exact Et).
    simpl. destruct (p c); reflexivity.
  - rewrite andb_false_r.
    rewrite dropWhile_app_some.
    + rewrite rev_app_distr. reflexivity.
    + intros H. apply dropWhile_nil_all in H.
      rewrite forallb_rev in H. congruence.
Qed.

Lemma dropWhileEnd_nil : dropWhileEnd p [] = [].
Proof. reflexivity. Qed.

Lemma dropWhileEnd_all s : forallb p s = true -> dropWhileEnd p s = [].
Proof.
  intros H. destruct s as [|c t]; [reflexivity|].
  rewrite dropWhileEnd_cons, H. reflexivity.
Qed.

Lemma dropWhileEnd_nil_all s : dropWhileEnd p s = [] -> forallb p s = true.
Proof.
  destruct s as [|c t]; [reflexivity|].
  rewrite dropWhileEnd_cons. destruct (forallb p (c :: t)); [reflexivity|].
  discriminate.
Qed.

Lemma dropWhileEnd_idem s :
  dropWhileEnd p (dropWhileEnd p s) = dropWhileEnd p s.
Proof.
  unfold dropWhileEnd. rewrite rev_involutive, dropWhile_idem. reflexivity.
Qed.

Lemma dropWhile_dropWhileEnd s :
  dropWhile p (dropWhileEnd p s) = dropWhileEnd p (dropWhile p s).
Proof.
  induction s as [|c t IH]; [reflexivity|].
  rewrite dropWhileEnd_cons. simpl dropWhile at 2. simpl forallb.
  destruct (p c) eqn:Ec; simpl andb.
  - destruct (forallb p t) eqn:Et.
    + rewrite (dropWhile_all _ Et). reflexivity.
    + simpl. rewrite Ec. exact IH.
  - simpl. rewrite Ec. rewrite dropWhileEnd_cons. simpl. rewrite Ec.
    reflexivity.
Qed.

End Runs.
End StrFacts.

(** ** Trimming *)

Module TrimFacts.
Import StrFacts.

Lemma trim_comm s : trim s = dropWhile is_ws (dropWhileEnd is_ws s).
Proof. unfold trim, trimEnd, trimStart. symmetry. apply dropWhile_dropWhileEnd. Qed.

Lemma trimEnd_idem s : trimEnd (trimEnd s) = trimEnd s.
Proof. apply dropWhileEnd_idem. Qed.

Lemma trim_trimEnd s : trim (trimEnd s) = trim s.
Proof.
  rewrite !trim_comm. unfold trimEnd. rewrite dropWhileEnd_idem. reflexivity.
Qed.

Lemma trim_idem s : trim (trim s) = trim s.
Proof.
  unfold trim at 1. unfold trimStart. rewrite trim_comm at 1.
  rewrite dropWhile_idem. rewrite <- trim_comm.
  unfold trim, trimEnd. apply dropWhileEnd_idem.
Qed.

Lemma trim_nil : trim [] = [].
Proof. reflexivity. Qed.

(** The first unit of a trimmed string is not white space. *)
Lemma trim_head s c t : trim s = c :: t -> is_ws c = false.
Proof. rewrite trim_comm. apply dropWhile_head. Qed.

(** A string that starts and ends outside white space is its own trim. *)
Lemma trimEnd_snoc s c : is_ws c = false -> trimEnd (s ++ [c]) = s ++ [c].
Proof.
  intros H. unfold trimEnd, dropWhileEnd. rewrite rev_app_distr. simpl.
  rewrite H. simpl. rewrite rev_involutive. reflexivity.
Qed.

Lemma trimEnd_app_snoc a s c :
  is_ws c = false -> trimEnd (a ++ s ++ [c]) = a ++ s ++ [c].
Proof. intros H. rewrite app_assoc. apply trimEnd_snoc; exact H. Qed.


Lemma trimmed_trim s : trimmed (trim s).
Proof. unfold trimmed. apply trim_idem. Qed.

Lemma trimmed_trimEnd s : trimmed s -> trimEnd s = s.
Proof.
  unfold trimmed. intros H. rewrite <- H at 1. unfold trim.
  rewrite trimEnd_idem. exact H.
Qed.

Lemma trimmed_trimStart s : trimmed s -> trimStart s = s.
Proof.
  intros H. unfold trimmed in H. rewrite trim_comm in H.
  rewrite <- H at 1. unfold trimStart. rewrite dropWhile_idem. exact H.
Qed.

Lemma trimmed_head c t : trimmed (c :: t) -> is_ws c = false.
Proof. unfold trimmed. intros H. eapply trim_head; exact H. Qed.

(** The last unit of a non-empty trimmed string. *)
Lemma trimEnd_last s : trimEnd s = [] \/ exists a c, trimEnd s = a ++ [c] /\ is_ws c = false.
Proof.
  unfold trimEnd, dropWhileEnd.
  destruct (dropWhile is_ws (rev s)) as [|c u] eqn:E; [left; reflexivity|].
  right. exists (rev u), c. split; [reflexivity|].
  eapply dropWhile_head; exact E.
Qed.

Lemma trimmed_last s : trimmed s -> s = [] \/ exists a c, s = a ++ [c] /\ is_ws c = false.
Proof.
  intros H. apply trimmed_trimEnd in H. rewrite <- H. apply trimEnd_last.
Qed.

Lemma trimEnd_app_trimmed a s :
  trimmed s -> s <> [] -> trimEnd (a ++ s) = a ++ s.
Proof.
  intros H Hn. destruct (trimmed_last H) as [->|(b & c & -> & Hc)]; [congruence|].
  apply trimEnd_app_snoc; exact Hc.
Qed.


End TrimFacts.

(* ===================================================================== *)
(** * Facts about the matcher *)
(* ===================================================================== *)

Module ReFacts.
Import StrFacts.

Lemma rmatch_seqs_cons r l k s :
  rmatch (seqs (r :: l)) k s = rmatch r (rmatch (seqs l) k) s.
Proof. destruct l; reflexivity. Qed.

Section Class.
Variable p : char -> bool.

(** On a class, the fuelled loop is the greedy recursion on the input. *)
Lemma star_loop_cls k fuel q x cs :
  length x <= fuel ->
  star_loop (rmatch (Cls p)) k fuel (MState q x cs) = star_cls p k q x cs.
Proof.
  revert q x. induction fuel as [|fuel IH]; intros q x Hl.
  - destruct x; [reflexivity | simpl in Hl; lia].
  - destruct x as [|c t]; [reflexivity|].
    simpl. destruct (p c); [|reflexivity].
    assert (Hq : (q <? S q) = true) by (apply Nat.ltb_lt; lia).
    rewrite Hq. rewrite IH by (simpl in Hl; lia). reflexivity.
Qed.

Lemma rmatch_star_cls k q x cs :
  rmatch (Star (Cls p)) k (MState q x cs) = star_cls p k q x cs.
Proof. simpl. apply star_loop_cls. reflexivity. Qed.

Lemma rmatch_plus_cls k q x cs :
  rmatch (Plus (Cls p)) k (MState q x cs)
  = match x with
    | c :: t => if p c then star_cls p k (S q) t cs else None
    | [] => None
    end.
Proof.
  unfold Plus. destruct x as [|c t]; [reflexivity|].
  change (rmatch (Seq (Cls p) (Star (Cls p))) k (MState q (c :: t) cs))
    with (if p c then rmatch (Star (Cls p)) k (MState (S q) t cs) else None).
  destruct (p c); [apply rmatch_star_cls | reflexivity].
Qed.

(** The longest run is tried first. *)
Lemma star_cls_greedy k q x cs m :
  k (MState (q + length (takeWhile p x)) (dropWhile p x) cs) = Some m ->
  star_cls p k q x cs = Some m.
Proof.
  revert q. induction x as [|c t IH]; intros q; simpl.
  - rewrite Nat.add_0_r. auto.
  - destruct (p c); simpl.
    + rewrite Nat.add_succ_r. intros H. rewrite (IH (S q) H). reflexivity.
    + rewrite Nat.add_0_r. auto.
Qed.

(** A success of the repetition is a success of the continuation after
    some run inside the class. *)
Lemma star_cls_inv k q x cs m :
  star_cls p k q x cs = Some m ->
  exists n, n <= length (takeWhile p x)
            /\ k (MState (q + n) (skipn n x) cs) = Some m.
Proof.
  revert q. induction x as [|c t IH]; intros q; simpl.
  - intros H. exists 0. rewrite Nat.add_0_r. auto.
  - destruct (p c).
    + destruct (star_cls p k (S q) t cs) eqn:E.
      * intros H; inversion H; subst.
        destruct (IH _ E) as (n & Hn & Hk). exists (S n).
        rewrite Nat.add_succ_r. simpl. split; [lia | exact Hk].
      * intros H. exists 0. rewrite Nat.add_0_r. simpl. split; [lia | exact H].
    + intros H. exists 0. rewrite Nat.add_0_r. simpl. auto.
Qed.

(** A continuation that cannot start inside the class leaves no choice. *)
Lemma star_cls_commit k q x cs :
  (forall q' c t, p c = true -> k (MState q' (c :: t) cs) = None) ->
  star_cls p k q x cs
  = k (MState (q + length (takeWhile p x)) (dropWhile p x) cs).
Proof.
  intros Hk. revert q. induction x as [|c t IH]; intros q; simpl.
  - rewrite Nat.add_0_r. reflexivity.
  - destruct (p c) eqn:Ec; simpl.
    + rewrite IH, (Hk q c t Ec).
      replace (q + S (length (takeWhile p t)))
        with (S q + length (takeWhile p t)) by lia.
      destruct (k _); reflexivity.
    + rewrite Nat.add_0_r. reflexivity.
Qed.

(** Followed by the end of the input, the repetition must take it all. *)
Lemma star_cls_eol k q x cs :
  star_cls p (rmatch Eol k) q x cs
  = if forallb p x then k (MState (q + length x) [] cs) else None.
Proof.
  revert q. induction x as [|c t IH]; intros q; simpl.
  - rewrite Nat.add_0_r. reflexivity.
  - destruct (p c); simpl; [|reflexivity].
    rewrite IH, Nat.add_succ_r.
    destruct (forallb p t); [|reflexivity].
    destruct (k _); reflexivity.
Qed.

End Class.

(** ** Searching and replacing *)

Lemma search_from_ge r p s start m :
  search_from r p s = Some (start, m) -> p <= start.
Proof.
  revert p. induction s as [|c t IH]; intros p; simpl.
  - destruct (rmatch r Some _); intros H; inversion H; subst; lia.
  - destruct (rmatch r Some _).
    + intros H; inversion H; subst; lia.
    + intros H. apply IH in H. lia.
Qed.

(** An anchored pattern matches at index 0 or nowhere. *)
Lemma search_bol_later r p s : search_from (Seq Bol r) (S p) s = None.
Proof. revert p. induction s as [|c t IH]; intros p; simpl; auto. Qed.

Lemma exec_bol r s :
  exec (Seq Bol r) s = rmatch r Some (MState 0 s []).
Proof.
  unfold exec. destruct s as [|c t]; simpl.
  - destruct (rmatch r Some _); reflexivity.
  - destruct (rmatch r Some _); [reflexivity|].
    rewrite search_bol_later. reflexivity.
Qed.

Lemma replace_loop_nil r repl fuel p :
  rmatch r Some (MState p [] []) = None ->
  replace_loop r repl fuel p [] = [].
Proof. intros H. destruct fuel; simpl; [reflexivity|]. rewrite H. reflexivity. Qed.

(** No match at the current index: the unit is kept and the loop moves
    on with the same budget. *)
Lemma replace_loop_skip r repl fuel p c t :
  rmatch r Some (MState p (c :: t) []) = None ->
  replace_loop r repl (S fuel) p (c :: t)
  = c :: replace_loop r repl (S fuel) (S p) t.
Proof.
  intros H. simpl replace_loop at 1.
  cbn [search_from]. rewrite H.
  change (replace_loop r repl (S fuel) (S p) t)
    with (match search_from r (S p) t with
          | None => t
          | Some (start, m) =>
              firstn (start - S p) t ++ repl ++
              (if pos m =? start then
                 match rest m with
                 | [] => []
                 | c :: t => c :: replace_loop r repl fuel (S start) t
                 end
               else replace_loop r repl fuel (pos m) (rest m))
          end).
  destruct (search_from r (S p) t) as [[start m]|] eqn:E; [|reflexivity].
  apply search_from_ge in E.
  replace (start - p) with (S (start - S p)) by lia.
  reflexivity.
Qed.

(** A match at the current index that consumes something. *)
Lemma replace_loop_hit r repl fuel p s m :
  rmatch r Some (MState p s []) = Some m ->
  pos m <> p ->
  replace_loop r repl (S fuel) p s
  = repl ++ replace_loop r repl fuel (pos m) (rest m).
Proof.
  intros H Hp. simpl.
  assert (Hs : search_from r p s = Some (p, m))
    by (destruct s; simpl; rewrite H; reflexivity).
  rewrite Hs. rewrite Nat.sub_diag. simpl.
  destruct (pos m =? p) eqn:E; [apply Nat.eqb_eq in E; congruence|].
  reflexivity.
Qed.

(** ** The fuel of the repetition never runs out *)

Lemma reach_refl s : reach s s.
Proof. exists []. split; [reflexivity | cbn; lia]. Qed.

Lemma reach_trans s1 s2 s3 : reach s1 s2 -> reach s2 s3 -> reach s1 s3.
Proof.
  intros (w1 & H1 & P1) (w2 & H2 & P2). exists (w1 ++ w2). split.
  - rewrite H1, H2, app_assoc. reflexivity.
  - rewrite P2, P1, length_app. lia.
Qed.

Lemma reach_step q c t cs : reach (MState q (c :: t) cs) (MState (S q) t cs).
Proof. exists [c]. split; [reflexivity | cbn; lia]. Qed.

Lemma reach_caps s s' cs :
  reach s s' -> reach s (MState (pos s') (rest s') cs).
Proof. intros (w & H & P). exists w. auto. Qed.

Lemma reach_length s s' :
  reach s s' ->
  length (rest s') <= length (rest s)
  /\ (pos s < pos s' -> length (rest s') < length (rest s)).
Proof.
  intros (w & H & P). rewrite H, length_app. split; lia.
Qed.

(** The matcher asks its continuation only about states it can reach. *)
Lemma rmatch_ext r :
  forall k1 k2 s,
  (forall s', reach s s' -> k1 s' = k2 s') ->
  rmatch r k1 s = rmatch r k2 s.
Proof.
  induction r as [|p|r1 IH1 r2 IH2|r1 IH1 r2 IH2|r IH|i r IH| |];
    intros k1 k2 s H; cbn [rmatch].
  - apply H, reach_refl.
  - destruct s as [q [|c t] cs]; cbn [rest pos caps]; [reflexivity|].
    destruct (p c); [|reflexivity]. apply H, reach_step.
  - apply IH1. intros s1 R1. apply IH2. intros s2 R2.
    apply H. eapply reach_trans; eassumption.
  - rewrite (IH1 k1 k2 s H), (IH2 k1 k2 s H). reflexivity.
  - generalize (length (rest s)) as fuel. intros fuel.
    revert s H. induction fuel as [|fuel IHf]; intros s H; cbn [star_loop].
    + apply H, reach_refl.
    + rewrite (H s (reach_refl s)).
      erewrite IH; [reflexivity|].
      intros s1 R1. cbv beta. destruct (pos s <? pos s1); [|reflexivity].
      apply IHf. intros s2 R2. apply H. eapply reach_trans; eassumption.
  - apply IH. intros s1 R1. apply H. apply reach_caps. exact R1.
  - destruct (pos s =? 0); [apply H, reach_refl | reflexivity].
  - destruct (rest s); [apply H, reach_refl | reflexivity].
Qed.

(** A continuation that fails everywhere makes the matcher fail. *)
Lemma rmatch_none r : forall s, rmatch r (fun _ => None) s = None.
Proof.
  induction r as [|p|r1 IH1 r2 IH2|r1 IH1 r2 IH2|r IH|i r IH| |];
    intros s; cbn [rmatch].
  - reflexivity.
  - destruct (rest s) as [|c t]; [reflexivity|]. destruct (p c); reflexivity.
  - rewrite (@rmatch_ext r1 (rmatch r2 (fun _ => None)) (fun _ => None));
      [apply IH1 | intros; apply IH2].
  - rewrite IH1, IH2. reflexivity.
  - generalize (length (rest s)) as fuel. intros fuel. revert s.
    induction fuel as [|fuel IHf]; intros s; cbn [star_loop]; [reflexivity|].
    rewrite (@rmatch_ext r _ (fun _ => None)); [rewrite IH; reflexivity|].
    intros s1 _. cbv beta. destruct (pos s <? pos s1); [apply IHf|reflexivity].
  - apply IH.
  - destruct (pos s =? 0); reflexivity.
  - destruct (rest s); reflexivity.
Qed.

Lemma rmatch_fail r k s :
  (forall s', reach s s' -> k s' = None) -> rmatch r k s = None.
Proof.
  intros H. rewrite (@rmatch_ext r k (fun _ => None) s H). apply rmatch_none.
Qed.

(** Any fuel from the length of the remaining input on gives the same
    repetition: the bound in [rmatch] cuts nothing off. *)
Lemma star_fuel_enough r k :
  forall n s fuel1 fuel2,
  length (rest s) <= n ->
  length (rest s) <= fuel1 -> length (rest s) <= fuel2 ->
  star_loop (rmatch r) k fuel1 s = star_loop (rmatch r) k fuel2 s.
Proof.
  assert (Hstuck : forall s fuel,
            length (rest s) = 0 -> star_loop (rmatch r) k fuel s = k s).
  { intros s [|fuel] Hs; cbn [star_loop]; [reflexivity|].
    rewrite rmatch_fail; [reflexivity|].
    intros s1 R1. cbv beta.
    destruct (pos s <? pos s1) eqn:E; [|reflexivity].
    apply Nat.ltb_lt in E. apply reach_length in R1 as [_ R1].
    specialize (R1 E). lia. }
  induction n as [|n IH]; intros s fuel1 fuel2 Hn H1 H2.
  - rewrite !Hstuck by lia. reflexivity.
  - destruct (length (rest s)) as [|len] eqn:El.
    { rewrite !Hstuck by exact El. reflexivity. }
    destruct fuel1 as [|f1]; [lia|]. destruct fuel2 as [|f2]; [lia|].
    cbn [star_loop].
    erewrite rmatch_ext; [reflexivity|].
    intros s1 R1. cbv beta.
    destruct (pos s <? pos s1) eqn:E; [|reflexivity].
    apply Nat.ltb_lt in E. apply reach_length in R1 as [_ R1].
    specialize (R1 E). apply IH; lia.
Qed.

(** A success of the matcher is a success of its continuation in a state
    further in the input. *)
Lemma rmatch_reach r :
  forall k s m,
  rmatch r k s = Some m -> exists s', reach s s' /\ k s' = Some m.
Proof.
  induction r as [|p|r1 IH1 r2 IH2|r1 IH1 r2 IH2|r IH|i r IH| |];
    intros k s m; cbn [rmatch].
  - intros H. exists s. split; [apply reach_refl | exact H].
  - destruct s as [q [|c t] cs]; cbn [rest pos caps]; [discriminate|].
    destruct (p c); [|discriminate].
    intros H. eexists. split; [apply reach_step | exact H].
  - intros H. apply IH1 in H as (s1 & R1 & H).
    apply IH2 in H as (s2 & R2 & H).
    exists s2. split; [eapply reach_trans; eassumption | exact H].
  - destruct (rmatch r1 k s) eqn:E.
    + intros H; inversion H; subst. apply IH1. exact E.
    + apply IH2.
  - generalize (length (rest s)) as fuel. intros fuel. revert s.
    induction fuel as [|fuel IHf]; intros s; cbn [star_loop].
    + intros H. exists s. split; [apply reach_refl | exact H].
    + destruct (rmatch r _ s) eqn:E.
      * intros H; inversion H; subst.
        apply IH in E as (s1 & R1 & E). cbv beta in E.
        destruct (pos s <? pos s1); [|discriminate].
        apply IHf in E as (s2 & R2 & E).
        exists s2. split; [eapply reach_trans; eassumption | exact E].
      * intros H. exists s. split; [apply reach_refl | exact H].
  - intros H. apply IH in H as (s1 & R1 & H).
    eexists. split; [|exact H]. apply reach_caps. exact R1.
  - destruct (pos s =? 0); [|discriminate].
    intros H. exists s. split; [apply reach_refl | exact H].
  - destruct (rest s) eqn:E; [|discriminate].
    intros H. exists s. split; [apply reach_refl | exact H].
Qed.

(** ** The budget of the global replacement never runs out *)

Lemma search_from_reach r :
  forall s p start m,
  search_from r p s = Some (start, m) ->
  p <= start
  /\ exists w, skipn (start - p) s = w ++ rest m
               /\ pos m = start + length w.
Proof.
  induction s as [|c t IH]; intros p start m; cbn [search_from].
  - destruct (rmatch r Some (MState p [] [])) as [m'|] eqn:E; [|discriminate].
    intros H; inversion H; subst.
    apply rmatch_reach in E as (s' & (w & Hw & Hp) & E).
    inversion E; subst. split; [lia|]. exists w.
    rewrite Nat.sub_diag. auto.
  - destruct (rmatch r Some (MState p (c :: t) [])) as [m'|] eqn:E.
    + intros H; inversion H; subst.
      apply rmatch_reach in E as (s' & (w & Hw & Hp) & E).
      inversion E; subst. split; [lia|]. exists w.
      rewrite Nat.sub_diag. auto.
    + intros H. apply IH in H as (Hle & w & Hw & Hp).
      split; [lia|]. exists w.
      replace (start - p) with (S (start - S p)) by lia. auto.
Qed.

Lemma length_skipn_le (A : Type) k (l : list A) : length (skipn k l) <= length l.
Proof. rewrite length_skipn. lia. Qed.

(** Any budget above the length of the text gives the same result: the
    bound in [replaceAll] cuts nothing off. *)
Lemma replace_fuel_enough r repl :
  forall n s p fuel1 fuel2,
  length s <= n -> length s < fuel1 -> length s < fuel2 ->
  replace_loop r repl fuel1 p s = replace_loop r repl fuel2 p s.
Proof.
  induction n as [|n IH]; intros s p fuel1 fuel2 Hn H1 H2;
    (destruct fuel1 as [|f1]; [lia|]); (destruct fuel2 as [|f2]; [lia|]);
    cbn [replace_loop];
    (destruct (search_from r p s) as [[start m]|] eqn:E; [|reflexivity]);
    apply search_from_reach in E as (Hle & w & Hw & Hp);
    pose proof (@length_skipn_le _ (start - p) s) as Hk;
    rewrite Hw, length_app in Hk;
    do 2 f_equal.
  - destruct (pos m =? start) eqn:Ep.
    + destruct (rest m); [reflexivity | cbn [length] in Hk; lia].
    + apply Nat.eqb_neq in Ep. lia.
  - destruct (pos m =? start) eqn:Ep.
    + destruct (rest m) as [|c t] eqn:Er; [reflexivity|].
      f_equal. cbn [length] in Hk. apply IH; lia.
    + apply Nat.eqb_neq in Ep.
      assert (length w <> 0) by lia.
      apply IH; lia.
Qed.

(** Both loops at once, for the record: the results of [rmatch] on a
    repetition and of [replaceAll] do not depend on the bounds chosen in
    their definitions. *)
Lemma star_any_fuel r k s fuel :
  length (rest s) <= fuel ->
  star_loop (rmatch r) k fuel s = rmatch (Star r) k s.
Proof.
  intros H. cbn [rmatch].
  apply (@star_fuel_enough r k (length (rest s))); lia.
Qed.

Lemma replaceAll_any_fuel r repl s fuel :
  length s < fuel -> replace_loop r repl fuel 0 s = replaceAll r repl s.
Proof.
  intros H. unfold replaceAll.
  apply (@replace_fuel_enough r repl (length s)); lia.
Qed.

End ReFacts.

(* ===================================================================== *)
(** * Escaping *)
(* ===================================================================== *)

Module EscFacts.
Import StrFacts ReFacts.

(** A global replacement of one class is a map over the code units. *)
Lemma replace_loop_cls p repl s :
  forall fuel q, length s < fuel ->
  replace_loop (Cls p) repl fuel q s
  = flat_map (fun c => if p c then repl else [c]) s.
Proof.
  induction s as [|c t IH]; intros fuel q Hl.
  - apply replace_loop_nil. reflexivity.
  - destruct fuel as [|fuel]; [lia|]. simpl in Hl.
    destruct (p c) eqn:Ec.
    + rewrite (@replace_loop_hit _ _ _ _ _ (MState (S q) t [])).
      * simpl flat_map. rewrite Ec. simpl rest. simpl pos.
        rewrite IH by lia. reflexivity.
      * simpl. rewrite Ec. reflexivity.
      * simpl. lia.
    + rewrite replace_loop_skip by (simpl; rewrite Ec; reflexivity).
      simpl flat_map. rewrite Ec. rewrite IH by lia. reflexivity.
Qed.

Lemma replaceAll_cls p repl s :
  replaceAll (Cls p) repl s = flat_map (fun c => if p c then repl else [c]) s.
Proof. apply replace_loop_cls. lia. Qed.

Lemma replaceAll_chr a repl s :
  replaceAll (chr a) repl s
  = flat_map (fun c => if N.eqb a c then repl else [c]) s.
Proof. apply replaceAll_cls. Qed.

(** The bold marker. *)
Lemma bold_word : word (lit "**") = Seq (chr 42%N) (chr 42%N).
Proof. reflexivity. Qed.

Lemma rmatch_bold q s :
  rmatch (Seq (chr 42%N) (chr 42%N)) Some (MState q s [])
  = match s with
    | c :: d :: u =>
        if (42 =? c)%N && (42 =? d)%N then Some (MState (S (S q)) u [])
        else None
    | _ => None
    end.
Proof.
  destruct s as [|c [|d u]]; unfold chr; cbn -[N.eqb]; try reflexivity.
  - destruct (42 =? c)%N; reflexivity.
  - destruct (42 =? c)%N; [|reflexivity].
    destruct (42 =? d)%N; reflexivity.
Qed.

Lemma strip_bold_cons2 (c d : char) (u : str) :
  strip_bold (c :: d :: u)
  = if (42 =? c)%N && (42 =? d)%N then strip_bold u
    else c :: strip_bold (d :: u).
Proof.
  rewrite (N.eqb_sym 42%N c), (N.eqb_sym 42%N d). reflexivity.
Qed.

Lemma strip_loop n :
  forall s fuel q, length s <= n -> length s < fuel ->
  replace_loop (Seq (chr 42%N) (chr 42%N)) [] fuel q s = strip_bold s.
Proof.
  induction n as [|n IH]; intros s fuel q Hn Hf.
  - destruct s; [|simpl in Hn; lia].
    apply replace_loop_nil. apply rmatch_bold.
  - destruct s as [|c t]; [apply replace_loop_nil; apply rmatch_bold|].
    destruct fuel as [|fuel]; [lia|]. simpl in Hn, Hf.
    destruct t as [|d u].
    + rewrite replace_loop_skip by apply rmatch_bold.
      rewrite replace_loop_nil by apply rmatch_bold. reflexivity.
    + cbn -[N.eqb] in Hn, Hf. rewrite strip_bold_cons2.
      destruct ((42 =? c)%N && (42 =? d)%N) eqn:E.
      * rewrite (@replace_loop_hit _ _ _ _ _ (MState (S (S q)) u [])).
        -- cbn [pos rest app]. apply IH; lia.
        -- rewrite rmatch_bold, E. reflexivity.
        -- cbn [pos]. lia.
      * rewrite replace_loop_skip by (rewrite rmatch_bold, E; reflexivity).
        f_equal. apply IH; cbn [length]; lia.
Qed.

Lemma replaceAll_bold s : replaceAll (word (lit "**")) [] s = strip_bold s.
Proof.
  rewrite bold_word. unfold replaceAll.
  apply (@strip_loop (length s)); lia.
Qed.

Lemma flat_map_twice (A : Type) (f g : A -> list A) (l : list A) :
  flat_map g (flat_map f l) = flat_map (fun c => flat_map g (f c)) l.
Proof.
  induction l as [|c t IH]; simpl; [reflexivity|].
  rewrite flat_map_app, IH. reflexivity.
Qed.

(** [escapeHtml] strips the bold markers and then maps every code unit to
    its entity. *)
Lemma escapeHtml_spec text :
  escapeHtml text = flat_map entity (strip_bold text).
Proof.
  unfold escapeHtml.
  rewrite replaceAll_bold, !replaceAll_chr, !flat_map_twice.
  apply flat_map_ext. intros c. unfold entity.
  destruct (N.eqb_spec c (ch "&")) as [->|H1]; [reflexivity|].
  destruct (N.eqb_spec c (ch "<")) as [->|H2]; [reflexivity|].
  destruct (N.eqb_spec c (ch ">")) as [->|H3]; [reflexivity|].
  assert (E1 : N.eqb (ch "&") c = false) by (apply N.eqb_neq; congruence).
  assert (E2 : N.eqb (ch "<") c = false) by (apply N.eqb_neq; congruence).
  assert (E3 : N.eqb (ch ">") c = false) by (apply N.eqb_neq; congruence).
  rewrite E1. cbn [flat_map app]. rewrite E2. cbn [flat_map app].
  rewrite E3. reflexivity.
Qed.

Lemma entity_amp : entity (ch "&") = [38; 97; 109; 112; 59]%N.
Proof. reflexivity. Qed.
Lemma entity_lt : entity (ch "<") = [38; 108; 116; 59]%N.
Proof. reflexivity. Qed.
Lemma entity_gt : entity (ch ">") = [38; 103; 116; 59]%N.
Proof. reflexivity. Qed.

(** Every entity of a special unit starts with an ampersand. *)
Lemma entity_special c :
  special c = true -> exists r, entity c = 38%N :: r.
Proof.
  unfold special. rewrite !orb_true_iff, !N.eqb_eq.
  intros [[-> | ->] | ->]; eexists; reflexivity.
Qed.

Lemma special_cases c :
  special c = true -> c = ch "&" \/ c = ch "<" \/ c = ch ">".
Proof.
  unfold special. rewrite !orb_true_iff, !N.eqb_eq. tauto.
Qed.

Lemma entity_plain c : special c = false -> entity c = [c].
Proof.
  unfold special, entity. intros H.
  apply orb_false_iff in H as [H H3]. apply orb_false_iff in H as [H1 H2].
  rewrite H1, H2, H3. reflexivity.
Qed.

Lemma plain_neq c a : special c = false -> special a = true -> N.eqb a c = false.
Proof.
  intros Hc Ha. apply N.eqb_neq. intros ->. congruence.
Qed.

(** A needle without special units is found at the front of the escaped
    text exactly when it is at the front of the text. *)
Lemma startsWith_entities w x :
  forallb (fun c => negb (special c)) w = true ->
  startsWith w (flat_map entity x) = startsWith w x.
Proof.
  revert x. induction w as [|a w IH]; intros x Hw; [reflexivity|].
  simpl in Hw. apply andb_true_iff in Hw as [Ha Hw].
  apply negb_true_iff in Ha.
  destruct x as [|c x]; [reflexivity|].
  cbn [flat_map].
  destruct (special c) eqn:Ec.
  - assert (E : N.eqb a c = false).
    { apply N.eqb_neq. intros ->. congruence. }
    cbn [startsWith]. rewrite E.
    destruct (entity_special _ Ec) as [r ->].
    cbn [app].
    replace (N.eqb a 38%N) with false; [reflexivity|].
    symmetry. apply N.eqb_neq. intros ->. discriminate.
  - rewrite (entity_plain _ Ec). cbn [app startsWith].
    rewrite IH by exact Hw. reflexivity.
Qed.

Lemma strip_bold_head (d : char) (u : str) :
  (42 =? d)%N = false -> exists r, strip_bold (d :: u) = d :: r.
Proof.
  intros H. destruct u as [|e v]; [exists []; reflexivity|].
  rewrite strip_bold_cons2, H. simpl. eexists; reflexivity.
Qed.

(** No bold marker survives the stripping. *)
Lemma strip_bold_clean s : includes (lit "**") (strip_bold s) = false.
Proof.
  assert (H : forall n s, length s <= n ->
                          includes (lit "**") (strip_bold s) = false).
  { clear s. induction n as [|n IH]; intros s Hn.
    - destruct s; [reflexivity | simpl in Hn; lia].
    - destruct s as [|c [|d u]]; [reflexivity | | ].
      + cbn -[N.eqb]. rewrite andb_false_r. reflexivity.
      + rewrite strip_bold_cons2.
        destruct ((42 =? c)%N && (42 =? d)%N) eqn:E.
        * apply IH. simpl in Hn. lia.
        * change (includes (lit "**") (c :: strip_bold (d :: u)))
            with (startsWith (lit "**") (c :: strip_bold (d :: u))
                  || includes (lit "**") (strip_bold (d :: u))).
          rewrite (IH (d :: u)) by (simpl in *; lia).
          rewrite orb_false_r.
          destruct (42 =? c)%N eqn:Ec.
          -- cbn [andb] in E. destruct (@strip_bold_head d u E) as [r ->].
             cbn -[N.eqb]. rewrite Ec, E. reflexivity.
          -- cbn -[N.eqb]. rewrite Ec. reflexivity. }
  apply (H (length s)). lia.
Qed.

Lemma includes_bold_entities x :
  includes (lit "**") (flat_map entity x) = includes (lit "**") x.
Proof.
  induction x as [|c x IH]; [reflexivity|].
  cbn [flat_map].
  destruct (special c) eqn:Ec.
  - change (includes (lit "**") (c :: x))
      with (startsWith (lit "**") (c :: x) || includes (lit "**") x).
    rewrite <- IH.
    destruct (special_cases _ Ec) as [-> | [-> | ->]]; reflexivity.
  - rewrite (entity_plain _ Ec).
    change (startsWith (lit "**") (c :: flat_map entity x)
            || includes (lit "**") (flat_map entity x)
            = startsWith (lit "**") (c :: x) || includes (lit "**") x).
    rewrite IH. f_equal.
    change (N.eqb 42 c && startsWith [42%N] (flat_map entity x)
            = N.eqb 42 c && startsWith [42%N] x).
    rewrite startsWith_entities by reflexivity. reflexivity.
Qed.

(** The escaped text carries no bold marker. *)
Lemma escapeHtml_no_bold text : includes (lit "**") (escapeHtml text) = false.
Proof.
  rewrite escapeHtml_spec, includes_bold_entities. apply strip_bold_clean.
Qed.

(** A doubly escaped ampersand in the output comes from the text of an
    entity in the input. *)
Lemma double_amp_origin x :
  includes (lit "&amp;amp;") (flat_map entity x) = true ->
  includes (lit "&amp;") x = true.
Proof.
  induction x as [|c x IH]; [discriminate|].
  cbn [flat_map].
  change (includes (lit "&amp;") (c :: x))
    with (startsWith (lit "&amp;") (c :: x) || includes (lit "&amp;") x).
  destruct (special c) eqn:Ec.
  - destruct (special_cases _ Ec) as [-> | [-> | ->]].
    + change (startsWith (lit "amp;") (flat_map entity x)
              || includes (lit "&amp;amp;") (flat_map entity x) = true
              -> startsWith (lit "amp;") x || includes (lit "&amp;") x = true).
      rewrite startsWith_entities by reflexivity.
      rewrite !orb_true_iff. intros [H|H]; [left; exact H | right; auto].
    + change (includes (lit "&amp;amp;") (flat_map entity x) = true
              -> false || includes (lit "&amp;") x = true).
      exact IH.
    + change (includes (lit "&amp;amp;") (flat_map entity x) = true
              -> false || includes (lit "&amp;") x = true).
      exact IH.
  - rewrite (entity_plain _ Ec).
    change (includes (lit "&amp;amp;") ([c] ++ flat_map entity x))
      with (startsWith (lit "&amp;amp;") (c :: flat_map entity x)
            || includes (lit "&amp;amp;") (flat_map entity x)).
    assert (E : N.eqb 38 c = false) by (apply plain_neq; auto).
    replace (startsWith (lit "&amp;amp;") (c :: flat_map entity x))
      with false by (cbn -[N.eqb]; rewrite E; reflexivity).
    intros H. rewrite (IH H). apply orb_true_r.
Qed.

End EscFacts.

(* ===================================================================== *)
(** * The header pattern *)
(* ===================================================================== *)

Module HeaderFacts.
Import StrFacts TrimFacts ReFacts.

(** Followed by a continuation that wants the end of the input, the
    repetition must take it all. *)
Lemma star_cls_end p k q x cs :
  (forall q' c t, k (MState q' (c :: t) cs) = None) ->
  star_cls p k q x cs
  = if forallb p x then k (MState (q + length x) [] cs) else None.
Proof.
  intros Hk. revert q. induction x as [|c t IH]; intros q; simpl.
  - rewrite Nat.add_0_r. reflexivity.
  - rewrite Hk. destruct (p c); simpl; [|reflexivity].
    rewrite IH, Nat.add_succ_r.
    destruct (forallb p t); [|reflexivity].
    destruct (k _); reflexivity.
Qed.

(** [(.+)$]: the rest of the line, if it is not empty and holds no line
    terminator. *)
Lemma header_tail q x cs :
  rmatch (Seq (Group 2 (Plus dot)) Eol) Some (MState q x cs)
  = match x with
    | _ :: _ =>
        if forallb (fun c => negb (is_lt c)) x
        then Some (MState (q + length x) [] ((2, x) :: cs))
        else None
    | [] => None
    end.
Proof.
  cbn [rmatch]. unfold dot. rewrite rmatch_plus_cls.
  destruct x as [|c t]; [reflexivity|].
  cbn [forallb]. destruct (negb (is_lt c)); [|reflexivity].
  rewrite star_cls_end by reflexivity.
  cbn [andb]. destruct (forallb _ t); [|reflexivity].
  cbn [pos rest caps].
  replace (S q + length t - q) with (length (c :: t)) by (cbn [length]; lia).
  rewrite firstn_all. cbn [length].
  replace (S q + length t) with (q + S (length t)) by lia.
  reflexivity.
Qed.

Lemma header_re_unfold :
  header_re
  = Seq Bol (Seq (Star ws) (Seq (Group 1 digit) (Seq (chr (ch "."))
      (Seq (Star ws) (Seq (Group 2 (Plus dot)) Eol))))).
Proof. reflexivity. Qed.

(** [(\d)\.] and what follows. *)
Lemma header_digit q x cs :
  rmatch (Seq (Group 1 digit) (Seq (chr (ch "."))
            (Seq (Star ws) (Seq (Group 2 (Plus dot)) Eol)))) Some
         (MState q x cs)
  = match x with
    | d :: c :: t =>
        if is_digit d && N.eqb (ch ".") c
        then star_cls is_ws (rmatch (Seq (Group 2 (Plus dot)) Eol) Some)
                      (S (S q)) t ((1, [d]) :: cs)
        else None
    | _ => None
    end.
Proof.
  destruct x as [|d [|c t]]; cbn [rmatch digit chr rest pos caps].
  - reflexivity.
  - destruct (is_digit d); reflexivity.
  - destruct (is_digit d); [|reflexivity].
    destruct (N.eqb (ch ".") c); [|reflexivity].
    cbn [andb]. unfold ws. rewrite star_loop_cls by reflexivity.
    replace (S q - q) with 1 by lia. reflexivity.
Qed.

Lemma digit_not_ws d : is_digit d = true -> is_ws d = false.
Proof.
  unfold is_digit. rewrite andb_true_iff, !N.leb_le. intros [H1 H2].
  unfold is_ws. apply orb_false_iff. split.
  - cbn [existsb]. repeat (apply orb_false_iff; split);
      try reflexivity; apply N.eqb_neq; lia.
  - apply andb_false_iff. left. apply N.leb_gt. lia.
Qed.

(** The whole pattern on a line. *)
Lemma exec_header line :
  exec header_re line
  = star_cls is_ws
      (rmatch (Seq (Group 1 digit) (Seq (chr (ch "."))
                 (Seq (Star ws) (Seq (Group 2 (Plus dot)) Eol)))) Some)
      0 line [].
Proof.
  rewrite header_re_unfold, exec_bol.
  cbn [rmatch rest]. unfold ws at 1. apply star_loop_cls. reflexivity.
Qed.

(** Every match of the header pattern captures one digit and a text. *)
Lemma header_groups line m :
  exec header_re line = Some m ->
  exists d g, is_digit d = true /\ caps m = [(2, g); (1, [d])].
Proof.
  rewrite exec_header. intros H.
  apply star_cls_inv in H as (n & _ & H).
  rewrite header_digit in H.
  destruct (skipn n line) as [|d [|c t]]; try discriminate.
  destruct (is_digit d) eqn:Ed; [|discriminate].
  destruct (N.eqb (ch ".") c); [|discriminate].
  cbn [andb] in H.
  apply star_cls_inv in H as (n' & _ & H).
  rewrite header_tail in H.
  destruct (skipn n' t) as [|y u]; [discriminate|].
  destruct (forallb _ (y :: u)); [|discriminate].
  inversion H; subst. exists d, (y :: u). auto.
Qed.




End HeaderFacts.

(* ===================================================================== *)
(** * The section splitter *)
(* ===================================================================== *)

Module ParseFacts.
Import StrFacts TrimFacts ReFacts HeaderFacts.

(** ** Lines *)

Lemma split_no_sep c s : indexOf c s = None -> split c s = [s].
Proof.
  induction s as [|x t IH]; [reflexivity|].
  cbn [indexOf split]. destruct (N.eqb x c); [discriminate|].
  destruct (indexOf c t); [discriminate|].
  intros _. rewrite IH; reflexivity.
Qed.

Lemma split_app_sep c a b :
  indexOf c a = None -> split c (a ++ c :: b) = a :: split c b.
Proof.
  induction a as [|x t IH]; cbn [indexOf split app].
  - rewrite N.eqb_refl. reflexivity.
  - destruct (N.eqb x c); [discriminate|].
    destruct (indexOf c t); [discriminate|].
    intros _. rewrite IH; reflexivity.
Qed.

(** Joining lines and splitting them again. *)
Lemma split_join ls :
  ls <> [] -> Forall (fun l => indexOf newline l = None) ls ->
  split newline (join [newline] ls) = ls.
Proof.
  intros Hn H. induction H as [|a t Ha Ht IH]; [congruence|].
  destruct t as [|b t'].
  - apply split_no_sep. exact Ha.
  - change (join [newline] (a :: b :: t'))
      with (a ++ newline :: join [newline] (b :: t')).
    rewrite split_app_sep by exact Ha.
    rewrite IH by discriminate. reflexivity.
Qed.


(** ** The section opened by a well-formed header *)

Lemma trimEnd_snoc_ws s c : is_ws c = true -> trimEnd (s ++ [c]) = trimEnd s.
Proof.
  intros H. unfold trimEnd, dropWhileEnd. rewrite rev_app_distr.
  simpl. rewrite H. reflexivity.
Qed.






(** ** The loop *)

Lemma truthy_length s : (0 <? length s) = truthy s.
Proof. destruct s; reflexivity. Qed.

Lemma isIntroPhrase_trimEnd l : isIntroPhrase (trimEnd l) = isIntroPhrase l.
Proof. unfold isIntroPhrase. rewrite trim_trimEnd. reflexivity. Qed.

Lemma meaningful_line_trimEnd l :
  meaningful_line (trimEnd l) = meaningful_line l.
Proof.
  unfold meaningful_line. rewrite trim_trimEnd, isIntroPhrase_trimEnd.
  reflexivity.
Qed.

Lemma meaningful_filter ls : meaningful ls = filter meaningful_line ls.
Proof.
  unfold meaningful. apply filter_ext. intros l.
  unfold meaningful_line. rewrite truthy_length. reflexivity.
Qed.

(** The orphaned section keeps the meaningful lines, less their trailing
    white space, in the order of the input. *)
Lemma meaningful_buffered pre :
  meaningful (buffered pre) = map trimEnd (filter meaningful_line pre).
Proof.
  rewrite meaningful_filter. unfold buffered.
  induction pre as [|l t IH]; [reflexivity|].
  cbn [map filter].
  rewrite <- (meaningful_line_trimEnd l).
  unfold meaningful_line at 2.
  destruct (truthy (trim (trimEnd l))) eqn:E; cbn [andb filter].
  - unfold meaningful_line at 1. rewrite E. cbn [andb].
    destruct (negb (isIntroPhrase (trimEnd l))); cbn [map]; rewrite IH;
      reflexivity.
  - exact IH.
Qed.

(** The section made of the buffer is the orphaned part the specification
    describes. *)
Lemma orphans_spec pre : orphans_of (buffered pre) = orphaned_part pre.
Proof.
  unfold orphans_of, orphaned_part. rewrite meaningful_buffered.
  induction pre as [|l t IH]; [reflexivity|].
  cbn [filter existsb]. destruct (meaningful_line l); [reflexivity|].
  exact IH.
Qed.

Lemma finish_orphans o : finish (mkPState [] None o) = orphans_of o.
Proof.
  unfold finish, orphans_of. cbn [sections current orphanedLines].
  destruct o as [|x t]; [reflexivity|].
  destruct (meaningful (x :: t)); reflexivity.
Qed.










End ParseFacts.

(** ** The shape of the result *)

Module ParseInv.
Import StrFacts TrimFacts ReFacts HeaderFacts ParseFacts.

Lemma numbered_new line m :
  exec header_re line = Some m -> numbered (newSection m).
Proof.
  intros H. destruct (header_groups _ H) as (d & g & Hd & Hc).
  unfold numbered, newSection.
  destruct (indexOf (ch ":") (trim (cap 2 m))) as [[|i]|];
    cbn [isOrphaned number]; (split; [reflexivity|]);
    exists d; (split; [exact Hd|]);
    unfold cap, group; rewrite Hc; reflexivity.
Qed.

Lemma numbered_add_line c l : numbered c -> numbered (add_line c l).
Proof. intros H. exact H. Qed.

Lemma shaped_snoc secs c : shaped secs -> numbered c -> shaped (secs ++ [c]).
Proof.
  intros Hs Hc. destruct secs as [|x t]; cbn [app shaped].
  - split; [left; exact Hc | constructor].
  - destruct Hs as [Hx Ht]. split; [exact Hx|].
    apply Forall_app. split; [exact Ht | constructor; [exact Hc | constructor]].
Qed.

Lemma shaped_orphan ls : ls <> [] -> shaped [orphanedSection ls].
Proof.
  intros H. split; [right; exists ls; auto | constructor].
Qed.

Lemma inv_init : parse_inv init.
Proof. reflexivity. Qed.

Lemma inv_step st l : parse_inv st -> parse_inv (step st l).
Proof.
  destruct st as [secs cur orph]. unfold parse_inv, step.
  cbn [current sections orphanedLines]. intros H.
  destruct (exec header_re (trimEnd l)) as [m|] eqn:Em.
  - cbn [current sections orphanedLines].
    split; [eapply numbered_new; exact Em|].
    destruct cur as [c|].
    + destruct H as (Hc & -> & Hs).
      cbn [flush_orphans push_current current sections orphanedLines].
      split; [reflexivity|].
      apply shaped_snoc; assumption.
    + subst secs. destruct orph as [|o os];
        cbn [flush_orphans push_current current sections orphanedLines];
        [split; [reflexivity | exact I]|].
      split; [reflexivity|].
      destruct (meaningful (o :: os)) as [|x xs] eqn:Ex; [exact I|].
      apply shaped_orphan. discriminate.
  - destruct cur as [c|].
    + cbn [current sections orphanedLines].
      destruct H as (Hc & Ho & Hs). auto using numbered_add_line.
    + destruct (truthy (trim (trimEnd l))); exact H.
Qed.

Lemma inv_fold ls : forall st, parse_inv st -> parse_inv (fold_left step ls st).
Proof.
  induction ls as [|l t IH]; intros st H; [exact H|].
  cbn [fold_left]. apply IH. apply inv_step. exact H.
Qed.

Lemma inv_finish st : parse_inv st -> shaped (finish st).
Proof.
  destruct st as [secs cur orph]. unfold parse_inv, finish.
  cbn [current sections orphanedLines]. intros H.
  destruct cur as [c|].
  - destruct H as (Hc & -> & Hs). apply shaped_snoc; assumption.
  - subst secs. destruct orph as [|o os]; [exact I|].
    destruct (meaningful (o :: os)) as [|x xs]; [exact I|].
    apply shaped_orphan. discriminate.
Qed.

Lemma parse_shaped planText : shaped (parsePlanText planText).
Proof. apply inv_finish, inv_fold, inv_init. Qed.

Lemma numbered_not_orphaned sec : numbered sec -> isOrphaned sec = false.
Proof. intros [H _]. exact H. Qed.

Lemma synthetic_fields sec :
  synthetic sec ->
  isOrphaned sec = true /\ number sec = lit "0"
  /\ title sec = lit "Additional Notes".
Proof. intros (ls & _ & ->). repeat split. Qed.

Lemma numbered_filter secs :
  Forall numbered secs -> filter isOrphaned secs = [].
Proof.
  intros H. induction H as [|x t Hx Ht IH]; [reflexivity|].
  cbn [filter]. rewrite (numbered_not_orphaned Hx). exact IH.
Qed.

End ParseInv.

(* ===================================================================== *)
(** * Properties of the section splitter *)
(* ===================================================================== *)

Module SplitterClaims.
Import StrFacts TrimFacts ReFacts HeaderFacts ParseFacts ParseInv.





(** C8, as stated, fails: the header pattern takes any digit, so a header
    numbered 0 or 9 opens a numbered section. *)
Lemma section_numbers_counterexample :
  map (fun sec => (number sec, isOrphaned sec))
      (parsePlanText (lit "0. Warm-up: x
9. Extras: y"))
  = [(lit "0", false); (lit "9", false)].
Proof. vm_compute. reflexivity. Qed.

(** C8, amended: in the result of [parsePlanText] an orphaned section can
    only be the first element, so there is at most one; it is the synthetic
    section, numbered 0 and titled Additional Notes; and the number of
    every other section is one decimal digit, 0 to 9. *)
Theorem section_shape (planText : str) :
  length (filter isOrphaned (parsePlanText planText)) <= 1
  /\ (forall i sec,
     nth_error (parsePlanText planText) i = Some sec ->
     isOrphaned sec = true ->
     i = 0 /\ number sec = lit "0" /\ title sec = lit "Additional Notes")
  /\ (forall sec,
        In sec (parsePlanText planText) ->
        isOrphaned sec = false ->
        exists d, is_digit d = true /\ number sec = [d]).
Proof.
  pose proof (parse_shaped planText) as H.
  destruct (parsePlanText planText) as [|first others].
  { split; [cbn; lia|]. split.
    - intros [|i] sec Hs; discriminate.
    - intros sec []. }
  destruct H as [Hf Ho]. split.
  { cbn [filter]. destruct (isOrphaned first); cbn [length];
      rewrite (numbered_filter Ho); cbn; lia. }
  split.
  - intros [|i] sec Hs Hor.
    + inversion Hs; subst sec. destruct Hf as [Hf|Hf].
      * rewrite (numbered_not_orphaned Hf) in Hor. discriminate.
      * destruct (synthetic_fields Hf) as (_ & Hn & Ht). auto.
    + cbn [nth_error] in Hs. apply nth_error_In in Hs.
      rewrite Forall_forall in Ho.
      rewrite (numbered_not_orphaned (Ho _ Hs)) in Hor. discriminate.
  - intros sec [<-|Hin] Hor.
    + destruct Hf as [[_ Hf]|Hf]; [exact Hf|].
      destruct (synthetic_fields Hf) as (Hor' & _). congruence.
    + rewrite Forall_forall in Ho. destruct (Ho _ Hin) as [_ Hd]. exact Hd.
Qed.

Lemma section_shape_witness :
  exists d,
    is_digit d = true
    /\ number (mkSection (lit "1") (lit "Starting Point") (lit "...")
                 [lit "..."] false) = [d].
Proof.
  assert (Hin : In (mkSection (lit "1") (lit "Starting Point") (lit "...")
                      [lit "..."] false)
                   (parsePlanText orphan_scenario))
    by (vm_compute; right; left; reflexivity).
  exact (proj2 (proj2 (section_shape orphan_scenario)) _ Hin eq_refl).
Defined.

(** C9: the orphaned-content scenario.  The result is two sections: first
    the orphaned one, with number [0], title [Additional Notes], no
    description and the clinician's note as its only line, then section 1.
    The first line of the input is an intro phrase and is filtered out, the
    blank line is dropped, and the note is not an intro phrase. *)
Theorem orphan_scenario_sections :
  parsePlanText
    (lit "Here is your personalized treatment plan." ++ [newline]
     ++ [newline]
     ++ lit "Some clinician note." ++ [newline]
     ++ lit "1. Starting Point: ...")
  = [ {| number := lit "0"; title := lit "Additional Notes";
         description := []; lines := [lit "Some clinician note."];
         isOrphaned := true |};
      {| number := lit "1"; title := lit "Starting Point";
         description := lit "..."; lines := [lit "..."];
         isOrphaned := false |} ]
  /\ orphan_scenario
     = lit "Here is your personalized treatment plan." ++ [newline]
       ++ [newline]
       ++ lit "Some clinician note." ++ [newline]
       ++ lit "1. Starting Point: ..."
  /\ isIntroPhrase (lit "Here is your personalized treatment plan.") = true
  /\ isIntroPhrase (lit "Some clinician note.") = false.
Proof. vm_compute. repeat split. Qed.

End SplitterClaims.

(* ===================================================================== *)
(** * Goals and Key Actions *)
(* ===================================================================== *)

Module ListFacts.
Import StrFacts TrimFacts ReFacts HeaderFacts ParseFacts.

Lemma filter_all (A : Type) (f : A -> bool) (l : list A) :
  forallb f l = true -> filter f l = l.
Proof.
  induction l as [|x t IH]; [reflexivity|].
  cbn. intros H. apply andb_true_iff in H as [Hx Ht].
  rewrite Hx, IH by exact Ht. reflexivity.
Qed.

Lemma forallb_firstn (A : Type) (f : A -> bool) n (l : list A) :
  forallb f l = true -> forallb f (firstn n l) = true.
Proof.
  revert n. induction l as [|x t IH]; intros [|n]; try reflexivity.
  cbn. intros H. apply andb_true_iff in H as [Hx Ht].
  rewrite Hx, IH by exact Ht. reflexivity.
Qed.

Lemma startsWith_one c t :
  startsWith [c] t = match t with [] => false | x :: _ => N.eqb c x end.
Proof. destruct t; cbn; [reflexivity | apply andb_true_r]. Qed.

(** The test of the first loop is the candidate test of the
    specification. *)
Lemma candidate_test t :
  truthy t && negb (startsWith [dquote] t) && negb (startsWith (lit "*") t)
  = is_candidate t.
Proof.
  destruct t as [|c t]; [reflexivity|].
  change (lit "*") with [ch "*"]. rewrite !startsWith_one.
  unfold is_candidate. rewrite (N.eqb_sym c dquote), (N.eqb_sym c (ch "*")).
  reflexivity.
Qed.

Lemma candidates_spec ls : candidates ls = filter is_candidate (map trim ls).
Proof. unfold candidates. apply filter_ext. exact candidate_test. Qed.

Lemma candidates_nonempty ls :
  forallb (fun goal => 0 <? length goal) (candidates ls) = true.
Proof.
  rewrite candidates_spec. apply forallb_forall. intros t Ht.
  apply filter_In in Ht as [_ Ht]. destruct t; [discriminate | reflexivity].
Qed.

(** With three candidates or more, the items are the first three. *)
Lemma listItems_three ls :
  3 <= length (candidates ls) ->
  listItems ls = firstn 3 (candidates ls).
Proof.
  intros H. unfold listItems.
  apply Nat.leb_le in H. rewrite H.
  apply filter_all. apply forallb_firstn. apply candidates_nonempty.
Qed.

(** ** The pattern that trims commas and white space *)

Lemma comma_ws_class : comma_ws = Cls is_comma_ws.
Proof. reflexivity. Qed.

Lemma rmatch_alt a b k s :
  rmatch (Alt a b) k s
  = match rmatch a k s with Some m => Some m | None => rmatch b k s end.
Proof. reflexivity. Qed.

Lemma rmatch_seq a b k s : rmatch (Seq a b) k s = rmatch a (rmatch b k) s.
Proof. reflexivity. Qed.

Lemma rmatch_bol k q x cs :
  rmatch Bol k (MState q x cs)
  = if q =? 0 then k (MState q x cs) else None.
Proof. reflexivity. Qed.

(** At an index other than 0 only the second alternative can match, and
    it takes everything up to the end. *)
Lemma edge_match_later q x :
  rmatch edge_punct_re Some (MState (S q) x [])
  = match x with
    | _ :: _ => if forallb is_comma_ws x
                then Some (MState (S q + length x) [] []) else None
    | [] => None
    end.
Proof.
  unfold edge_punct_re. rewrite comma_ws_class.
  rewrite rmatch_alt, !rmatch_seq, rmatch_bol. cbn [Nat.eqb].
  rewrite rmatch_plus_cls.
  destruct x as [|c t]; [reflexivity|].
  cbn [forallb]. destruct (is_comma_ws c); [|reflexivity].
  rewrite star_cls_eol. cbn [andb].
  destruct (forallb is_comma_ws t); [|reflexivity].
  cbn [length]. rewrite Nat.add_succ_r. reflexivity.
Qed.

(** After index 0 the loop removes the trailing run. *)
Lemma edge_loop_later x :
  forall fuel q, length x < fuel ->
  replace_loop edge_punct_re [] fuel (S q) x = dropWhileEnd is_comma_ws x.
Proof.
  induction x as [|c t IH]; intros fuel q Hl.
  - apply replace_loop_nil. apply edge_match_later.
  - destruct fuel as [|fuel]; [lia|]. cbn [length] in Hl.
    rewrite dropWhileEnd_cons.
    destruct (forallb is_comma_ws (c :: t)) eqn:E.
    + rewrite (@replace_loop_hit _ _ _ _ _
                 (MState (S q + length (c :: t)) [] [])).
      * cbn [pos rest app]. apply replace_loop_nil.
        change (S q + length (c :: t)) with (S (q + length (c :: t))).
        apply edge_match_later.
      * rewrite edge_match_later, E. reflexivity.
      * cbn [pos length]. lia.
    + rewrite replace_loop_skip by (rewrite edge_match_later, E; reflexivity).
      rewrite IH by lia. reflexivity.
Qed.

(** At index 0 the first alternative takes the leading run. *)
Lemma edge_match_start c t :
  is_comma_ws c = true ->
  rmatch edge_punct_re Some (MState 0 (c :: t) [])
  = Some (MState (S (length (takeWhile is_comma_ws t)))
                 (dropWhile is_comma_ws t) []).
Proof.
  intros Hc. unfold edge_punct_re. rewrite comma_ws_class.
  rewrite rmatch_alt, !rmatch_seq, rmatch_bol. cbn [Nat.eqb].
  rewrite rmatch_plus_cls, Hc.
  rewrite (@star_cls_greedy is_comma_ws Some 1 t []
             (MState (1 + length (takeWhile is_comma_ws t))
                     (dropWhile is_comma_ws t) [])) by reflexivity.
  reflexivity.
Qed.

Lemma edge_match_start_no c t :
  is_comma_ws c = false ->
  rmatch edge_punct_re Some (MState 0 (c :: t) []) = None.
Proof.
  intros Hc. unfold edge_punct_re. rewrite comma_ws_class.
  rewrite rmatch_alt, !rmatch_seq, rmatch_bol. cbn [Nat.eqb].
  rewrite !rmatch_plus_cls, Hc. reflexivity.
Qed.

Lemma length_dropWhile p (s : str) : length (dropWhile p s) <= length s.
Proof.
  induction s as [|c t IH]; cbn; [lia|]. destruct (p c); cbn; lia.
Qed.

(** The global replacement trims commas and white space at both ends. *)
Lemma replaceAll_edges u : replaceAll edge_punct_re [] u = strip_edges u.
Proof.
  unfold replaceAll, strip_edges.
  destruct u as [|c t]; [reflexivity|].
  cbn [dropWhile]. destruct (is_comma_ws c) eqn:Ec.
  - rewrite (@replace_loop_hit _ _ _ _ _ _ (@edge_match_start c t Ec))
      by (cbn [pos]; lia).
    cbn [pos rest app].
    apply edge_loop_later.
    pose proof (length_dropWhile is_comma_ws t). cbn [length]. lia.
  - rewrite replace_loop_skip by (apply edge_match_start_no; exact Ec).
    rewrite edge_loop_later by (cbn [length]; lia).
    rewrite dropWhileEnd_cons. cbn [forallb]. rewrite Ec. reflexivity.
Qed.

(** ** The sentence-level recovery *)

Lemma forallb_dropWhile p q (s : str) :
  forallb p s = true -> forallb p (dropWhile q s) = true.
Proof.
  induction s as [|c t IH]; [reflexivity|].
  cbn. intros H. destruct (q c); [|exact H].
  apply andb_true_iff in H as [_ H]. auto.
Qed.

(** Trimming the two ends commutes, whatever the two classes. *)
Lemma dropWhile_dropWhileEnd2 p q (s : str) :
  dropWhile q (dropWhileEnd p s) = dropWhileEnd p (dropWhile q s).
Proof.
  induction s as [|c t IH]; [reflexivity|].
  rewrite dropWhileEnd_cons. cbn [dropWhile].
  destruct (forallb p (c :: t)) eqn:E.
  - destruct (q c).
    + symmetry. apply dropWhileEnd_all. apply forallb_dropWhile.
      cbn in E. apply andb_true_iff in E as [_ E]. exact E.
    + rewrite dropWhileEnd_cons, E. reflexivity.
  - cbn [dropWhile]. destruct (q c).
    + exact IH.
    + rewrite dropWhileEnd_cons, E. reflexivity.
Qed.

Section Wider.
Variables p q : char -> bool.
Hypothesis sub : forall c, p c = true -> q c = true.

Lemma dropWhile_wider s : dropWhile q (dropWhile p s) = dropWhile q s.
Proof.
  induction s as [|c t IH]; [reflexivity|].
  cbn [dropWhile]. destruct (p c) eqn:Ep.
  - rewrite (@sub _ Ep). exact IH.
  - reflexivity.
Qed.

Lemma dropWhileEnd_wider s :
  dropWhileEnd q (dropWhileEnd p s) = dropWhileEnd q s.
Proof.
  unfold dropWhileEnd. rewrite rev_involutive, dropWhile_wider. reflexivity.
Qed.

End Wider.

Lemma ws_comma_ws c : is_ws c = true -> is_comma_ws c = true.
Proof. intros H. unfold is_comma_ws. rewrite H. apply orb_true_r. Qed.

Lemma strip_edges_trim s : strip_edges (trim s) = strip_edges s.
Proof.
  unfold strip_edges, trim, trimEnd, trimStart.
  rewrite dropWhile_dropWhileEnd2.
  rewrite (@dropWhile_wider _ _ ws_comma_ws).
  apply (@dropWhileEnd_wider _ _ ws_comma_ws).
Qed.

Lemma includes_one c s : includes [c] s = existsb (N.eqb c) s.
Proof.
  induction s as [|x t IH]; [reflexivity|].
  cbn [includes existsb]. rewrite startsWith_one, IH. reflexivity.
Qed.

Lemma existsb_dropWhile (f p : char -> bool) s :
  (forall c, p c = true -> f c = false) ->
  existsb f (dropWhile p s) = existsb f s.
Proof.
  intros H. induction s as [|c t IH]; [reflexivity|].
  cbn [dropWhile existsb]. destruct (p c) eqn:Ep; [|reflexivity].
  rewrite (H _ Ep). exact IH.
Qed.

Lemma existsb_rev_eq (f : char -> bool) s : existsb f (rev s) = existsb f s.
Proof.
  induction s as [|c t IH]; [reflexivity|].
  cbn [rev existsb]. rewrite existsb_app, IH. cbn.
  rewrite orb_false_r. apply orb_comm.
Qed.

Lemma existsb_trim (f : char -> bool) s :
  (forall c, is_ws c = true -> f c = false) ->
  existsb f (trim s) = existsb f s.
Proof.
  intros H. unfold trim, trimEnd, trimStart, dropWhileEnd.
  rewrite existsb_rev_eq, existsb_dropWhile, existsb_rev_eq by exact H.
  apply existsb_dropWhile. exact H.
Qed.

(** An asterisk is not white space, so trimming neither hides nor shows
    one. *)
Lemma includes_star_trim s :
  includes (lit "*") (trim s) = includes (lit "*") s.
Proof.
  change (lit "*") with [ch "*"]. rewrite !includes_one.
  apply existsb_trim. intros c Hc.
  apply N.eqb_neq. intros <-. discriminate.
Qed.

Lemma sentence_item_spec s : sentence_item s = fragment_item s.
Proof.
  unfold sentence_item, fragment_item.
  rewrite !truthy_length, includes_star_trim, replaceAll_edges,
    strip_edges_trim.
  destruct (truthy (trim s) && negb (includes (lit "*") s)); reflexivity.
Qed.

Lemma fragment_item_blank s : truthy (trim s) = false -> fragment_item s = [].
Proof. unfold fragment_item. intros ->. reflexivity. Qed.

Lemma flat_map_fragment_filter F :
  flat_map fragment_item (filter (fun s => 0 <? length (trim s)) F)
  = flat_map fragment_item F.
Proof.
  induction F as [|f t IH]; [reflexivity|].
  cbn [filter flat_map]. rewrite truthy_length.
  destruct (truthy (trim f)) eqn:E.
  - cbn [flat_map]. rewrite IH. reflexivity.
  - rewrite (@fragment_item_blank _ E). exact IH.
Qed.

Lemma fallbackItems_fragments goals :
  fallbackItems goals
  = flat_map fragment_item (split (ch ".") (join (lit " ") goals)).
Proof.
  unfold fallbackItems.
  rewrite (flat_map_ext _ _ sentence_item_spec).
  apply flat_map_fragment_filter.
Qed.

(** The fallback of the source is the recovery the specification
    describes. *)
Lemma fallbackItems_spec goals : fallbackItems goals = spec_fallback goals.
Proof.
  rewrite fallbackItems_fragments. unfold spec_fallback.
  induction (split (ch ".") (join (lit " ") goals)) as [|f t IH];
    [reflexivity|].
  cbn [flat_map filter]. rewrite IH. rewrite truthy_length.
  unfold fragment_item.
  destruct (truthy (trim f)); cbn [andb filter]; [|reflexivity].
  destruct (includes (lit "*") f); cbn [andb negb filter map]; [reflexivity|].
  rewrite truthy_length.
  destruct (truthy (strip_edges f)); reflexivity.
Qed.

Lemma trim_nil_all_ws s : trim s = [] -> forallb is_ws s = true.
Proof.
  unfold trim, trimEnd, trimStart. intros H.
  apply dropWhileEnd_nil_all in H.
  destruct (dropWhile is_ws s) as [|c t] eqn:E.
  - apply dropWhile_nil_all. exact E.
  - cbn in H. rewrite (@dropWhile_head _ _ _ _ E) in H. discriminate.
Qed.

Lemma forallb_wider (p q : char -> bool) s :
  (forall c, p c = true -> q c = true) ->
  forallb p s = true -> forallb q s = true.
Proof.
  intros H. induction s as [|c t IH]; [reflexivity|].
  cbn. intros Hs. apply andb_true_iff in Hs as [Hc Ht].
  rewrite (H _ Hc), IH by exact Ht. reflexivity.
Qed.

(** A fragment yields an item exactly when it is proper. *)
Lemma fragment_item_proper f :
  fragment_item f = if proper f then [strip_edges f] else [].
Proof.
  unfold fragment_item, proper.
  destruct (truthy (trim f)) eqn:E; [reflexivity|].
  cbn [andb].
  assert (H : strip_edges f = []).
  { unfold strip_edges. rewrite dropWhile_all; [reflexivity|].
    apply (@forallb_wider _ _ _ ws_comma_ws). apply trim_nil_all_ws.
    destruct (trim f); [reflexivity | discriminate]. }
  rewrite H. cbn. rewrite andb_false_r. reflexivity.
Qed.

(** A line with exactly two periods has three fragments. *)
Lemma split_two_periods a b c :
  indexOf (ch ".") a = None -> indexOf (ch ".") b = None ->
  indexOf (ch ".") c = None ->
  split (ch ".") (a ++ ch "." :: b ++ ch "." :: c) = [a; b; c].
Proof.
  intros Ha Hb Hc.
  rewrite split_app_sep by exact Ha.
  rewrite split_app_sep by exact Hb.
  rewrite split_no_sep by exact Hc. reflexivity.
Qed.

End ListFacts.

Module ListClaims.
Import StrFacts TrimFacts ReFacts ParseFacts ListFacts.

(** C3, as stated, fails: the claim counts the candidate lines after a
    filter that sets bullet lines aside, but a line that starts with a
    hyphen passes the filter of the code.  With a hyphen line first and
    three plain lines after it, the three lines the claim counts are the
    plain ones, yet the list shows the hyphen line and drops the third
    plain line. *)
Lemma hyphen_line_counterexample :
  filter claimed_candidate
    (map trim [ lit "- Warm up first"; lit "Sleep well"; lit "Walk daily";
                lit "Stretch often" ])
  = [ lit "Sleep well"; lit "Walk daily"; lit "Stretch often" ]
  /\ renderGoalsSection
       {| number := lit "3"; title := lit "Goals"; description := [];
          lines := [ lit "- Warm up first"; lit "Sleep well";
                     lit "Walk daily"; lit "Stretch often" ];
          isOrphaned := false |}
     = tpl "
      <section class=`section`>
        <h2><span class=`num`>3.</span> Goals</h2>
        <ul><li>- Warm up first</li><li>Sleep well</li><li>Walk daily</li></ul>
      </section>
    "
  /\ renderKeyActionsSection
       {| number := lit "4"; title := lit "Key Actions"; description := [];
          lines := [ lit "- Warm up first"; lit "Sleep well";
                     lit "Walk daily"; lit "Stretch often" ];
          isOrphaned := false |}
     = tpl "
      <section class=`section`>
        <h2><span class=`num`>4.</span> Key Actions</h2>
        <ol><li>- Warm up first</li><li>Sleep well</li><li>Walk daily</li></ol>
      </section>
    ".
Proof. vm_compute. repeat split. Qed.

(** C3, amended: the candidate lines are the trimmed lines that are not
    empty and start with neither a double quote nor an asterisk (a line
    that starts with a hyphen or the round bullet is one of them).  With at
    least three of them the list holds exactly the first three, escaped, in
    the order of the input, and the rest is dropped; the Goals renderer
    puts them in a [ul], the Key Actions renderer in an [ol]. *)
Theorem first_three_items (sec : section) :
  3 <= length (filter is_candidate (map trim (lines sec))) ->
  length (firstn 3 (filter is_candidate (map trim (lines sec)))) = 3
  /\ renderGoalsSection sec
     = tpl "
      <section class=`section`>
        <h2><span class=`num`>" ++ number sec ++ tpl ".</span> "
       ++ flat_map entity (strip_bold (title sec)) ++ tpl "</h2>
        <ul>"
       ++ concat (map (fun item =>
                         tpl "<li>" ++ flat_map entity (strip_bold item)
                         ++ tpl "</li>")
                    (firstn 3 (filter is_candidate (map trim (lines sec)))))
       ++ tpl "</ul>
      </section>
    "
  /\ renderKeyActionsSection sec
     = tpl "
      <section class=`section`>
        <h2><span class=`num`>" ++ number sec ++ tpl ".</span> "
       ++ flat_map entity (strip_bold (title sec)) ++ tpl "</h2>
        <ol>"
       ++ concat (map (fun item =>
                         tpl "<li>" ++ flat_map entity (strip_bold item)
                         ++ tpl "</li>")
                    (firstn 3 (filter is_candidate (map trim (lines sec)))))
       ++ tpl "</ol>
      </section>
    ".
Proof.
  rewrite <- candidates_spec. intros H.
  pose proof (listItems_three _ H) as Hi.
  split; [apply firstn_length_le; exact H|].
  assert (Hm : forall l : list str,
            map (fun item => tpl "<li>" ++ flat_map entity (strip_bold item)
                             ++ tpl "</li>") l
            = map li l).
  { intros l. apply map_ext. intros item. unfold li.
    rewrite EscFacts.escapeHtml_spec. reflexivity. }
  rewrite Hm, <- !EscFacts.escapeHtml_spec.
  unfold renderGoalsSection, renderKeyActionsSection, renderListSection.
  rewrite Hi. apply Nat.leb_le in H. rewrite H.
  unfold numbered_heading.
  split; rewrite <- !app_assoc; reflexivity.
Qed.

Lemma first_three_items_witness :
  renderGoalsSection sample_goals
  = tpl "
      <section class=`section`>
        <h2><span class=`num`>3.</span> Where You Want to Get To (Goals)</h2>
        <ul><li>Sleep through the night.</li><li>Walk 30 minutes daily.</li><li>Return to tennis in 6 weeks.</li></ul>
      </section>
    ".
Proof.
  rewrite (proj1 (proj2 (@first_three_items sample_goals
             (proj1 (Nat.leb_le 3 (length (filter is_candidate
                                      (map trim (lines sample_goals)))))
                    eq_refl)))).
  vm_compute. reflexivity.
Defined.

(** C4, as stated, fails: a line that starts with a hyphen or with the
    round bullet is kept as a candidate; only the double quote and the
    asterisk set a line aside. *)
Lemma bullet_lines_counterexample :
  candidates [lit "- Stretch daily"; bullet_dot :: lit " Walk more";
              lit "* an aside"]
  = [lit "- Stretch daily"; bullet_dot :: lit " Walk more"].
Proof. vm_compute. reflexivity. Qed.

(** C4, amended: the candidate lines are exactly the trimmed lines that
    are not empty and start with neither a double quote nor an asterisk, in
    the order of the input; a line that starts with a hyphen or the round
    bullet is a candidate. *)
Theorem candidate_lines (ls : list str) :
  candidates ls = filter is_candidate (map trim ls)
  /\ (forall t,
        In t (candidates ls) <->
        In t (map trim ls) /\ t <> []
        /\ hd_error t <> Some dquote /\ hd_error t <> Some (ch "*"))
  /\ (forall l c r,
        In l ls -> trim l = c :: r -> c = ch "-" \/ c = bullet_dot ->
        In (trim l) (candidates ls)).
Proof.
  split; [apply candidates_spec|]. rewrite candidates_spec. split.
  - intros t. rewrite filter_In. unfold is_candidate.
    destruct t as [|c r].
    + split; [intros [_ H]; discriminate | intros (_ & H & _); congruence].
    + cbn [hd_error]. rewrite andb_true_iff, !negb_true_iff, !N.eqb_neq.
      split.
      * intros (Hin & H1 & H2). repeat split; congruence.
      * intros (Hin & _ & H1 & H2). repeat split; congruence.
  - intros l c r Hin Ht Hc. apply filter_In. split.
    + apply in_map. exact Hin.
    + rewrite Ht. destruct Hc as [-> | ->]; reflexivity.
Qed.

(** C5, as stated, fails in its last part: a line with two periods and
    text after the second one yields three items, not two. *)
Lemma two_periods_counterexample :
  candidates [lit "Reduce pain. Improve sleep. Stay active"]
  = [lit "Reduce pain. Improve sleep. Stay active"]
  /\ listItems [lit "Reduce pain. Improve sleep. Stay active"]
     = [lit "Reduce pain"; lit "Improve sleep"; lit "Stay active"].
Proof. vm_compute. split; reflexivity. Qed.

(** C5, amended: with one or two candidate lines the items are those of
    the sentence-level recovery (join with single spaces, split on the
    period, drop blank fragments and fragments with an asterisk, trim
    commas and white space, keep what is left non-empty), without a cap.
    One candidate line with two periods has three fragments: with two
    proper sentences before the periods it yields two items when the text
    after the second period is empty or otherwise not proper, and three
    when that text is proper too. *)
Theorem sentence_recovery (sec : section) :
  candidates (lines sec) <> [] ->
  length (candidates (lines sec)) < 3 ->
  listItems (lines sec) = spec_fallback (candidates (lines sec))
  /\ renderGoalsSection sec
     = tpl "
    <section class=`section`>
      " ++ numbered_heading sec ++ tpl "
      <ul>" ++ concat (map li (spec_fallback (candidates (lines sec))))
       ++ tpl "</ul>
    </section>
  "
  /\ renderKeyActionsSection sec
     = tpl "
    <section class=`section`>
      " ++ numbered_heading sec ++ tpl "
      <ol>" ++ concat (map li (spec_fallback (candidates (lines sec))))
       ++ tpl "</ol>
    </section>
  "
  /\ (forall a b c,
        candidates (lines sec) = [a ++ ch "." :: b ++ ch "." :: c] ->
        indexOf (ch ".") a = None -> indexOf (ch ".") b = None ->
        indexOf (ch ".") c = None ->
        proper a = true -> proper b = true ->
        listItems (lines sec)
        = strip_edges a :: strip_edges b
          :: (if proper c then [strip_edges c] else [])).
Proof.
  intros Hn Hl.
  assert (H3 : (3 <=? length (candidates (lines sec))) = false)
    by (apply Nat.leb_gt; exact Hl).
  assert (Hi : listItems (lines sec) = fallbackItems (candidates (lines sec))).
  { unfold listItems. rewrite H3.
    destruct (candidates (lines sec)); [congruence | reflexivity]. }
  split; [rewrite Hi; apply fallbackItems_spec|].
  unfold renderGoalsSection, renderKeyActionsSection, renderListSection.
  rewrite H3, Hi, fallbackItems_spec.
  split; [reflexivity|]. split; [reflexivity|].
  intros a b c Hc Ha Hb Hcc Hpa Hpb.
  rewrite <- fallbackItems_spec, fallbackItems_fragments, Hc.
  cbn [join]. rewrite split_two_periods by assumption.
  cbn [flat_map]. rewrite !fragment_item_proper, Hpa, Hpb, app_nil_r.
  reflexivity.
Qed.

Lemma sentence_recovery_witness :
  listItems (lines sample_paragraph)
  = [lit "Heat pack nightly"; lit "Stretch twice a day"].
Proof.
  assert (Hn : candidates (lines sample_paragraph) <> []) by discriminate.
  assert (Hl : length (candidates (lines sample_paragraph)) < 3)
    by (apply Nat.ltb_lt; reflexivity).
  destruct (@sentence_recovery sample_paragraph Hn Hl) as (_ & _ & _ & H).
  exact (H (lit "Heat pack nightly") (lit " Stretch twice a day") []
           eq_refl eq_refl eq_refl eq_refl eq_refl eq_refl).
Defined.

End ListClaims.

(* ===================================================================== *)
(** * The treatment plan *)
(* ===================================================================== *)

Module TreatmentFacts.
Import StrFacts TrimFacts.

(** Before the first phase header nothing is kept. *)
Lemma phase_skip pre :
  forall phases,
  Forall no_phase_header pre ->
  fold_left phase_step pre (phases, None) = (phases, None).
Proof.
  induction pre as [|l t IH]; intros phases H; [reflexivity|].
  inversion H as [|? ? Hl Ht]; subst. cbn [fold_left].
  unfold phase_step at 2. unfold no_phase_header in Hl. rewrite Hl.
  apply IH. exact Ht.
Qed.

Lemma collectPhases_skip pre rest :
  Forall no_phase_header pre ->
  collectPhases (pre ++ rest) = collectPhases rest.
Proof.
  intros H. unfold collectPhases.
  rewrite fold_left_app, phase_skip by exact H. reflexivity.
Qed.

Lemma collectPhases_none ls :
  Forall no_phase_header ls -> collectPhases ls = [].
Proof.
  intros H. unfold collectPhases. rewrite phase_skip by exact H.
  reflexivity.
Qed.

(** The two headers of the template open their phases. *)
Lemma step_acute phases cur :
  phase_step (phases, cur) acute_header
  = (close_phase phases cur,
     Some (Phase.mk (lit "Getting You Comfortable")
                   (lit "Acute Phase, 2-4 weeks") [] [])).
Proof. destruct cur; reflexivity. Qed.

Lemma step_maintenance phases cur :
  phase_step (phases, cur) maintenance_header
  = (close_phase phases cur,
     Some (Phase.mk (lit "Keeping You at Your Best")
                   (lit "Maintenance, Ongoing") [] [])).
Proof. destruct cur; reflexivity. Qed.

(** The dose line sets the dose of the open phase. *)
Lemma step_dose phases p :
  phase_step (phases, Some p) dose_line
  = (phases, Some (set_recommended p (lit "2x/week"))).
Proof. reflexivity. Qed.

(** Body text is appended, trimmed, to the content of the open phase. *)
Lemma step_text phases p l :
  text_line l ->
  phase_step (phases, Some p) l = (phases, Some (add_content p [trim l])).
Proof.
  intros (Hn & Hb & Hh & Hr). unfold phase_step.
  rewrite Hh, Hr, Hb.
  destruct (trim l); [congruence | reflexivity].
Qed.

Lemma add_content_app p a b :
  add_content (add_content p a) b = add_content p (a ++ b).
Proof. unfold add_content. cbn. rewrite app_assoc. reflexivity. Qed.

Lemma fold_text body :
  forall phases p,
  Forall text_line body ->
  fold_left phase_step body (phases, Some p)
  = (phases, Some (add_content p (map trim body))).
Proof.
  induction body as [|l t IH]; intros phases p H.
  - cbn. unfold add_content. rewrite app_nil_r. destruct p; reflexivity.
  - inversion H as [|? ? Hl Ht]; subst. cbn [fold_left map].
    rewrite (step_text _ _ Hl), IH by exact Ht.
    rewrite add_content_app. reflexivity.
Qed.

(** Blank lines change nothing. *)
Lemma fold_blank gap :
  forall st, Forall blank gap -> fold_left phase_step gap st = st.
Proof.
  induction gap as [|l t IH]; intros st H; [reflexivity|].
  inversion H as [|? ? Hl Ht]; subst. cbn [fold_left].
  rewrite <- (IH st Ht) at 2. f_equal.
  unfold phase_step, blank in *. rewrite Hl.
  destruct st as [phases [p|]]; reflexivity.
Qed.

End TreatmentFacts.

Module TreatmentClaims.
Import StrFacts TrimFacts TreatmentFacts.

Lemma dispatch_treatment sec :
  isOrphaned sec = false -> number sec = lit "5" ->
  includes (lit "Treatment Plan") (title sec) = true ->
  renderSection sec = renderTreatmentPlanSection sec.
Proof.
  intros Ho Hn Ht. unfold renderSection. rewrite Ho, Hn, Ht. reflexivity.
Qed.

(** C6, as stated, fails: body text that opens with two asterisks is left
    out of the paragraph, and body text that names a phase opens a card of
    its own.  Here the section has the two headers of the template, each
    followed by one line of body text and the dose line; the result is
    three cards, the first with an empty paragraph, the second without
    dose, the third made from the body text of the second phase. *)
Lemma phase_body_counterexample :
  collectPhases
    [ lit "**Getting You Comfortable** (Acute Phase, 2-4 weeks):";
      lit "**Note:** go gently at first.";
      lit "Recommended: 2x/week";
      lit "**Keeping You at Your Best** (Maintenance, Ongoing):";
      lit "Keeping You at Your Best means one session a month.";
      lit "Recommended: 2x/week" ]
  = [ Phase.mk (lit "Getting You Comfortable") (lit "Acute Phase, 2-4 weeks")
        [] (lit "2x/week");
      Phase.mk (lit "Keeping You at Your Best") (lit "Maintenance, Ongoing")
        [] [];
      Phase.mk (lit "Keeping You at Your Best means one session a month.")
        [] [] (lit "2x/week") ]
  /\ renderTreatmentPlanSection
       {| number := lit "5"; title := lit "Treatment Plan";
          description := [];
          lines :=
            [ lit "**Getting You Comfortable** (Acute Phase, 2-4 weeks):";
              lit "**Note:** go gently at first.";
              lit "Recommended: 2x/week";
              lit "**Keeping You at Your Best** (Maintenance, Ongoing):";
              lit "Keeping You at Your Best means one session a month.";
              lit "Recommended: 2x/week" ];
          isOrphaned := false |}
     = tpl "
    <section class=`section treatment-plan-section`>
      <h2><span class=`num`>5.</span> Treatment Plan</h2>
  
      <div class=`treatment-phase-card`>
        <div class=`treatment-phase-header`>
          <span class=`treatment-phase-title`>Getting You Comfortable</span>
          <span class=`treatment-phase-subtitle`>(Acute Phase, 2-4 weeks)</span>
        </div>
        <div class=`treatment-phase-content`>
          <p></p>
        </div>
        
        <div class=`treatment-phase-recommended`>
          <strong>Recommended:</strong> 2x/week
        </div>
        
      </div>
    
      <div class=`treatment-phase-card`>
        <div class=`treatment-phase-header`>
          <span class=`treatment-phase-title`>Keeping You at Your Best</span>
          <span class=`treatment-phase-subtitle`>(Maintenance, Ongoing)</span>
        </div>
        <div class=`treatment-phase-content`>
          <p></p>
        </div>
        
      </div>
    
      <div class=`treatment-phase-card`>
        <div class=`treatment-phase-header`>
          <span class=`treatment-phase-title`>Keeping You at Your Best means one session a month.</span>
          
        </div>
        <div class=`treatment-phase-content`>
          <p></p>
        </div>
        
        <div class=`treatment-phase-recommended`>
          <strong>Recommended:</strong> 2x/week
        </div>
        
      </div>
    
    </section>
  ".
Proof. vm_compute. split; reflexivity. Qed.

(** C6, amended: a Treatment Plan section with the two phase headers of the
    template, each followed by body text and the line
    [Recommended: 2x/week], renders as exactly two phase cards in the order
    of the headers, provided that every line of body text, trimmed, is not
    empty, does not open with two asterisks, names no phase and is no
    [Recommended:] line, that no line before the first header names a
    phase, and that only blank lines follow each dose line.  Each card has
    the text between the asterisks as title, the text in parentheses as
    subtitle, the escaped body lines joined with single spaces as its
    paragraph, and [2x/week] as recommended dose. *)
Theorem two_phase_cards (sec : section)
    (pre body1 gap1 body2 gap2 : list str) :
  lines sec = pre ++ acute_header :: body1 ++ dose_line :: gap1
              ++ maintenance_header :: body2 ++ dose_line :: gap2 ->
  Forall no_phase_header pre ->
  Forall text_line body1 -> Forall blank gap1 ->
  Forall text_line body2 -> Forall blank gap2 ->
  collectPhases (lines sec)
  = [ Phase.mk (lit "Getting You Comfortable") (lit "Acute Phase, 2-4 weeks")
              (map trim body1) (lit "2x/week");
      Phase.mk (lit "Keeping You at Your Best") (lit "Maintenance, Ongoing")
              (map trim body2) (lit "2x/week") ]
  /\ renderTreatmentPlanSection sec
     = tpl "
    <section class=`section treatment-plan-section`>
      <h2><span class=`num`>" ++ number sec ++ tpl ".</span> "
       ++ flat_map entity (strip_bold (title sec)) ++ tpl "</h2>
  "
       ++ full_card (lit "Getting You Comfortable")
            (lit "Acute Phase, 2-4 weeks")
            (flat_map entity
               (strip_bold (trim (join (lit " ") (map trim body1)))))
            (lit "2x/week")
       ++ full_card (lit "Keeping You at Your Best")
            (lit "Maintenance, Ongoing")
            (flat_map entity
               (strip_bold (trim (join (lit " ") (map trim body2)))))
            (lit "2x/week")
       ++ tpl "
    </section>
  ".
Proof.
  intros Hl Hpre Hb1 Hg1 Hb2 Hg2.
  assert (Hc : collectPhases (lines sec)
    = [ Phase.mk (lit "Getting You Comfortable") (lit "Acute Phase, 2-4 weeks")
                (map trim body1) (lit "2x/week");
        Phase.mk (lit "Keeping You at Your Best") (lit "Maintenance, Ongoing")
                (map trim body2) (lit "2x/week") ]).
  { rewrite Hl, collectPhases_skip by exact Hpre.
    unfold collectPhases. cbn [fold_left].
    rewrite step_acute, fold_left_app, (@fold_text body1 _ _ Hb1).
    cbn [fold_left].
    rewrite step_dose, fold_left_app, (@fold_blank gap1 _ Hg1).
    cbn [fold_left].
    rewrite step_maintenance, fold_left_app, (@fold_text body2 _ _ Hb2).
    cbn [fold_left]. rewrite step_dose, (@fold_blank gap2 _ Hg2).
    reflexivity. }
  split; [exact Hc|].
  rewrite <- !EscFacts.escapeHtml_spec.
  transitivity
    (treatmentHeading sec
     ++ full_card (lit "Getting You Comfortable")
          (lit "Acute Phase, 2-4 weeks")
          (escapeHtml (trim (join (lit " ") (map trim body1))))
          (lit "2x/week")
     ++ full_card (lit "Keeping You at Your Best")
          (lit "Maintenance, Ongoing")
          (escapeHtml (trim (join (lit " ") (map trim body2))))
          (lit "2x/week")
     ++ treatmentClose);
    [ | unfold treatmentHeading, numbered_heading, treatmentClose;
        rewrite <- !app_assoc; reflexivity ].
  unfold renderTreatmentPlanSection. rewrite Hc.
  cbn [map concat]. rewrite app_nil_r.
  unfold phaseCard, full_card.
  cbn [Phase.title Phase.subtitle Phase.content Phase.recommended].
  assert (E1 : escapeHtml (lit "Getting You Comfortable")
               = lit "Getting You Comfortable") by (vm_compute; reflexivity).
  assert (E2 : escapeHtml (lit "Acute Phase, 2-4 weeks")
               = lit "Acute Phase, 2-4 weeks") by (vm_compute; reflexivity).
  assert (E3 : escapeHtml (lit "Keeping You at Your Best")
               = lit "Keeping You at Your Best") by (vm_compute; reflexivity).
  assert (E4 : escapeHtml (lit "Maintenance, Ongoing")
               = lit "Maintenance, Ongoing") by (vm_compute; reflexivity).
  assert (E5 : escapeHtml (lit "2x/week") = lit "2x/week")
    by (vm_compute; reflexivity).
  rewrite E1, E2, E3, E4, E5.
  cbn [truthy lit map list_ascii_of_string].
  rewrite <- !app_assoc. reflexivity.
Qed.

Lemma two_phase_cards_witness :
  collectPhases (lines sample_plan)
  = [ Phase.mk (lit "Getting You Comfortable") (lit "Acute Phase, 2-4 weeks")
        [ lit "We start with gentle work on the upper traps.";
          lit "You should notice easier turning within two weeks." ]
        (lit "2x/week");
      Phase.mk (lit "Keeping You at Your Best") (lit "Maintenance, Ongoing")
        [ lit "Regular sessions keep desk tension from building up." ]
        (lit "2x/week") ].
Proof.
  refine (proj1 (@two_phase_cards sample_plan
    [lit "Use EXACTLY this format with two phases:"; lit ""]
    [lit "We start with gentle work on the upper traps.";
     lit "  You should notice easier turning within two weeks.  "]
    [lit ""]
    [lit "Regular sessions keep desk tension from building up."]
    [lit ""] eq_refl _ _ _ _ _));
  repeat (constructor;
          [ first [ reflexivity
                  | repeat split; [vm_compute; discriminate | reflexivity ..] ]
          | ]);
  constructor.
Defined.

(** C10: in a section that goes to the Treatment Plan renderer, the lines
    before the first phase header, the inline description among them, add
    nothing to the output; without any phase header the output is the
    heading and no card. *)
Theorem lines_before_first_phase (sec : section) (pre rest : list str) :
  isOrphaned sec = false ->
  number sec = lit "5" ->
  includes (lit "Treatment Plan") (title sec) = true ->
  lines sec = pre ++ rest ->
  Forall no_phase_header pre ->
  renderSection sec
  = treatmentHeading sec ++ concat (map phaseCard (collectPhases rest))
    ++ treatmentClose
  /\ renderSection sec = renderSection (with_lines sec rest)
  /\ (Forall no_phase_header rest ->
      collectPhases (lines sec) = []
      /\ renderSection sec = treatmentHeading sec ++ treatmentClose).
Proof.
  intros Ho Hn Ht Hl Hpre.
  rewrite (dispatch_treatment sec Ho Hn Ht).
  rewrite (dispatch_treatment (with_lines sec rest) Ho Hn Ht).
  unfold renderTreatmentPlanSection.
  rewrite Hl, collectPhases_skip by exact Hpre.
  split; [reflexivity|]. split; [reflexivity|].
  intros Hr. rewrite (collectPhases_none Hr). split; reflexivity.
Qed.

Lemma lines_before_first_phase_witness :
  renderSection sample_plan
  = renderSection
      (with_lines sample_plan
         (skipn 2 (lines sample_plan))).
Proof.
  refine (proj1 (proj2 (@lines_before_first_phase sample_plan
    [lit "Use EXACTLY this format with two phases:"; lit ""]
    (skipn 2 (lines sample_plan)) eq_refl eq_refl eq_refl eq_refl _))).
  repeat (constructor; [reflexivity|]). constructor.
Defined.

End TreatmentClaims.

(* ===================================================================== *)
(** * The document *)
(* ===================================================================== *)

Module DocFacts.
Import StrFacts TrimFacts ReFacts EscFacts ParseFacts.

Lemma numbered_heading_split sec :
  numbered_heading sec
  = (tpl "<h2><span class=`num`>" ++ number sec ++ tpl ".</span> ")
    ++ escapeHtml (title sec) ++ tpl "</h2>".
Proof. unfold numbered_heading. rewrite <- !app_assoc. reflexivity. Qed.

(** Every renderer writes the escaped title, closed by the end of the
    heading. *)
Lemma renderSection_title sec :
  exists a b,
    renderSection sec = a ++ escapeHtml (title sec) ++ tpl "</h2>" ++ b.
Proof.
  unfold renderSection.
  destruct (isOrphaned sec).
  { unfold renderOrphaned.
    exists (tpl "
        <section class=`section orphaned-section`>
          <h2>").
    exists (tpl "
          " ++ join [newline] (collectItems (lines sec)) ++ tpl "
        </section>
      ").
    do 2 apply f_equal. reflexivity. }
  assert (H : forall x y,
            exists a b, x ++ numbered_heading sec ++ y
                        = a ++ escapeHtml (title sec) ++ tpl "</h2>" ++ b).
  { intros x y. rewrite numbered_heading_split.
    exists (x ++ tpl "<h2><span class=`num`>" ++ number sec
              ++ tpl ".</span> "), y.
    rewrite <- !app_assoc. reflexivity. }
  destruct (_ && _).
  { unfold renderTreatmentPlanSection, treatmentHeading.
    rewrite <- !app_assoc. apply H. }
  destruct (_ && _).
  { unfold renderGoalsSection, renderListSection.
    destruct (3 <=? _); apply H. }
  destruct (_ && _).
  { unfold renderKeyActionsSection, renderListSection.
    destruct (3 <=? _); apply H. }
  unfold renderGeneric. apply H.
Qed.

Lemma renderSection_truthy sec : truthy (renderSection sec) = true.
Proof.
  unfold renderSection.
  destruct (isOrphaned sec); [reflexivity|].
  destruct (_ && _); [reflexivity|].
  destruct (_ && _).
  { unfold renderGoalsSection, renderListSection.
    destruct (3 <=? _); reflexivity. }
  destruct (_ && _).
  { unfold renderKeyActionsSection, renderListSection.
    destruct (3 <=? _); reflexivity. }
  reflexivity.
Qed.

Lemma join_cons sep (x : str) t :
  exists r, join sep (x :: t) = x ++ r.
Proof.
  destruct t; [exists []; cbn; rewrite app_nil_r | eexists]; reflexivity.
Qed.

Lemma join_In sep (x : str) l :
  In x l -> exists a b, join sep l = a ++ x ++ b.
Proof.
  induction l as [|y t IH]; [intros []|].
  intros [->|Hin].
  - destruct (join_cons sep x t) as [r ->]. exists [], r. reflexivity.
  - destruct (IH Hin) as (a & b & E).
    destruct t as [|z t']; [destruct Hin|].
    change (join sep (y :: z :: t')) with (y ++ sep ++ join sep (z :: t')).
    rewrite E. exists (y ++ sep ++ a), b. rewrite <- !app_assoc. reflexivity.
Qed.

Lemma truthy_app_l (a b : str) : truthy a = true -> truthy (a ++ b) = true.
Proof. destruct a; [discriminate | reflexivity]. Qed.

(** With a section, the main element holds the sections. *)
Lemma mainHtml_sections planText :
  parsePlanText planText <> [] -> mainHtml planText = sectionHtml planText.
Proof.
  intros H. unfold mainHtml, sectionHtml.
  destruct (parsePlanText planText) as [|s t]; [congruence|].
  cbn [map]. destruct (join_cons [newline] (renderSection s)
                         (map renderSection t)) as [r ->].
  rewrite truthy_app_l by apply renderSection_truthy. reflexivity.
Qed.


(** The page shows the escaped title of every section. *)
Lemma document_title e planText patientName therapistName sec :
  In sec (parsePlanText planText) ->
  exists before after,
    renderStructuredHtml e planText patientName therapistName
    = before ++ escapeHtml (title sec) ++ tpl "</h2>" ++ after.
Proof.
  intros Hin. unfold renderStructuredHtml.
  rewrite mainHtml_sections by (intros E; rewrite E in Hin; destruct Hin).
  unfold sectionHtml.
  destruct (@join_In [newline] (renderSection sec)
              (map renderSection (parsePlanText planText))
              (in_map _ _ _ Hin)) as (a & b & ->).
  destruct (renderSection_title sec) as (x & y & ->).
  exists (pageTop e patientName therapistName ++ a ++ x),
         (y ++ b ++ pageBottom e).
  rewrite <- !app_assoc. reflexivity.
Qed.

End DocFacts.

Module DocClaims.
Import StrFacts TrimFacts ReFacts EscFacts ParseFacts DocFacts.

(** A title that already holds the text of an entity is escaped like any
    other text: the page shows the single escape of [Q&amp;A], in which the
    ampersand is written as an entity once more. *)
Lemma double_escape_counterexample :
  map title (parsePlanText (lit "1. Q&amp;A: x")) = [lit "Q&amp;A"]
  /\ includes (lit "&") (lit "Q&amp;A") = true
  /\ includes (lit "&amp;amp;")
       (renderStructuredHtml sample_env (lit "1. Q&amp;A: x") [] []) = true.
Proof. vm_compute. repeat split. Qed.

(** [escapeHtml] first strips the bold markers and then writes [&amp;]
    for every ampersand, [&lt;] for [<] and [&gt;] for [>]; its result
    holds no bold marker.  The page shows the title of every section
    escaped exactly once, and a doubly escaped ampersand appears in it only
    when the title, once stripped, itself holds the text [&amp;]. *)
Theorem escaping_once (e : env)
    (planText patientName therapistName : str) (sec : section) :
  In sec (parsePlanText planText) ->
  (forall text,
     escapeHtml text = flat_map entity (strip_bold text)
     /\ includes (lit "**") (escapeHtml text) = false)
  /\ (exists before after,
        renderStructuredHtml e planText patientName therapistName
        = before ++ escapeHtml (title sec) ++ tpl "</h2>" ++ after)
  /\ (includes (lit "&amp;") (strip_bold (title sec)) = false ->
      includes (lit "&amp;amp;") (escapeHtml (title sec)) = false).
Proof.
  intros Hin. split; [|split].
  - intros text. split; [apply escapeHtml_spec | apply escapeHtml_no_bold].
  - apply document_title. exact Hin.
  - intros H. rewrite escapeHtml_spec.
    destruct (includes (lit "&amp;amp;")
                (flat_map entity (strip_bold (title sec)))) eqn:E;
      [|reflexivity].
    apply double_amp_origin in E. congruence.
Qed.

Lemma escaping_once_witness :
  includes (lit "&amp;amp;")
    (escapeHtml (lit "Rest & **Recovery** <daily>")) = false
  /\ escapeHtml (lit "Rest & **Recovery** <daily>")
     = lit "Rest &amp; Recovery &lt;daily&gt;".
Proof.
  assert (Hin : In (mkSection (lit "1") (lit "Rest & **Recovery** <daily>")
                              (lit "x") [lit "x"] false)
                   (parsePlanText (lit "1. Rest & **Recovery** <daily>: x")))
    by (vm_compute; left; reflexivity).
  destruct (@escaping_once sample_env
              (lit "1. Rest & **Recovery** <daily>: x") [] [] _ Hin)
    as (H1 & _ & H3).
  split.
  - apply H3. vm_compute. reflexivity.
  - rewrite (proj1 (H1 _)). vm_compute. reflexivity.
Defined.

(** C2: one leaf string of the page is not escaped at all.  For every
    input the page opens with the head of the template up to the [<title>]
    element, which holds the patient's name as it was received ([Patient]
    when there is none).  For the name [<b>Al</b>] the title holds the
    markup itself, while the patient line of the header, a few lines
    further down the same template, holds the escaped name
    [&lt;b&gt;Al&lt;/b&gt;]. *)
Theorem patient_name_in_title :
  (forall (e : env) (planText patientName therapistName : str),
     exists rest,
       renderStructuredHtml e planText patientName therapistName
       = tpl "<!doctype html>
<html>
  <head>
    <meta charset=`utf-8` />
    <meta name=`viewport` content=`width=device-width, initial-scale=1` />
    <title>Gold Coast Physio & Sports Health - Massage Treatment Plan for "
         ++ match patientName with
            | [] => lit "Patient"
            | _ :: _ => patientName
            end
         ++ tpl "</title>" ++ rest)
  /\ escapeHtml (lit "<b>Al</b>") = lit "&lt;b&gt;Al&lt;/b&gt;"
  /\ includes
       (lit "<title>Gold Coast Physio & Sports Health - Massage Treatment Plan for <b>Al</b></title>")
       (renderStructuredHtml sample_env (lit "1. Plan: rest")
          (lit "<b>Al</b>") [])
     = true
  /\ includes
       (tpl "<div class=`patient-info`>Patient: &lt;b&gt;Al&lt;/b&gt; | Date: ")
       (renderStructuredHtml sample_env (lit "1. Plan: rest")
          (lit "<b>Al</b>") [])
     = true
  /\ includes (lit "&lt;b&gt;Al&lt;/b&gt;</title>")
       (renderStructuredHtml sample_env (lit "1. Plan: rest")
          (lit "<b>Al</b>") [])
     = false.
Proof.
  split; [|vm_compute; repeat split].
  intros e planText patientName therapistName.
  unfold renderStructuredHtml, pageTop.
  change (tpl "</title>
") with (tpl "</title>" ++ [newline]).
  rewrite <- !app_assoc.
  exists ([newline] ++ headStatic e ++ tpl "
  </head>
  <body>
    <div class=`page`>
      <header>
        <img src=`https://www.mygcphysio.com.au/wp-content/uploads/2024/09/GCPSH-Colour-500px.png` alt=`Gold Coast Physio & Sports Health` />
        <div class=`title`>
          <h1>Massage Treatment Plan</h1>
          " ++ patientInfo e patientName therapistName ++ tpl "
        </div>
        " ++ qrCodeHtml e therapistName ++ tpl "
      </header>
      <main>
        " ++ mainHtml planText ++ pageBottom e).
  destruct patientName; reflexivity.
Qed.



End DocClaims.

(* ===================================================================== *)
(** * Examples *)
(* ===================================================================== *)

Module Examples.

(** A number of two digits opens no section. *)
Example two_digits_no_header : exec header_re (lit "12. Twelve: x") = None.
Proof. reflexivity. Qed.

Example two_digits_orphaned :
  map (fun sec => (number sec, lines sec))
      (parsePlanText (lit "12. Twelve: x"))
  = [(lit "0", [lit "12. Twelve: x"])].
Proof. vm_compute. reflexivity. Qed.

(** A colon that comes first is no separator. *)
Example leading_colon :
  map (fun sec => (title sec, description sec)) (parsePlanText (lit "1. :x"))
  = [(lit ":x", [])].
Proof. vm_compute. reflexivity. Qed.

Example intro_phrases :
  map isIntroPhrase
    [ lit "Here is your personalized treatment plan:";
      lit "  HERE'S YOUR PLAN.  ";
      lit "Below is your massage plan";
      lit "I have created a personalized treatment plan for you today";
      lit "Based on your case note, we begin gently.";
      lit "Your plan for the week ahead" ]
  = [true; true; true; true; true; false].
Proof. vm_compute. reflexivity. Qed.

Example escape_all :
  escapeHtml (lit "***Tom & Jerry** <b>5 > 3</b>*")
  = lit "*Tom &amp; Jerry &lt;b&gt;5 &gt; 3&lt;/b&gt;*".
Proof. vm_compute. reflexivity. Qed.

(** A run of bullet lines becomes one list, flushed by the next
    paragraph. *)
Example generic_items :
  collectItems [ lit "Intro"; lit "- one"; bullet_dot :: lit " two"; lit "";
                 lit "* three"; lit "Outro"; lit "-not a bullet" ]
  = [ tpl "<p>Intro</p>";
      tpl "<ul><li>one</li><li>two</li><li>three</li></ul>";
      tpl "<p>Outro</p>"; tpl "<p>-not a bullet</p>" ].
Proof. vm_compute. reflexivity. Qed.

(** A phase header without parentheses keeps its text as title. *)
Example header_without_subtitle :
  collectPhases [lit "**Getting You Comfortable**"; lit "Gentle work."]
  = [ Phase.mk (lit "Getting You Comfortable") [] [lit "Gentle work."] [] ].
Proof. vm_compute. reflexivity. Qed.

(** The empty list of the degraded Goals section. *)
Example no_usable_fragment : listItems [lit ", ."; lit "*note"] = [].
Proof. vm_compute. reflexivity. Qed.

End Examples.

(* ===================================================================== *)
(** * Further properties of [escapeHtml] *)
(* ===================================================================== *)

Module EscapeProps.
Import StrFacts ReFacts EscFacts.

Lemma entity_no_angle c : existsb angle (entity c) = false.
Proof.
  destruct (special c) eqn:Ec.
  - destruct (special_cases _ Ec) as [-> | [-> | ->]]; reflexivity.
  - rewrite (entity_plain _ Ec). cbn [existsb]. rewrite orb_false_r.
    unfold special in Ec. apply orb_false_iff in Ec as [Ec E3].
    apply orb_false_iff in Ec as [_ E2]. unfold angle. rewrite E2, E3.
    reflexivity.
Qed.

(** X1: whatever the text, [escapeHtml] returns a text without the code
    units [<] and [>]. *)
Theorem escapeHtml_no_angle (text : str) :
  existsb angle (escapeHtml text) = false.
Proof.
  rewrite escapeHtml_spec.
  induction (strip_bold text) as [|c x IH]; [reflexivity|].
  cbn [flat_map]. rewrite existsb_app, entity_no_angle, IH. reflexivity.
Qed.

Lemma entity_length c : 1 <= length (entity c).
Proof.
  destruct (special c) eqn:Ec.
  - destruct (special_cases _ Ec) as [-> | [-> | ->]]; cbn; lia.
  - rewrite (entity_plain _ Ec). cbn. lia.
Qed.

Lemma entities_length x : length x <= length (flat_map entity x).
Proof.
  induction x as [|c x IH]; [reflexivity|].
  cbn [flat_map]. rewrite length_app. pose proof (entity_length c).
  cbn [length]. lia.
Qed.

Lemma entities_plain x :
  existsb special x = false -> flat_map entity x = x.
Proof.
  induction x as [|c x IH]; [reflexivity|].
  cbn [existsb flat_map]. intros H. apply orb_false_iff in H as [Hc Hx].
  rewrite (entity_plain _ Hc), IH by exact Hx. reflexivity.
Qed.

Lemma entities_fixed x :
  flat_map entity x = x -> existsb special x = false.
Proof.
  induction x as [|c x IH]; [reflexivity|].
  cbn [existsb flat_map]. intros H.
  destruct (special c) eqn:Ec.
  - exfalso. pose proof (entities_length x) as L.
    apply (f_equal (@length _)) in H. rewrite length_app in H.
    cbn [length] in H.
    destruct (special_cases _ Ec) as [-> | [-> | ->]]; cbn in H; lia.
  - rewrite (entity_plain _ Ec) in H. cbn [app] in H.
    injection H as H. rewrite (IH H). reflexivity.
Qed.

Lemma strip_bold_fixed s :
  includes (lit "**") s = false -> strip_bold s = s.
Proof.
  induction s as [|c s IH]; [reflexivity|].
  intros H.
  change (startsWith (lit "**") (c :: s) || includes (lit "**") s = false) in H.
  apply orb_false_iff in H as [H1 H2].
  destruct s as [|d u]; [reflexivity|].
  rewrite strip_bold_cons2.
  replace ((42 =? c)%N && (42 =? d)%N) with false.
  - rewrite (IH H2). reflexivity.
  - symmetry. cbn -[N.eqb] in H1. rewrite andb_true_r in H1. exact H1.
Qed.

(** X2: [escapeHtml] returns its argument unchanged exactly when the text
    holds none of [&], [<], [>] and no bold marker [**]. *)
Theorem escapeHtml_fixed (text : str) :
  escapeHtml text = text
  <-> existsb special text = false /\ includes (lit "**") text = false.
Proof.
  split.
  - intros H.
    assert (Hb : includes (lit "**") text = false).
    { rewrite <- H. apply escapeHtml_no_bold. }
    split; [|exact Hb].
    rewrite escapeHtml_spec, (strip_bold_fixed _ Hb) in H.
    apply entities_fixed. exact H.
  - intros [Hs Hb].
    rewrite escapeHtml_spec, (strip_bold_fixed _ Hb). apply entities_plain.
    exact Hs.
Qed.

Lemma entity_cons c : exists a r, entity c = a :: r.
Proof.
  destruct (special c) eqn:Ec.
  - destruct (entity_special _ Ec) as [r ->]. eauto.
  - rewrite (entity_plain _ Ec). eauto.
Qed.

(** The entities are a prefix code: the text can be read back from its
    escaped form. *)
Lemma entities_injective x :
  forall y, flat_map entity x = flat_map entity y -> x = y.
Proof.
  induction x as [|c x IH]; intros [|d y] H.
  - reflexivity.
  - exfalso. cbn [flat_map] in H. destruct (entity_cons d) as (a & r & E).
    rewrite E in H. discriminate.
  - exfalso. cbn [flat_map] in H. destruct (entity_cons c) as (a & r & E).
    rewrite E in H. discriminate.
  - cbn [flat_map] in H.
    destruct (special c) eqn:Ec, (special d) eqn:Ed.
    + destruct (special_cases _ Ec) as [-> | [-> | ->]];
        destruct (special_cases _ Ed) as [-> | [-> | ->]];
        cbn in H; try discriminate;
        (f_equal; apply IH; congruence).
    + exfalso. rewrite (entity_plain _ Ed) in H.
      destruct (entity_special _ Ec) as [r E]. rewrite E in H.
      cbn [app] in H. injection H as H _. subst d. discriminate.
    + exfalso. rewrite (entity_plain _ Ec) in H.
      destruct (entity_special _ Ed) as [r E]. rewrite E in H.
      cbn [app] in H. injection H as H _. subst c. discriminate.
    + rewrite (entity_plain _ Ec), (entity_plain _ Ed) in H. cbn [app] in H.
      injection H as -> H. f_equal. apply IH. exact H.
Qed.

(** X3: two texts have the same escaped form exactly when they are the
    same once their bold markers are removed (the first of the four
    replacements): the three entity replacements lose nothing. *)
Theorem escapeHtml_same (a b : str) :
  escapeHtml a = escapeHtml b
  <-> replaceAll (word (lit "**")) [] a = replaceAll (word (lit "**")) [] b.
Proof.
  rewrite !escapeHtml_spec, !replaceAll_bold. split.
  - apply entities_injective.
  - intros ->. reflexivity.
Qed.

(** ** Escaping a joined text *)

(** No bold marker is made of the last unit of [a] and the first of
    [b]. *)
Lemma strip_bold_app_n n :
  forall (a b : str),
    length a <= n ->
    (last a 0 <> 42 \/ hd 0 b <> 42)%N ->
    strip_bold (a ++ b) = strip_bold a ++ strip_bold b.
Proof.
  induction n as [|n IH]; intros a b Hn Hs.
  - destruct a; [reflexivity | cbn in Hn; lia].
  - destruct a as [|c [|d u]]; [reflexivity | |].
    + destruct b as [|e v]; [reflexivity|].
      cbn [app]. rewrite strip_bold_cons2.
      replace ((42 =? c)%N && (42 =? e)%N) with false; [reflexivity|].
      symmetry. apply andb_false_iff.
      cbn [last hd] in Hs. destruct Hs as [H|H]; [left | right];
        apply N.eqb_neq; congruence.
    + cbn [app]. rewrite !strip_bold_cons2.
      destruct ((42 =? c)%N && (42 =? d)%N).
      * apply IH; [cbn [length] in Hn; lia|].
        destruct u as [|x y]; [left; cbn; discriminate|].
        exact Hs.
      * cbn [app]. f_equal.
        change (d :: u ++ b) with ((d :: u) ++ b).
        apply IH; [cbn [length] in *; lia | exact Hs].
Qed.

Lemma escapeHtml_app (a b : str) :
  (last a 0 <> 42 \/ hd 0 b <> 42)%N ->
  escapeHtml (a ++ b) = escapeHtml a ++ escapeHtml b.
Proof.
  intros H. rewrite !escapeHtml_spec.
  rewrite (@strip_bold_app_n (length a) a b (le_n _) H).
  apply flat_map_app.
Qed.

Lemma last_app_ne (a sep : str) :
  sep <> [] -> last (a ++ sep) 0%N = last sep 0%N.
Proof.
  intros H. induction a as [|c t IH]; [reflexivity|].
  cbn [app]. destruct (t ++ sep) eqn:E.
  - destruct t, sep; try discriminate; congruence.
  - cbn [last]. exact IH.
Qed.

Lemma last_default (s : str) (x y : char) : s <> [] -> last s x = last s y.
Proof.
  induction s as [|c t IH]; [congruence|]. intros _.
  destruct t as [|d u]; [reflexivity|]. apply IH. discriminate.
Qed.

(** Escaping the pieces of a joined text, the separator between any two
    of them neither starting nor ending with an asterisk. *)
Lemma escaped_pieces (sep : str) (ls : list str) :
  (hd 42 sep <> 42)%N -> (last sep 42 <> 42)%N ->
  flat_map entity (strip_bold (join sep ls))
  = join (flat_map entity (strip_bold sep))
         (map (fun l => flat_map entity (strip_bold l)) ls).
Proof.
  intros Hh Hl.
  assert (Hne : sep <> []) by (intros ->; cbn in Hh; congruence).
  assert (Hh0 : forall r, (hd 0 (sep ++ r) <> 42)%N).
  { destruct sep as [|c t]; [congruence|]. exact (fun _ => Hh). }
  assert (Hl0 : (last sep 0 <> 42)%N).
  { rewrite (@last_default sep 0%N 42%N Hne). exact Hl. }
  induction ls as [|a [|b t] IH]; [reflexivity | reflexivity|].
  change (join sep (a :: b :: t)) with (a ++ sep ++ join sep (b :: t)).
  cbn [map] in *.
  match goal with
  | |- _ = join ?s (?x :: ?y :: ?z) =>
      change (join s (x :: y :: z)) with (x ++ s ++ join s (y :: z))
  end.
  rewrite <- IH, <- !escapeHtml_spec.
  rewrite escapeHtml_app by (right; apply Hh0).
  f_equal. apply escapeHtml_app. left. exact Hl0.
Qed.

(** X4: escaping a text joined from pieces is joining the escaped pieces,
    when the separator neither starts nor ends with an asterisk (a single
    space, a newline): no bold marker forms across two pieces. *)
Theorem escape_join (sep : str) (ls : list str) :
  (hd 42 sep <> 42)%N -> (last sep 42 <> 42)%N ->
  escapeHtml (join sep ls) = join (escapeHtml sep) (map escapeHtml ls).
Proof.
  intros Hh Hl.
  rewrite (map_ext _ _ escapeHtml_spec), !escapeHtml_spec.
  apply escaped_pieces; assumption.
Qed.

Lemma escape_join_witness :
  escapeHtml (join (lit " ") [lit "Tom & Jerry*"; lit "*<b>"])
  = join (lit " ") [lit "Tom &amp; Jerry*"; lit "*&lt;b&gt;"].
Proof.
  rewrite (@escape_join (lit " ") [lit "Tom & Jerry*"; lit "*<b>"]).
  - vm_compute. reflexivity.
  - vm_compute. discriminate.
  - vm_compute. discriminate.
Defined.

End EscapeProps.

(* ===================================================================== *)
(** * Intro phrases and the case of letters *)
(* ===================================================================== *)

Module IntroProps.
Import StrFacts TrimFacts ReFacts.

Section Mapped.
Variable f : char -> char.

Lemma star_loop_map (body body' : cont -> cont) :
  (forall k k' s s',
      same_place f s s' ->
      (forall t t', same_place f t t' -> matched (k t) = matched (k' t')) ->
      matched (body k s) = matched (body' k' s')) ->
  forall fuel k k' s s',
    same_place f s s' ->
    (forall t t', same_place f t t' -> matched (k t) = matched (k' t')) ->
    matched (star_loop body k fuel s) = matched (star_loop body' k' fuel s').
Proof.
  intros Hb. induction fuel as [|n IH]; intros k k' s s' Hs Hk.
  - apply Hk, Hs.
  - cbn [star_loop].
    assert (E : matched
                  (body (fun s1 => if pos s <? pos s1
                                   then star_loop body k n s1 else None) s)
                = matched
                    (body' (fun s1 => if pos s' <? pos s1
                                      then star_loop body' k' n s1 else None) s')).
    { apply Hb; [exact Hs|]. intros t t' Ht.
      destruct Hs as [Hp _]. destruct Ht as [Hq Hr]. rewrite Hp, Hq.
      destruct (pos s <? pos t); [|reflexivity].
      apply IH; [split; assumption | exact Hk]. }
    destruct (body _ s), (body' _ s'); try discriminate; [reflexivity|].
    apply Hk, Hs.
Qed.

(** A pattern whose classes do not tell [c] from [f c] matches a text
    exactly when it matches the text under [f]. *)
Lemma rmatch_map r :
  cls_respect f r ->
  forall k k' s s',
    same_place f s s' ->
    (forall t t', same_place f t t' -> matched (k t) = matched (k' t')) ->
    matched (rmatch r k s) = matched (rmatch r k' s').
Proof.
  induction r as [|p|r1 IH1 r2 IH2|r1 IH1 r2 IH2|r1 IH1|i r1 IH1| |];
    intros Hr k k' s s' Hs Hk; cbn [rmatch cls_respect] in *.
  - apply Hk, Hs.
  - destruct Hs as [Hp Hq]. rewrite Hq.
    destruct (rest s) as [|c t]; [reflexivity|]. cbn [map]. rewrite Hr.
    destruct (p c); [|reflexivity].
    apply Hk. split; cbn; [rewrite Hp|]; reflexivity.
  - destruct Hr as [H1 H2]. apply IH1; [exact H1 | exact Hs|].
    intros t t' Ht. apply IH2; assumption.
  - destruct Hr as [H1 H2].
    pose proof (IH1 H1 k k' s s' Hs Hk) as E.
    destruct (rmatch r1 k s), (rmatch r1 k' s'); try discriminate;
      [reflexivity|].
    apply IH2; assumption.
  - assert (L : length (rest s') = length (rest s)).
    { destruct Hs as [_ ->]. apply length_map. }
    rewrite L. apply star_loop_map; [|exact Hs | exact Hk].
    intros. apply IH1; assumption.
  - apply IH1; [exact Hr | exact Hs|].
    intros t t' [Hp Hq]. apply Hk. split; cbn; assumption.
  - destruct Hs as [Hp Hq]. rewrite Hp.
    destruct (pos s =? 0); [apply Hk; split; assumption | reflexivity].
  - pose proof Hs as [Hp Hq]. rewrite Hq.
    destruct (rest s); [apply Hk; exact Hs | reflexivity].
Qed.

Lemma search_from_map r :
  cls_respect f r ->
  forall s p,
    matched (search_from r p (map f s)) = matched (search_from r p s).
Proof.
  intros Hr. induction s as [|c t IH]; intros p; cbn [search_from map].
  - assert (E := @rmatch_map r Hr Some Some (MState p [] []) (MState p [] [])).
    cbn in E. specialize (E (conj eq_refl eq_refl) (fun _ _ _ => eq_refl)).
    destruct (rmatch r Some (MState p [] [])); reflexivity.
  - assert (E := @rmatch_map r Hr Some Some (MState p (c :: t) [])
                    (MState p (f c :: map f t) [])
                    (conj eq_refl eq_refl) (fun _ _ _ => eq_refl)).
    destruct (rmatch r Some (MState p (c :: t) [])),
      (rmatch r Some (MState p (f c :: map f t) [])); try discriminate;
      [reflexivity|].
    apply IH.
Qed.

Lemma test_map r s : cls_respect f r -> test r (map f s) = test r s.
Proof.
  intros Hr. unfold test, exec.
  pose proof (@search_from_map r Hr s 0) as E.
  destruct (search_from r 0 (map f s)), (search_from r 0 s);
    try discriminate; reflexivity.
Qed.

Lemma cls_respect_seqs l : Forall (cls_respect f) l -> cls_respect f (seqs l).
Proof.
  induction 1 as [|r l Hr Hl IH]; [exact I|].
  destruct l as [|r' l']; [exact Hr|]. split; [exact Hr | exact IH].
Qed.

Lemma cls_respect_alts l : Forall (cls_respect f) l -> cls_respect f (alts l).
Proof.
  induction 1 as [|r l Hr Hl IH]; [intros c; reflexivity|].
  destruct l as [|r' l']; [exact Hr|]. split; [exact Hr | exact IH].
Qed.

(** From here on [f] changes at most the case of ASCII letters. *)
Hypothesis keeps : forall c, canon (f c) = canon c.

Lemma letter_not_ws c : (65 <= c <= 122)%N -> is_ws c = false.
Proof.
  intros H. unfold is_ws. cbn [existsb].
  repeat (rewrite (proj2 (N.eqb_neq c _)) by lia).
  rewrite (proj2 (N.leb_gt 8192 c)) by lia. reflexivity.
Qed.

Lemma keeps_cases c :
  f c = c \/ ((65 <= c <= 122)%N /\ (65 <= f c <= 122)%N).
Proof.
  pose proof (keeps c) as H. unfold canon in H.
  destruct (N.leb_spec 97 (f c)), (N.leb_spec (f c) 122),
    (N.leb_spec 97 c), (N.leb_spec c 122); cbn [andb] in H; lia.
Qed.

Lemma keeps_ws c : is_ws (f c) = is_ws c.
Proof.
  destruct (keeps_cases c) as [-> | [H1 H2]]; [reflexivity|].
  rewrite !letter_not_ws by assumption. reflexivity.
Qed.

Lemma dropWhile_map_ws s :
  dropWhile is_ws (map f s) = map f (dropWhile is_ws s).
Proof.
  induction s as [|c t IH]; [reflexivity|].
  cbn [map dropWhile]. rewrite keeps_ws.
  destruct (is_ws c); [exact IH | reflexivity].
Qed.

Lemma trim_map s : trim (map f s) = map f (trim s).
Proof.
  unfold trim, trimEnd, trimStart, dropWhileEnd.
  rewrite dropWhile_map_ws, <- map_rev, dropWhile_map_ws, map_rev.
  reflexivity.
Qed.

Lemma cls_respect_word_i w : cls_respect f (word_i w).
Proof.
  unfold word_i. apply cls_respect_seqs.
  induction w as [|a w IH]; constructor; [|exact IH].
  intros c. cbn beta. rewrite keeps. reflexivity.
Qed.

Lemma cls_respect_chr_i a : cls_respect f (chr_i a).
Proof. intros c. cbn beta. rewrite keeps. reflexivity. Qed.

Lemma cls_respect_ws : cls_respect f ws.
Proof. exact keeps_ws. Qed.

Ltac respect :=
  repeat first
    [ apply cls_respect_word_i | apply cls_respect_chr_i
    | apply cls_respect_ws | exact I
    | apply cls_respect_seqs | apply cls_respect_alts
    | apply Forall_cons | apply Forall_nil
    | match goal with
      | |- cls_respect _ (Alt _ _) => split
      | |- cls_respect _ (Seq _ _) => split
      | |- cls_respect _ (Plus _) => split
      | |- cls_respect _ (Opt _) => split
      | |- cls_respect _ (Star _) => change (cls_respect f ws)
      | |- cls_respect _ (Group _ ?r) => change (cls_respect f r)
      end ].

Lemma intro_patterns_respect : Forall (cls_respect f) INTRO_PHRASE_PATTERNS.
Proof.
  unfold INTRO_PHRASE_PATTERNS, plan_tail, opt_word, opt_kind. cbn [app].
  respect.
Qed.

End Mapped.

(** X5: [isIntroPhrase] does not look at the case of ASCII letters: a
    line and the line with some of its letters in the other case get the
    same answer. *)
Theorem isIntroPhrase_case (f : char -> char) (line : str) :
  (forall c, canon (f c) = canon c) ->
  isIntroPhrase (map f line) = isIntroPhrase line.
Proof.
  intros keeps. unfold isIntroPhrase. rewrite (@trim_map f keeps).
  pose proof (@intro_patterns_respect f keeps) as H.
  induction H as [|r l Hr Hl IH]; [reflexivity|].
  cbn [existsb]. rewrite (@test_map f r (trim line) Hr), IH. reflexivity.
Qed.

Lemma canon_idem c : canon (canon c) = canon c.
Proof.
  unfold canon.
  destruct (N.leb 97 c && N.leb c 122) eqn:E; [|rewrite E; reflexivity].
  apply andb_true_iff in E as [E1 E2]. apply N.leb_le in E1, E2.
  replace (N.leb 97 (c - 32)) with false; [reflexivity|].
  symmetry. apply N.leb_gt. lia.
Qed.

Lemma isIntroPhrase_case_witness :
  isIntroPhrase (map canon (lit "  Here's your personalized massage plan:"))
  = true.
Proof.
  rewrite (@isIntroPhrase_case canon _ canon_idem). vm_compute. reflexivity.
Defined.

End IntroProps.

(* ===================================================================== *)
(** * The section splitter on any input *)
(* ===================================================================== *)

Module ParseProps.
Import StrFacts TrimFacts ReFacts HeaderFacts ParseFacts ListFacts.

(** ** The loop, line by line *)

Lemma with_lines_same c : with_lines c (lines c) = c.
Proof. destruct c; reflexivity. Qed.

(** With a section open, every further header closes it and opens the
    next. *)
Lemma fold_open t :
  forall secs c,
    finish (fold_left step t (mkPState secs (Some c) []))
    = secs ++ with_lines c (lines c ++ map trimEnd (leading t))
              :: sections_from t.
Proof.
  induction t as [|l t IH]; intros secs c.
  - cbn. rewrite app_nil_r, with_lines_same. reflexivity.
  - cbn [fold_left leading sections_from]. unfold is_header, test.
    unfold step at 2.
    destruct (exec header_re (trimEnd l)) as [m|].
    + cbn [flush_orphans push_current current sections orphanedLines].
      rewrite IH. cbn [map]. rewrite app_nil_r, with_lines_same.
      rewrite <- app_assoc. reflexivity.
    + cbn [current sections orphanedLines]. rewrite IH.
      cbn [add_line lines map]. unfold with_lines.
      cbn [number title description isOrphaned].
      rewrite <- app_assoc. reflexivity.
Qed.

Lemma buffered_snoc pre l :
  buffered (pre ++ [l])
  = if truthy (trim (trimEnd l)) then buffered pre ++ [trimEnd l]
    else buffered pre.
Proof.
  unfold buffered. rewrite map_app, filter_app. cbn [map filter].
  destruct (truthy (trim (trimEnd l))); [reflexivity | apply app_nil_r].
Qed.

Lemma flush_buffer b :
  flush_orphans (mkPState [] None b) = mkPState (orphans_of b) None [].
Proof.
  unfold flush_orphans, orphans_of. cbn [sections current orphanedLines].
  destruct b as [|x t] eqn:E; [reflexivity|].
  destruct (meaningful (x :: t)); reflexivity.
Qed.

(** Before the first header the lines are buffered; the first header
    turns the buffer into the orphaned section. *)
Lemma fold_lines ls :
  forall pre,
    finish (fold_left step ls (mkPState [] None (buffered pre)))
    = orphaned_part (pre ++ leading ls) ++ sections_from ls.
Proof.
  induction ls as [|l t IH]; intros pre.
  - cbn [fold_left leading sections_from].
    rewrite !app_nil_r, finish_orphans. apply orphans_spec.
  - cbn [fold_left leading sections_from]. unfold is_header, test.
    unfold step at 2.
    destruct (exec header_re (trimEnd l)) as [m|].
    + rewrite flush_buffer.
      cbn [push_current current sections orphanedLines].
      rewrite fold_open, app_nil_r, orphans_spec. reflexivity.
    + cbn [current sections orphanedLines].
      replace (pre ++ l :: leading t) with ((pre ++ [l]) ++ leading t)
        by (rewrite <- app_assoc; reflexivity).
      rewrite <- IH, buffered_snoc.
      destruct (truthy (trim (trimEnd l))); reflexivity.
Qed.

Lemma loop_lines ls :
  finish (fold_left step ls init)
  = orphaned_part (leading ls) ++ sections_from ls.
Proof. apply (fold_lines ls []). Qed.


Lemma newSection_numbered m : isOrphaned (newSection m) = false.
Proof.
  unfold newSection.
  destruct (indexOf (ch ":") (trim (cap 2 m))) as [[|i]|]; reflexivity.
Qed.

Lemma sections_from_numbered ls :
  filter isOrphaned (sections_from ls) = []
  /\ length (sections_from ls) = length (filter is_header ls).
Proof.
  induction ls as [|l t [IH1 IH2]]; [split; reflexivity|].
  cbn [sections_from filter]. unfold is_header at 1, test.
  destruct (exec header_re (trimEnd l)) as [m|]; [|split; assumption].
  split.
  - cbn [filter with_lines isOrphaned].
    rewrite newSection_numbered. exact IH1.
  - cbn [length]. rewrite IH2. reflexivity.
Qed.

Lemma filter_negb_nil (A : Type) (f : A -> bool) l :
  filter f l = [] -> filter (fun x => negb (f x)) l = l.
Proof.
  induction l as [|x t IH]; [reflexivity|]. cbn [filter].
  destruct (f x); [discriminate|]. intros H. cbn [negb]. rewrite IH by exact H.
  reflexivity.
Qed.

(** X7: for every input, [parsePlanText] returns as many sections that
    are not orphaned as the input has lines matching the header
    pattern. *)
Theorem one_section_per_header (planText : str) :
  length (filter (fun sec => negb (isOrphaned sec)) (parsePlanText planText))
  = length (filter is_header (split newline planText)).
Proof.
  unfold parsePlanText. rewrite loop_lines, filter_app.
  destruct (sections_from_numbered (split newline planText)) as [H1 H2].
  rewrite (filter_negb_nil _ _ H1), length_app, H2.
  unfold orphaned_part.
  destruct (existsb meaningful_line _); reflexivity.
Qed.

(** ** The fields of a numbered section *)

(** The text that the second group takes is the end of the line. *)
Lemma header_text_end line m :
  exec header_re line = Some m ->
  exists before g, line = before ++ g /\ g <> [] /\ cap 2 m = g.
Proof.
  rewrite exec_header. intros H.
  apply star_cls_inv in H as (n & _ & H).
  rewrite header_digit in H.
  destruct (skipn n line) as [|d [|c t]] eqn:E1; try discriminate.
  destruct (is_digit d) eqn:Ed; [|discriminate].
  destruct (N.eqb (ch ".") c); [|discriminate].
  cbn [andb] in H.
  apply star_cls_inv in H as (n' & _ & H).
  rewrite header_tail in H.
  destruct (skipn n' t) as [|y u] eqn:E2; [discriminate|].
  destruct (forallb _ (y :: u)); [|discriminate].
  inversion H; subst.
  exists (firstn n line ++ d :: c :: firstn n' t), (y :: u).
  split; [|split; [discriminate | reflexivity]].
  rewrite <- (firstn_skipn n line) at 1. rewrite E1.
  rewrite <- (firstn_skipn n' t) at 1. rewrite E2.
  rewrite <- !app_assoc. reflexivity.
Qed.

Lemma trim_keeps c x : is_ws c = false -> trim (c :: x) <> [].
Proof.
  intros Hc H. unfold trim, trimStart in H. cbn [dropWhile] in H.
  rewrite Hc in H. apply dropWhileEnd_nil_all in H. cbn [forallb] in H.
  rewrite Hc in H. discriminate.
Qed.

Lemma end_of_trimmed before g :
  g <> [] -> trimEnd (before ++ g) = before ++ g ->
  trimEnd g = g /\ trim g <> [].
Proof.
  intros Hg H.
  destruct (trimEnd_last (before ++ g)) as [E | (a & c & E & Hc)].
  { rewrite H in E. destruct before, g; try discriminate; congruence. }
  rewrite H in E.
  destruct (exists_last Hg) as (g' & x & ->).
  rewrite app_assoc in E. apply app_inj_tail in E as [_ ->].
  split; [apply trimEnd_snoc; exact Hc|].
  intros T. apply trim_nil_all_ws in T. rewrite forallb_app in T.
  cbn [forallb] in T. rewrite Hc, andb_false_r in T. discriminate.
Qed.

Lemma indexOf_none (c : char) (s : str) :
  indexOf c s = None <-> @existsb char (N.eqb c) s = false.
Proof.
  induction s as [|x t IH]; [split; reflexivity|].
  cbn [indexOf existsb]. rewrite (N.eqb_sym c x).
  destruct (N.eqb x c); [split; discriminate|].
  cbn [orb]. rewrite <- IH.
  destruct (indexOf c t); [split; discriminate | split; reflexivity].
Qed.

Lemma indexOf_firstn (c : char) (s : str) i :
  indexOf c s = Some i -> indexOf c (firstn i s) = None.
Proof.
  revert i. induction s as [|x t IH]; intros i; [discriminate|].
  cbn [indexOf]. destruct (N.eqb x c) eqn:E.
  - intros H. inversion H. reflexivity.
  - destruct (indexOf c t) as [j|] eqn:Ej; [|discriminate].
    intros H. inversion H. cbn [firstn indexOf]. rewrite E.
    rewrite (IH j eq_refl). reflexivity.
Qed.

Lemma colon_not_ws c : is_ws c = true -> N.eqb (ch ":") c = false.
Proof.
  intros H. apply N.eqb_neq. intros <-. discriminate.
Qed.

(** The fields of the section that a header line opens. *)
Lemma newSection_tidy rawLine m :
  exec header_re (trimEnd rawLine) = Some m ->
  title (newSection m) <> []
  /\ trimmed (title (newSection m))
  /\ trimmed (description (newSection m))
  /\ (indexOf (ch ":") (title (newSection m)) = None
      \/ indexOf (ch ":") (title (newSection m)) = Some 0)
  /\ lines (newSection m)
     = (if truthy (description (newSection m))
        then [description (newSection m)] else []).
Proof.
  intros H. destruct (header_text_end _ H) as (before & g & El & Hg & Ec).
  assert (Ht : trimEnd (before ++ g) = before ++ g).
  { rewrite <- El. apply trimEnd_idem. }
  destruct (end_of_trimmed _ Hg Ht) as [_ Hne].
  unfold newSection. rewrite Ec.
  pose proof (trimmed_trim g) as Tg.
  destruct (trim g) as [|c0 r] eqn:Eg; [congruence|].
  pose proof (trimmed_head Tg) as Hc0.
  destruct (indexOf (ch ":") (c0 :: r)) as [[|i]|] eqn:Ei;
    cbn [title description lines].
  - split; [exact Hne|]. split; [exact Tg|]. split; [apply trim_nil|].
    split; [right; exact Ei | reflexivity].
  - unfold substring, substringFrom. rewrite Nat.sub_0_r.
    cbn [skipn firstn].
    split; [apply trim_keeps; exact Hc0|].
    split; [apply trimmed_trim|]. split; [apply trimmed_trim|].
    split; [|reflexivity].
    left. apply indexOf_none.
    rewrite existsb_trim by apply colon_not_ws.
    apply indexOf_none.
    apply (indexOf_firstn _ _ Ei).
  - split; [exact Hne|]. split; [exact Tg|]. split; [apply trim_nil|].
    split; [left; exact Ei | reflexivity].
Qed.

Lemma sections_from_In ls sec :
  In sec (sections_from ls) ->
  exists rawLine m after,
    exec header_re (trimEnd rawLine) = Some m
    /\ sec = with_lines (newSection m)
               (lines (newSection m) ++ map trimEnd after).
Proof.
  induction ls as [|l t IH]; [intros []|].
  cbn [sections_from].
  destruct (exec header_re (trimEnd l)) as [m|] eqn:E; [|exact IH].
  intros [<-|Hin]; [|exact (IH Hin)].
  exists l, m, (leading t). auto.
Qed.

Lemma orphaned_part_In pre sec :
  In sec (orphaned_part pre) -> isOrphaned sec = true.
Proof.
  unfold orphaned_part. destruct (existsb meaningful_line pre); [|intros []].
  intros [<-|[]]. reflexivity.
Qed.

(** A section of the result that is not orphaned was opened by a header
    line. *)
Lemma numbered_origin planText sec :
  In sec (parsePlanText planText) ->
  isOrphaned sec = false ->
  exists rawLine m after,
    exec header_re (trimEnd rawLine) = Some m
    /\ sec = with_lines (newSection m)
               (lines (newSection m) ++ map trimEnd after).
Proof.
  unfold parsePlanText. rewrite loop_lines. intros Hin Ho.
  apply in_app_or in Hin as [Hin|Hin].
  - apply orphaned_part_In in Hin. congruence.
  - exact (sections_from_In _ _ Hin).
Qed.

(** X8: for every input, a section of the result that is not orphaned
    has a title that is not empty, a title and a description without
    white space around them, no colon in the title unless the title
    starts with one, its description (when not empty) as the first of its
    lines, and no line with trailing white space. *)
Theorem numbered_section_fields (planText : str) (sec : section) :
  In sec (parsePlanText planText) ->
  isOrphaned sec = false ->
  tidy sec.
Proof.
  intros Hin Ho.
  destruct (numbered_origin _ _ Hin Ho) as (l & m & after & Em & ->).
  destruct (newSection_tidy _ Em) as (H1 & H2 & H3 & H4 & H5).
  unfold tidy, with_lines. cbn [title description lines].
  repeat split; try assumption.
  - intros Hd. rewrite H5.
    destruct (description (newSection m)); [congruence | reflexivity].
  - apply Forall_app. split.
    + rewrite H5. destruct (truthy _); constructor; [|constructor].
      apply trimmed_trimEnd. exact H3.
    + apply Forall_map. apply Forall_forall. intros x _. apply trimEnd_idem.
Qed.

Lemma numbered_section_fields_witness :
  tidy (mkSection (lit "1") (lit "Starting Point") (lit "...")
          [lit "..."] false).
Proof.
  assert (Hin : In (mkSection (lit "1") (lit "Starting Point") (lit "...")
                      [lit "..."] false)
                   (parsePlanText orphan_scenario))
    by (vm_compute; right; left; reflexivity).
  exact (@numbered_section_fields orphan_scenario _ Hin eq_refl).
Defined.

(** X9: the text after the colon of a header line is the first candidate
    item of its section: when the description of a numbered section of
    the result starts with neither a double quote nor an asterisk, it is
    the first of the candidate lines that the Goals and Key Actions
    renderers collect from the section. *)
Theorem description_first_candidate (planText : str) (sec : section) :
  In sec (parsePlanText planText) ->
  isOrphaned sec = false ->
  is_candidate (description sec) = true ->
  hd_error (candidates (lines sec)) = Some (description sec).
Proof.
  intros Hin Ho Hc.
  destruct (numbered_origin _ _ Hin Ho) as (l & m & after & Em & ->).
  destruct (newSection_tidy _ Em) as (_ & _ & H3 & _ & H5).
  unfold with_lines in *. cbn [description lines] in *.
  rewrite H5, candidates_spec.
  destruct (description (newSection m)) as [|c r] eqn:Ed; [discriminate|].
  cbn [truthy app map filter]. unfold trimmed in H3. rewrite H3, Hc.
  reflexivity.
Qed.

Lemma description_first_candidate_witness :
  hd_error (candidates [lit "..."]) = Some (lit "...").
Proof.
  assert (Hin : In (mkSection (lit "1") (lit "Starting Point") (lit "...")
                      [lit "..."] false)
                   (parsePlanText orphan_scenario))
    by (vm_compute; right; left; reflexivity).
  exact (@description_first_candidate orphan_scenario _ Hin eq_refl eq_refl).
Defined.

(** ** Line endings *)

Lemma step_trimEnd st a b : trimEnd a = trimEnd b -> step st a = step st b.
Proof. intros H. unfold step. rewrite H. reflexivity. Qed.

(** The loop looks at a line only through the line without its trailing
    white space. *)
Lemma fold_trimEnd ls ls' :
  Forall2 (fun a b => trimEnd a = trimEnd b) ls ls' ->
  forall st, fold_left step ls st = fold_left step ls' st.
Proof.
  induction 1 as [|a b ls ls' Hab Hl IH]; intros st; [reflexivity|].
  cbn [fold_left]. rewrite (@step_trimEnd st a b Hab). apply IH.
Qed.

Lemma cr_lines_cons b t : exists x y, cr_lines (b :: t) = x :: y.
Proof. destruct t; cbn [cr_lines]; eauto. Qed.

Lemma join_crlf ls : join CRLF ls = join [newline] (cr_lines ls).
Proof.
  induction ls as [|a [|b t] IH]; [reflexivity | reflexivity|].
  change (join CRLF (a :: b :: t)) with (a ++ CRLF ++ join CRLF (b :: t)).
  rewrite IH.
  change (cr_lines (a :: b :: t)) with ((a ++ [13%N]) :: cr_lines (b :: t)).
  destruct (cr_lines_cons b t) as (x & y & ->).
  change (join [newline] ((a ++ [13%N]) :: x :: y))
    with ((a ++ [13%N]) ++ [newline] ++ join [newline] (x :: y)).
  rewrite <- app_assoc. reflexivity.
Qed.

Lemma indexOf_app_none (c : char) (a b : str) :
  indexOf c a = None -> indexOf c b = None -> indexOf c (a ++ b) = None.
Proof.
  intros Ha Hb. apply indexOf_none. rewrite existsb_app.
  rewrite (proj1 (indexOf_none c a) Ha), (proj1 (indexOf_none c b) Hb).
  reflexivity.
Qed.

Lemma cr_lines_spec ls :
  Forall (fun l => indexOf newline l = None) ls ->
  Forall (fun l => indexOf newline l = None) (cr_lines ls)
  /\ Forall2 (fun a b => trimEnd a = trimEnd b) (cr_lines ls) ls.
Proof.
  induction 1 as [|a t Ha Ht [IH1 IH2]]; [split; constructor|].
  destruct t as [|b t'].
  - split; constructor; auto.
  - change (cr_lines (a :: b :: t'))
      with ((a ++ [13%N]) :: cr_lines (b :: t')).
    split; constructor; auto.
    + apply indexOf_app_none; [exact Ha | reflexivity].
    + apply trimEnd_snoc_ws. reflexivity.
Qed.

(** X10: a text whose lines end with carriage return and line feed is
    split into the same sections as the text with line feeds alone. *)
Theorem windows_line_endings (ls : list str) :
  ls <> [] ->
  Forall (fun l => indexOf newline l = None) ls ->
  parsePlanText (join CRLF ls) = parsePlanText (join [newline] ls).
Proof.
  intros Hn Hl. destruct (cr_lines_spec Hl) as [H1 H2].
  unfold parsePlanText. rewrite join_crlf, !split_join; try assumption.
  - rewrite (@fold_trimEnd _ _ H2). reflexivity.
  - destruct ls as [|a t]; [congruence|].
    destruct (cr_lines_cons a t) as (x & y & ->). discriminate.
Qed.

Lemma windows_line_endings_witness :
  map title (parsePlanText (join CRLF [lit "1. Goals: sleep"; lit "Walk daily.";
                                       lit "2. Plan: weekly"]))
  = [lit "Goals"; lit "Plan"].
Proof.
  rewrite (@windows_line_endings
             [lit "1. Goals: sleep"; lit "Walk daily."; lit "2. Plan: weekly"]).
  - vm_compute. reflexivity.
  - discriminate.
  - repeat constructor.
Defined.

(** ** When there is no section *)




End ParseProps.

(* ===================================================================== *)
(** * The header pattern in closed form *)
(* ===================================================================== *)

Module HeaderProps.
Import StrFacts TrimFacts ReFacts HeaderFacts ParseFacts ListFacts ParseProps.

Lemma lt_is_ws c : is_lt c = true -> is_ws c = true.
Proof.
  unfold is_lt. cbn [existsb]. rewrite !orb_true_iff, !N.eqb_eq.
  intros [-> | [-> | [-> | [-> | H]]]]; try reflexivity; discriminate.
Qed.

Lemma dropWhile_skipn_run p n (x : str) :
  n <= length (takeWhile p x) -> dropWhile p (skipn n x) = dropWhile p x.
Proof.
  revert n. induction x as [|c t IH]; intros [|n]; try reflexivity.
  cbn [takeWhile]. destruct (p c) eqn:E; cbn [length]; [|lia].
  intros H. cbn [skipn dropWhile]. rewrite E. apply IH. lia.
Qed.

(** The text after the period, when the line has no trailing white
    space: the white space is skipped and the rest is taken whole. *)
Lemma header_rest q t cs :
  trimEnd t = t ->
  star_cls is_ws (rmatch (Seq (Group 2 (Plus dot)) Eol) Some) q t cs
  = let g := dropWhile is_ws t in
    if truthy g && forallb (fun c => negb (is_lt c)) g
    then Some (MState (q + length t) [] ((2, g) :: cs))
    else None.
Proof.
  intros Ht. cbv zeta.
  destruct (truthy (dropWhile is_ws t)
            && forallb (fun c => negb (is_lt c)) (dropWhile is_ws t)) eqn:E.
  - apply andb_true_iff in E as [E1 E2].
    apply star_cls_greedy. rewrite header_tail, E2.
    destruct (dropWhile is_ws t) as [|y u] eqn:Ed; [discriminate|].
    rewrite <- Ed.
    replace (q + length (takeWhile is_ws t) + length (dropWhile is_ws t))
      with (q + length t); [reflexivity|].
    rewrite <- (takeWhile_dropWhile is_ws t) at 1. rewrite length_app. lia.
  - destruct (star_cls _ _ q t cs) as [m|] eqn:Es; [|reflexivity].
    exfalso. apply star_cls_inv in Es as (n & Hn & Hk).
    rewrite header_tail in Hk.
    destruct (skipn n t) as [|y u] eqn:Ek; [discriminate|].
    destruct (forallb _ (y :: u)) eqn:Ef; [|discriminate].
    apply andb_false_iff in E as [E|E].
    + (* all white space: the line is empty *)
      destruct (dropWhile is_ws t) eqn:Ed; [|discriminate].
      apply dropWhile_nil_all in Ed.
      unfold trimEnd in Ht. rewrite (dropWhileEnd_all _ _ Ed) in Ht. subst t.
      destruct n; discriminate.
    + (* a line terminator in the rest *)
      assert (Hs : forallb (fun c => negb (is_lt c)) (dropWhile is_ws t) = true).
      { rewrite <- (@dropWhile_skipn_run is_ws n t Hn), Ek.
        apply forallb_dropWhile. exact Ef. }
      congruence.
Qed.

Lemma suffix_trimEnd (a t : str) :
  trimEnd (a ++ t) = a ++ t -> trimEnd t = t.
Proof.
  intros H. destruct t as [|c r]; [reflexivity|].
  apply (@end_of_trimmed a (c :: r)); [discriminate | exact H].
Qed.

Lemma header_digit_ws q c t cs :
  is_ws c = true ->
  rmatch (Seq (Group 1 digit) (Seq (chr (ch "."))
            (Seq (Star ws) (Seq (Group 2 (Plus dot)) Eol)))) Some
         (MState q (c :: t) cs) = None.
Proof.
  intros Hc. rewrite header_digit. destruct t as [|c' t']; [reflexivity|].
  destruct (is_digit c) eqn:Ed; [|reflexivity].
  rewrite (digit_not_ws _ Ed) in Hc. discriminate.
Qed.

(** X11: a line is a header line exactly when, without its trailing white
    space, it reads: optional white space, one decimal digit, a period,
    optional white space, and a text that is not empty and holds no line
    terminator; the digit is the number of the section and the text is
    what the title and the description are cut from. *)
Theorem header_lines (rawLine : str) :
  match header_parts (trimEnd rawLine) with
  | Some (d, g) =>
      exists m, exec header_re (trimEnd rawLine) = Some m
                /\ cap 1 m = [d] /\ cap 2 m = g
  | None => exec header_re (trimEnd rawLine) = None
  end.
Proof.
  pose proof (trimEnd_idem rawLine) as Ht.
  set (line := trimEnd rawLine) in *.
  rewrite exec_header, star_cls_commit
    by (intros q' c t Hc; apply header_digit_ws; exact Hc).
  rewrite header_digit. unfold header_parts.
  rewrite <- (takeWhile_dropWhile is_ws line) in Ht.
  destruct (dropWhile is_ws line) as [|d [|c t]]; try reflexivity.
  destruct (is_digit d && N.eqb (ch ".") c); [|reflexivity].
  assert (Hs : trimEnd t = t).
  { apply (@suffix_trimEnd (takeWhile is_ws line ++ [d; c])).
    rewrite <- !app_assoc. exact Ht. }
  rewrite (header_rest _ _ Hs). cbv zeta.
  destruct (truthy (dropWhile is_ws t) && forallb _ (dropWhile is_ws t));
    [|reflexivity].
  eexists. split; [reflexivity|]. split; reflexivity.
Qed.

End HeaderProps.


(* ===================================================================== *)
(** * The items of Goals and Key Actions *)
(* ===================================================================== *)

Module ItemProps.
Import StrFacts TrimFacts ReFacts ParseFacts ListFacts.

Lemma In_firstn (A : Type) n (l : list A) x : In x (firstn n l) -> In x l.
Proof.
  intros H. rewrite <- (firstn_skipn n l). apply in_or_app. left. exact H.
Qed.

Section Sub.
Variable f : char -> bool.

Lemma existsb_dropWhile_false p (s : str) :
  existsb f s = false -> existsb f (dropWhile p s) = false.
Proof.
  induction s as [|c t IH]; [reflexivity|]. cbn [dropWhile].
  destruct (p c); [|auto]. cbn [existsb]. intros H.
  apply orb_false_iff in H as [_ H]. auto.
Qed.

Lemma existsb_strip_edges (s : str) :
  existsb f s = false -> existsb f (strip_edges s) = false.
Proof.
  intros H. unfold strip_edges, dropWhileEnd.
  rewrite existsb_rev_eq. apply existsb_dropWhile_false.
  rewrite existsb_rev_eq. apply existsb_dropWhile_false. exact H.
Qed.

End Sub.

Section Narrow.
Variables p q : char -> bool.
Hypothesis sub : forall c, p c = true -> q c = true.

Lemma dropWhile_narrow (s : str) : dropWhile q s = s -> dropWhile p s = s.
Proof.
  destruct s as [|c t]; [reflexivity|]. intros H.
  pose proof (@dropWhile_head q (c :: t) c t H) as Hc.
  cbn [dropWhile]. destruct (p c) eqn:E; [|reflexivity].
  rewrite (sub E) in Hc. discriminate.
Qed.

Lemma dropWhileEnd_narrow (s : str) :
  dropWhileEnd q s = s -> dropWhileEnd p s = s.
Proof.
  unfold dropWhileEnd. intros H.
  assert (E : dropWhile q (rev s) = rev s).
  { rewrite <- H at 2. rewrite rev_involutive. reflexivity. }
  rewrite (@dropWhile_narrow (rev s) E). apply rev_involutive.
Qed.

End Narrow.

Lemma strip_edges_fixed s : strip_edges (strip_edges s) = strip_edges s.
Proof.
  unfold strip_edges.
  rewrite <- (dropWhile_dropWhileEnd is_comma_ws s), dropWhile_idem.
  rewrite dropWhile_dropWhileEnd. apply dropWhileEnd_idem.
Qed.

Lemma strip_edges_head s : dropWhile is_comma_ws (strip_edges s) = strip_edges s.
Proof.
  unfold strip_edges.
  rewrite <- (dropWhile_dropWhileEnd is_comma_ws s). apply dropWhile_idem.
Qed.

Lemma strip_edges_last s :
  dropWhileEnd is_comma_ws (strip_edges s) = strip_edges s.
Proof. unfold strip_edges. apply dropWhileEnd_idem. Qed.

Lemma strip_edges_trimmed s : trimmed (strip_edges s).
Proof.
  unfold trimmed, trim, trimStart, trimEnd.
  rewrite (@dropWhile_narrow is_ws is_comma_ws ws_comma_ws _
             (strip_edges_head s)).
  apply (@dropWhileEnd_narrow is_ws is_comma_ws ws_comma_ws _
           (strip_edges_last s)).
Qed.

(** No piece of a split text holds the separator. *)
Lemma split_parts (c : char) (s : str) f :
  In f (split c s) -> @existsb char (N.eqb c) f = false.
Proof.
  revert f. induction s as [|x t IH]; intros f.
  - intros [<-|[]]. reflexivity.
  - cbn [split]. destruct (N.eqb x c) eqn:E.
    + intros [<-|H]; [reflexivity | auto].
    + destruct (split c t) as [|w ws] eqn:Es.
      * intros [<-|[]]. cbn [existsb]. rewrite N.eqb_sym, E. reflexivity.
      * intros [<-|H].
        -- cbn [existsb]. rewrite N.eqb_sym, E. apply IH. left. reflexivity.
        -- apply IH. right. exact H.
Qed.

(** Where the items of the fallback come from. *)
Lemma fallback_item_origin goals item :
  In item (fallbackItems goals) ->
  exists f, In f (split (ch ".") (join (lit " ") goals))
            /\ includes (lit "*") f = false
            /\ item = strip_edges f /\ item <> [].
Proof.
  rewrite fallbackItems_spec. unfold spec_fallback. intros H.
  apply filter_In in H as [H Hne].
  apply in_map_iff in H as (f & <- & H).
  apply filter_In in H as [H Hs]. apply filter_In in H as [H _].
  exists f. repeat split; try assumption.
  - apply negb_true_iff. exact Hs.
  - intros E. rewrite E in Hne. discriminate.
Qed.

Lemma starts_star c (s : str) :
  @existsb char (N.eqb c) s = false -> startsWith [c] s = false.
Proof.
  rewrite startsWith_one. destruct s as [|x t]; [reflexivity|].
  cbn [existsb]. intros H. apply orb_false_iff in H as [H _]. exact H.
Qed.

(** The items before they are escaped. *)
Lemma listItems_plain (ls : list str) (item : str) :
  In item (listItems ls) ->
  item <> [] /\ trimmed item /\ startsWith (lit "*") item = false.
Proof.
  unfold listItems. destruct (3 <=? length (candidates ls)) eqn:E3.
  - intros H. apply filter_In in H as [H _]. apply In_firstn in H.
    rewrite candidates_spec in H. apply filter_In in H as [H Hc].
    apply in_map_iff in H as (l & <- & _).
    split; [|split].
    + intros E. rewrite E in Hc. discriminate.
    + apply trimmed_trim.
    + change (lit "*") with [ch "*"]. rewrite startsWith_one.
      unfold is_candidate in Hc. destruct (trim l) as [|c t]; [reflexivity|].
      apply andb_true_iff in Hc as [_ Hc]. apply negb_true_iff in Hc.
      rewrite N.eqb_sym. exact Hc.
  - destruct (candidates ls) as [|g gs] eqn:Eg; [intros []|].
    intros H. destruct (fallback_item_origin _ _ H) as (f & _ & Hs & -> & Hne).
    split; [exact Hne|]. split; [apply strip_edges_trimmed|].
    change (lit "*") with [ch "*"]. apply starts_star.
    apply existsb_strip_edges. rewrite <- includes_one. exact Hs.
Qed.

(** The escaped form of a text that starts with neither white space nor
    an asterisk starts with neither. *)
Lemma escaped_head (c : char) (t : str) :
  is_ws c = false -> N.eqb (ch "*") c = false ->
  exists d r, flat_map entity (strip_bold (c :: t)) = d :: r
              /\ is_ws d = false /\ d <> ch "*".
Proof.
  intros Hw Hs.
  destruct (@EscFacts.strip_bold_head c t Hs) as (r & ->).
  cbn [flat_map]. unfold entity.
  destruct (N.eqb c (ch "&")); [eexists _, _; split; [reflexivity|split; [reflexivity|discriminate]]|].
  destruct (N.eqb c (ch "<")); [eexists _, _; split; [reflexivity|split; [reflexivity|discriminate]]|].
  destruct (N.eqb c (ch ">")); [eexists _, _; split; [reflexivity|split; [reflexivity|discriminate]]|].
  exists c, (flat_map entity r). split; [reflexivity|]. split; [exact Hw|].
  intros ->. rewrite N.eqb_refl in Hs. discriminate.
Qed.

(** An item of a list shows in the concatenation of the rendered items. *)
Lemma concat_map_In (A : Type) (f : A -> str) (x : A) (l : list A) :
  In x l -> exists a b, concat (map f l) = a ++ f x ++ b.
Proof.
  intros H. apply in_split in H as (l1 & l2 & ->).
  exists (concat (map f l1)), (concat (map f l2)).
  rewrite map_app, concat_app. reflexivity.
Qed.

Lemma list_section_item tag sec item :
  In item (listItems (lines sec)) ->
  exists before after,
    renderListSection tag sec
    = before ++ tpl "<li>" ++ flat_map entity (strip_bold item)
      ++ tpl "</li>" ++ after.
Proof.
  intros H. unfold renderListSection.
  destruct (concat_map_In li _ _ H) as (a & b & ->).
  assert (E : li item = tpl "<li>" ++ flat_map entity (strip_bold item)
                       ++ tpl "</li>")
    by (unfold li; rewrite EscFacts.escapeHtml_spec; reflexivity).
  rewrite E.
  destruct (3 <=? length (candidates (lines sec)));
    match goal with
    | |- exists before after,
           ?p1 ++ ?h ++ ?p2 ++ ?t1 ++ ?p3 ++ (a ++ ?x ++ b) ++ ?p4 = _ =>
        exists (p1 ++ h ++ p2 ++ t1 ++ p3 ++ a), (b ++ p4)
    end;
    rewrite <- !app_assoc; reflexivity.
Qed.

(** X12: whatever the lines of a Goals or Key Actions section, every
    item collected for the list is, before it is escaped, not empty,
    without white space at either end, and does not start with an
    asterisk.  The list of either renderer shows the item as an [li]
    element holding its escaped text, which is therefore not empty and
    starts with neither white space nor an asterisk.  (Escaping removes
    bold markers, so the escaped text can end in white space.) *)
Theorem list_items_tidy (sec : section) (item : str) :
  In item (listItems (lines sec)) ->
  (item <> [] /\ trimmed item /\ startsWith (lit "*") item = false)
  /\ (exists c r, flat_map entity (strip_bold item) = c :: r
                  /\ is_ws c = false /\ c <> ch "*")
  /\ (exists before after,
        renderGoalsSection sec
        = before ++ tpl "<li>" ++ flat_map entity (strip_bold item)
          ++ tpl "</li>" ++ after)
  /\ (exists before after,
        renderKeyActionsSection sec
        = before ++ tpl "<li>" ++ flat_map entity (strip_bold item)
          ++ tpl "</li>" ++ after).
Proof.
  intros H. pose proof (listItems_plain _ _ H) as (Hne & Ht & Hs).
  split; [repeat split; assumption|]. split.
  - destruct item as [|c t]; [congruence|].
    apply escaped_head.
    + exact (trimmed_head Ht).
    + change (lit "*") with [ch "*"] in Hs. rewrite startsWith_one in Hs.
      exact Hs.
  - split; apply list_section_item; exact H.
Qed.

Lemma list_items_tidy_witness :
  (lit "Stretch twice a day" <> []
   /\ trimmed (lit "Stretch twice a day")
   /\ startsWith (lit "*") (lit "Stretch twice a day") = false)
  /\ exists before after,
       renderKeyActionsSection sample_paragraph
       = before ++ tpl "<li>Stretch twice a day</li>" ++ after.
Proof.
  destruct (@list_items_tidy sample_paragraph (lit "Stretch twice a day"))
    as (H1 & _ & _ & (before & after & H4)).
  - vm_compute. right. left. reflexivity.
  - split; [exact H1|]. exists before, after. exact H4.
Defined.

(** X13: with fewer than three candidate lines, every item of the list
    comes from the sentence-level fallback and holds no period and no
    asterisk, and neither starts nor ends with a comma or white space. *)
Theorem fallback_items_clean (ls : list str) (item : str) :
  length (candidates ls) < 3 ->
  In item (listItems ls) ->
  @existsb char (N.eqb (ch ".")) item = false
  /\ @existsb char (N.eqb (ch "*")) item = false
  /\ strip_edges item = item.
Proof.
  intros Hl. unfold listItems.
  apply Nat.leb_gt in Hl. rewrite Hl.
  destruct (candidates ls) as [|g gs]; [intros []|].
  intros H. destruct (fallback_item_origin _ _ H) as (f & Hf & Hs & -> & _).
  split; [|split].
  - apply existsb_strip_edges. apply (split_parts _ _ _ Hf).
  - apply existsb_strip_edges. rewrite <- includes_one. exact Hs.
  - apply strip_edges_fixed.
Qed.

Lemma fallback_items_clean_witness :
  @existsb char (N.eqb (ch ".")) (lit "Heat pack nightly") = false
  /\ @existsb char (N.eqb (ch "*")) (lit "Heat pack nightly") = false
  /\ strip_edges (lit "Heat pack nightly") = lit "Heat pack nightly".
Proof.
  apply (@fallback_items_clean (lines sample_paragraph)).
  - vm_compute. lia.
  - vm_compute. left. reflexivity.
Defined.

End ItemProps.

(* ===================================================================== *)
(** * Runs of a class and captures *)
(* ===================================================================== *)

Module RunFacts.
Import StrFacts TrimFacts ReFacts EscFacts ListFacts.

Section Squeeze.
Variable p : char -> bool.
Variable repl : str.

Lemma squeeze_run (s : str) :
  squeeze p repl true s = squeeze p repl false (dropWhile p s).
Proof.
  induction s as [|c t IH]; [reflexivity|].
  cbn [squeeze dropWhile]. destruct (p c) eqn:E; [exact IH|].
  cbn [squeeze]. rewrite E. reflexivity.
Qed.

(** The global replacement of [c+] for a class [c]: every run of the
    class gives way to one copy of the replacement. *)
Lemma replace_loop_squeeze n :
  forall (s : str) fuel q,
    length s <= n -> length s < fuel ->
    replace_loop (Plus (Cls p)) repl fuel q s = squeeze p repl false s.
Proof.
  induction n as [|n IH]; intros s fuel q Hn Hf.
  - destruct s; [|cbn in Hn; lia].
    apply replace_loop_nil. rewrite rmatch_plus_cls. reflexivity.
  - destruct s as [|c t].
    { apply replace_loop_nil. rewrite rmatch_plus_cls. reflexivity. }
    destruct fuel as [|fuel]; [lia|]. cbn [length] in Hn, Hf.
    cbn [squeeze]. destruct (p c) eqn:Ec.
    + rewrite (@replace_loop_hit _ _ _ _ _
                 (MState (S q + length (takeWhile p t)) (dropWhile p t) [])).
      * cbn [pos rest]. rewrite squeeze_run. f_equal.
        pose proof (length_dropWhile p t). apply IH; lia.
      * rewrite rmatch_plus_cls, Ec. apply star_cls_greedy. reflexivity.
      * cbn [pos]. lia.
    + rewrite replace_loop_skip by (rewrite rmatch_plus_cls, Ec; reflexivity).
      f_equal. apply IH; lia.
Qed.

Lemma replaceAll_squeeze (s : str) :
  replaceAll (Plus (Cls p)) repl s = squeeze p repl false s.
Proof. apply (@replace_loop_squeeze (length s)); lia. Qed.

Lemma squeeze_forallb (Q : char -> bool) (s : str) :
  forallb Q repl = true ->
  forallb (fun c => p c || Q c) s = true ->
  forall inside, forallb Q (squeeze p repl inside s) = true.
Proof.
  intros Hr. induction s as [|c t IH]; [reflexivity|].
  cbn [forallb squeeze]. intros H inside.
  apply andb_true_iff in H as [Hc Ht].
  destruct (p c); cbn [orb] in Hc.
  - rewrite forallb_app, (IH Ht). destruct inside; [reflexivity|].
    rewrite Hr. reflexivity.
  - cbn [forallb]. rewrite Hc, (IH Ht). reflexivity.
Qed.

End Squeeze.

(** With an empty replacement the class is removed. *)
Lemma squeeze_nil p inside (s : str) :
  squeeze p [] inside s = filter (fun c => negb (p c)) s.
Proof.
  revert inside. induction s as [|c t IH]; intros inside; [reflexivity|].
  cbn [squeeze filter]. destruct (p c); cbn [negb].
  - rewrite IH. destruct inside; reflexivity.
  - rewrite IH. reflexivity.
Qed.

Lemma existsb_filter_out (c : char) (s : str) :
  @existsb char (N.eqb c) (filter (fun x => negb (N.eqb c x)) s) = false.
Proof.
  induction s as [|x t IH]; [reflexivity|]. cbn [filter].
  destruct (N.eqb c x) eqn:E; cbn [negb]; [exact IH|].
  cbn [existsb]. rewrite E. exact IH.
Qed.

(** ** Captures *)

Section Captures.
Variable Q : nat -> str -> Prop.

Lemma star_loop_caps (body : cont -> cont) :
  (forall k s m,
      caps_ok Q (caps s) -> body k s = Some m ->
      exists s', caps_ok Q (caps s') /\ k s' = Some m) ->
  forall fuel k s m,
    caps_ok Q (caps s) -> star_loop body k fuel s = Some m ->
    exists s', caps_ok Q (caps s') /\ k s' = Some m.
Proof.
  intros Hb. induction fuel as [|n IH]; intros k s m Hs; cbn [star_loop].
  - intros H. exists s. auto.
  - destruct (body _ s) as [m'|] eqn:E.
    + intros H. inversion H; subst m'.
      destruct (Hb _ _ _ Hs E) as (s1 & H1 & H2).
      destruct (pos s <? pos s1); [|discriminate].
      exact (IH _ _ _ H1 H2).
    + intros H. exists s. auto.
Qed.

(** When every group of a pattern captures a text with the property, the
    captures of a match have it. *)
Lemma rmatch_caps r :
  groups_ok Q r ->
  forall k s m,
    caps_ok Q (caps s) -> rmatch r k s = Some m ->
    exists s', caps_ok Q (caps s') /\ k s' = Some m.
Proof.
  induction r as [|p|r1 IH1 r2 IH2|r1 IH1 r2 IH2|r1 IH1|i r1 IH1| |];
    intros Hr k s m Hs; cbn [rmatch groups_ok] in *.
  - intros H. exists s. auto.
  - destruct (rest s) as [|c t]; [discriminate|].
    destruct (p c); [|discriminate].
    intros H. eexists. split; [|exact H]. exact Hs.
  - destruct Hr as [H1 H2]. intros H.
    destruct (IH1 H1 _ _ _ Hs H) as (s1 & Hs1 & Hk).
    exact (IH2 H2 _ _ _ Hs1 Hk).
  - destruct Hr as [H1 H2].
    destruct (rmatch r1 k s) as [m'|] eqn:E.
    + intros H. inversion H; subst m'. exact (IH1 H1 _ _ _ Hs E).
    + intros H. exact (IH2 H2 _ _ _ Hs H).
  - apply star_loop_caps; [|exact Hs]. intros k' s' m'. apply IH1. exact Hr.
  - intros H. destruct (Hr _ _ _ H) as (s1 & Hk & Hc & Hq).
    eexists. split; [|exact Hk]. cbn [caps].
    intros j w [E|Hin].
    + inversion E; subst. exact Hq.
    + rewrite Hc in Hin. exact (Hs _ _ Hin).
  - destruct (pos s =? 0); [|discriminate]. intros H. exists s. auto.
  - destruct (rest s); [|discriminate]. intros H. exists s. auto.
Qed.

Lemma caps_ok_nil : caps_ok Q [].
Proof. intros i w []. Qed.

Lemma search_from_caps r :
  groups_ok Q r ->
  forall s p start m,
    search_from r p s = Some (start, m) -> caps_ok Q (caps m).
Proof.
  intros Hr. induction s as [|c t IH]; intros p start m; cbn [search_from].
  - destruct (rmatch r Some (MState p [] [])) as [m'|] eqn:E; [|discriminate].
    intros H. inversion H; subst.
    destruct (@rmatch_caps r Hr Some (MState _ _ []) _ caps_ok_nil E)
      as (s' & Hs' & Hk).
    inversion Hk; subst. exact Hs'.
  - destruct (rmatch r Some (MState p (c :: t) [])) as [m'|] eqn:E.
    + intros H. inversion H; subst.
      destruct (@rmatch_caps r Hr Some (MState _ _ []) _ caps_ok_nil E)
        as (s' & Hs' & Hk).
      inversion Hk; subst. exact Hs'.
    + apply IH.
Qed.

Lemma exec_caps r s m :
  groups_ok Q r -> exec r s = Some m -> caps_ok Q (caps m).
Proof.
  intros Hr. unfold exec.
  destruct (search_from r 0 s) as [[start m']|] eqn:E; [|discriminate].
  intros H. inversion H; subst. exact (@search_from_caps r Hr _ _ _ _ E).
Qed.

End Captures.

Lemma lookup_cap_In i cs w : lookup_cap i cs = Some w -> In (i, w) cs.
Proof.
  induction cs as [|[j v] t IH]; [discriminate|]. cbn [lookup_cap].
  destruct (Nat.eqb_spec i j) as [->|_].
  - intros H. inversion H. left. reflexivity.
  - intros H. right. exact (IH H).
Qed.

Lemma cap_ok Q i m :
  caps_ok Q (caps m) -> Q i [] -> Q i (cap i m).
Proof.
  intros H H0. unfold cap, group.
  destruct (lookup_cap i (caps m)) as [w|] eqn:E; [|exact H0].
  apply H. apply lookup_cap_In. exact E.
Qed.

Lemma forallb_firstn_run p n (x : str) :
  n <= length (takeWhile p x) -> forallb p (firstn n x) = true.
Proof.
  revert n. induction x as [|c t IH]; intros [|n]; try reflexivity.
  cbn [takeWhile]. destruct (p c) eqn:E; cbn [length]; [|lia].
  intros H. cbn [firstn forallb]. rewrite E. apply IH. lia.
Qed.

(** A group around [c+] for a class [c] captures a run inside the class. *)
Lemma plus_cls_group p k s m :
  rmatch (Plus (Cls p)) k s = Some m ->
  exists s', k s' = Some m /\ caps s' = caps s
             /\ forallb p (firstn (pos s' - pos s) (rest s)) = true.
Proof.
  destruct s as [q x cs]. rewrite rmatch_plus_cls.
  destruct x as [|c t]; [discriminate|].
  destruct (p c) eqn:Ec; [|discriminate].
  intros H. apply star_cls_inv in H as (n & Hn & Hk).
  eexists. split; [exact Hk|]. split; [reflexivity|].
  cbn [pos rest].
  replace (S q + n - q) with (S n) by lia.
  cbn [firstn forallb]. rewrite Ec. apply forallb_firstn_run. exact Hn.
Qed.

Lemma none_of_one (c : char) (w : str) :
  forallb (fun x => negb (existsb (N.eqb x) [c])) w = true ->
  @existsb char (N.eqb c) w = false.
Proof.
  induction w as [|x t IH]; [reflexivity|].
  cbn [forallb existsb]. intros H. apply andb_true_iff in H as [Hx Ht].
  rewrite orb_false_r in Hx. apply negb_true_iff in Hx.
  rewrite (N.eqb_sym c x), Hx. exact (IH Ht).
Qed.

Lemma not_ws_keeps (c : char) :
  is_ws c = false -> forall x, is_ws x = true -> N.eqb c x = false.
Proof.
  intros Hc x Hx. apply N.eqb_neq. intros <-. congruence.
Qed.

End RunFacts.

(* ===================================================================== *)
(** * The phase cards on any input *)
(* ===================================================================== *)

Module PhaseProps.
Import StrFacts TrimFacts ReFacts EscFacts ListFacts EscapeProps RunFacts.

Lemma collectPhases_close ls :
  collectPhases ls
  = close_phase (fst (fold_left phase_step ls ([], None)))
                (snd (fold_left phase_step ls ([], None))).
Proof.
  unfold collectPhases.
  destruct (fold_left phase_step ls ([], None)) as [phases cur].
  reflexivity.
Qed.

(** ** One card for every header line *)

Lemma phase_step_count st l :
  length (close_phase (fst (phase_step st l)) (snd (phase_step st l)))
  = length (close_phase (fst st) (snd st))
    + (if opens_phase l then 1 else 0).
Proof.
  destruct st as [phases cur]. unfold phase_step, opens_phase.
  destruct (isPhaseHeader (trim l)).
  - destruct cur as [p|]; cbn [fst snd close_phase];
      rewrite ?length_app; cbn [length]; lia.
  - destruct cur as [p|]; [|cbn [fst snd]; lia].
    destruct (exec recommended_re (trim l)).
    + cbn [fst snd close_phase]. rewrite !length_app. cbn [length]. lia.
    + destruct (_ && _); cbn [fst snd close_phase];
        rewrite ?length_app; cbn [length]; lia.
Qed.

Lemma fold_count ls :
  forall st,
    length (close_phase (fst (fold_left phase_step ls st))
                        (snd (fold_left phase_step ls st)))
    = length (close_phase (fst st) (snd st))
      + length (filter opens_phase ls).
Proof.
  induction ls as [|l t IH]; intros st; [cbn; lia|].
  cbn [fold_left filter]. rewrite IH, phase_step_count.
  destruct (opens_phase l); cbn [length]; lia.
Qed.

(** X14: the treatment renderer makes one phase card for every line that
    holds one of the two phase titles, whatever else the lines hold. *)
Theorem one_card_per_header (ls : list str) :
  length (collectPhases ls) = length (filter opens_phase ls).
Proof. rewrite collectPhases_close, fold_count. reflexivity. Qed.

(** ** What a card can hold *)

Lemma newPhase_ok all t : phase_ok all (newPhase t).
Proof.
  unfold newPhase, phase_ok.
  destruct (exec phase_header_re t);
    cbn [Phase.content Phase.title Phase.subtitle Phase.recommended];
    repeat split; try apply trimmed_trim; try apply trim_nil; constructor.
Qed.

Lemma phase_step_ok all st l :
  In l all -> state_ok all st -> state_ok all (phase_step st l).
Proof.
  intros Hin. destruct st as [phases cur]. unfold state_ok, phase_step.
  cbn [fst snd]. intros [Hp Hc].
  destruct (isPhaseHeader (trim l)) eqn:Eh.
  - cbn [fst snd]. split; [|apply newPhase_ok].
    destruct cur as [p|]; [|exact Hp].
    apply Forall_app. split; [exact Hp | constructor; [exact Hc | constructor]].
  - destruct cur as [p|]; [|cbn [fst snd]; auto].
    destruct (exec recommended_re (trim l)) eqn:Er.
    + cbn [fst snd]. split; [exact Hp|].
      destruct Hc as (H1 & H2 & H3 & H4). unfold phase_ok.
      cbn [Phase.content Phase.title Phase.subtitle Phase.recommended].
      repeat split; try assumption. apply trimmed_trim.
    + destruct (0 <? length (trim l)) eqn:El; cbn [andb];
        [|cbn [fst snd]; auto].
      destruct (startsWith (lit "**") (trim l)) eqn:Eb; cbn [negb];
        [cbn [fst snd]; auto|].
      cbn [fst snd]. split; [exact Hp|].
      destruct Hc as (H1 & H2 & H3 & H4). unfold phase_ok.
      cbn [Phase.content Phase.title Phase.subtitle Phase.recommended].
      repeat split; try assumption.
      apply Forall_app. split; [exact H1|].
      constructor; [|constructor]. split.
      * unfold body_text. repeat split; try assumption.
        -- intros E. rewrite E in El. discriminate.
        -- apply trimmed_trim.
      * apply in_map. exact Hin.
Qed.

Lemma fold_ok all ls :
  incl ls all ->
  forall st, state_ok all st -> state_ok all (fold_left phase_step ls st).
Proof.
  induction ls as [|l t IH]; intros Hi st Hs; [exact Hs|].
  cbn [fold_left]. apply IH.
  - intros x Hx. apply Hi. right. exact Hx.
  - apply phase_step_ok; [apply Hi; left; reflexivity | exact Hs].
Qed.

Lemma phases_ok ls : Forall (phase_ok ls) (collectPhases ls).
Proof.
  rewrite collectPhases_close.
  pose proof (@fold_ok ls ls (incl_refl ls) ([], None)) as H.
  destruct (fold_left phase_step ls ([], None)) as [phases cur].
  destruct H as [Hp Hc]; [split; [constructor | exact I]|].
  cbn [fst snd] in *.
  destruct cur as [c|]; [|exact Hp].
  apply Forall_app. split; [exact Hp | constructor; [exact Hc | constructor]].
Qed.

(** X15: every content line of a phase card is the trimmed form of a
    line of the section, is not empty, does not start with a bold marker,
    holds no phase title and is no Recommended line; the title, the
    subtitle and the dose of the card have no white space around them. *)
Theorem card_content (ls : list str) (p : Phase.phase) :
  In p (collectPhases ls) ->
  Forall (fun t => body_text t /\ In t (map trim ls)) (Phase.content p)
  /\ trimmed (Phase.title p)
  /\ trimmed (Phase.subtitle p)
  /\ trimmed (Phase.recommended p).
Proof.
  intros Hin. pose proof (phases_ok ls) as H.
  rewrite Forall_forall in H. exact (H _ Hin).
Qed.

Lemma card_content_witness :
  Forall (fun t => body_text t /\ In t (map trim (lines sample_plan)))
    [lit "Regular sessions keep desk tension from building up."]
  /\ trimmed (lit "Keeping You at Your Best")
  /\ trimmed (lit "Maintenance, Ongoing")
  /\ trimmed (lit "2x/week").
Proof.
  apply (@card_content (lines sample_plan)
           (Phase.mk (lit "Keeping You at Your Best")
              (lit "Maintenance, Ongoing")
              [lit "Regular sessions keep desk tension from building up."]
              (lit "2x/week"))).
  vm_compute. right. left. reflexivity.
Defined.

(** ** The paragraph of a card *)

Lemma trimStart_keep (a x : str) :
  a <> [] -> trimmed a -> trimStart (a ++ x) = a ++ x.
Proof.
  intros Ha Ta. destruct a as [|c r]; [congruence|].
  cbn [app]. apply dropWhile_stop. exact (trimmed_head Ta).
Qed.

Lemma join_trimmed (ls : list str) :
  Forall (fun t => t <> [] /\ trimmed t) ls ->
  trimmed (join (lit " ") ls) /\ (ls <> [] -> join (lit " ") ls <> []).
Proof.
  induction 1 as [|a t [Ha Ta] Ht [IH1 IH2]].
  - split; [apply trim_nil | intros H; exfalso; apply H; reflexivity].
  - destruct t as [|b t'].
    + split; [exact Ta | intros _; exact Ha].
    + change (join (lit " ") (a :: b :: t'))
        with (a ++ lit " " ++ join (lit " ") (b :: t')).
      assert (Hj : join (lit " ") (b :: t') <> []) by (apply IH2; discriminate).
      split.
      * unfold trimmed, trim. rewrite (trimStart_keep _ Ha Ta), app_assoc.
        apply trimEnd_app_trimmed; assumption.
      * intros _. destruct a; [congruence | discriminate].
Qed.

(** X16: the paragraph of a phase card is made of its content lines,
    each escaped on its own, with single spaces between them: trimming the
    joined text changes nothing, and no bold marker forms across two
    lines. *)
Theorem card_paragraph (ls : list str) (p : Phase.phase) :
  In p (collectPhases ls) ->
  escapeHtml (trim (join (lit " ") (Phase.content p)))
  = join (lit " ") (map escapeHtml (Phase.content p)).
Proof.
  intros Hin. pose proof (phases_ok ls) as H.
  rewrite Forall_forall in H. destruct (H _ Hin) as [Hcontent _].
  assert (Ht : Forall (fun t => t <> [] /\ trimmed t) (Phase.content p)).
  { revert Hcontent. apply Forall_impl. intros t [(H1 & H2 & _) _]. auto. }
  destruct (join_trimmed Ht) as [-> _].
  rewrite (map_ext _ _ escapeHtml_spec), escapeHtml_spec.
  apply (@escaped_pieces (lit " ")); vm_compute; discriminate.
Qed.

Lemma card_paragraph_witness :
  escapeHtml
    (trim (join (lit " ")
             [lit "We start with gentle work on the upper traps.";
              lit "You should notice easier turning within two weeks."]))
  = join (lit " ")
      (map escapeHtml
         [lit "We start with gentle work on the upper traps.";
          lit "You should notice easier turning within two weeks."]).
Proof.
  apply (@card_paragraph (lines sample_plan)
           (Phase.mk (lit "Getting You Comfortable")
              (lit "Acute Phase, 2-4 weeks")
              [lit "We start with gentle work on the upper traps.";
               lit "You should notice easier turning within two weeks."]
              (lit "2x/week"))).
  vm_compute. left. reflexivity.
Defined.

(** ** The head of a card *)

Lemma phase_header_groups : groups_ok phase_caps phase_header_re.
Proof.
  unfold phase_header_re, star_c, Opt, chr, ws, noneOf.
  cbn [seqs groups_ok].
  repeat split; try exact I;
    intros k s m H; destruct (plus_cls_group _ _ _ H) as (s' & Hk & Hc & Hq);
    exists s'; (split; [exact Hk|]); (split; [exact Hc|]);
    (split; intros E; [| ]); try discriminate;
    apply none_of_one; exact Hq.
Qed.

(** The head that a header line gives its card: no asterisk in the title,
    no closing parenthesis in the subtitle. *)
Lemma newPhase_head t :
  @existsb char (N.eqb (ch "*")) (Phase.title (newPhase t)) = false
  /\ @existsb char (N.eqb (ch ")")) (Phase.subtitle (newPhase t)) = false.
Proof.
  unfold newPhase.
  destruct (exec phase_header_re t) as [m|] eqn:E;
    cbn [Phase.title Phase.subtitle].
  - pose proof (@exec_caps phase_caps _ _ _ phase_header_groups E) as H.
    assert (H0 : forall i, phase_caps i []) by (intros i; split; reflexivity).
    split.
    + rewrite existsb_trim by (apply not_ws_keeps; reflexivity).
      exact (proj1 (@cap_ok phase_caps 1 m H (H0 1)) eq_refl).
    + rewrite existsb_trim by (apply not_ws_keeps; reflexivity).
      exact (proj2 (@cap_ok phase_caps 2 m H (H0 2)) eq_refl).
  - split; [|reflexivity].
    rewrite existsb_trim by (apply not_ws_keeps; reflexivity).
    unfold star_c, chr. rewrite replaceAll_squeeze, squeeze_nil.
    apply existsb_filter_out.
Qed.

(** A property of the title and the subtitle that every new phase has
    holds of every card: the lines after the header change neither. *)
Lemma phase_step_head (P : Phase.phase -> Prop) :
  (forall t, P (newPhase t)) ->
  (forall p c r, P p -> P (Phase.mk (Phase.title p) (Phase.subtitle p) c r)) ->
  forall ls st,
    Forall P (fst st) ->
    match snd st with Some p => P p | None => True end ->
    Forall P (close_phase (fst (fold_left phase_step ls st))
                          (snd (fold_left phase_step ls st))).
Proof.
  intros Hnew Hset. induction ls as [|l t IH]; intros [phases cur] Hp Hc.
  - cbn [fold_left fst snd] in *. destruct cur as [c|]; [|exact Hp].
    apply Forall_app. split; [exact Hp | constructor; [exact Hc | constructor]].
  - cbn [fold_left]. cbn [fst snd] in Hp, Hc. apply IH; unfold phase_step.
    + destruct (isPhaseHeader (trim l)).
      * cbn [fst]. destruct cur as [c|]; [|exact Hp].
        apply Forall_app.
        split; [exact Hp | constructor; [exact Hc | constructor]].
      * destruct cur as [c|]; [|exact Hp].
        destruct (exec recommended_re (trim l)); [exact Hp|].
        destruct (_ && _); exact Hp.
    + destruct (isPhaseHeader (trim l)); [apply Hnew|].
      destruct cur as [c|]; [|exact I].
      destruct (exec recommended_re (trim l)); [apply Hset; exact Hc|].
      destruct (_ && _); [apply Hset; exact Hc | exact Hc].
Qed.

(** X17: the title of a phase card never holds an asterisk and its
    subtitle never holds a closing parenthesis, whether the header line
    matched the pattern with the parentheses or not. *)
Theorem card_head_clean (ls : list str) (p : Phase.phase) :
  In p (collectPhases ls) ->
  @existsb char (N.eqb (ch "*")) (Phase.title p) = false
  /\ @existsb char (N.eqb (ch ")")) (Phase.subtitle p) = false.
Proof.
  rewrite collectPhases_close. intros Hin.
  pose proof (@phase_step_head
                (fun p => @existsb char (N.eqb (ch "*")) (Phase.title p) = false
                          /\ @existsb char (N.eqb (ch ")")) (Phase.subtitle p)
                             = false)
                newPhase_head (fun p c r H => H) ls ([], None)
                (Forall_nil _) I) as H.
  rewrite Forall_forall in H. exact (H _ Hin).
Qed.

Lemma card_head_clean_witness :
  @existsb char (N.eqb (ch "*")) (lit "Phase one: Getting You Comfortable")
  = false
  /\ @existsb char (N.eqb (ch ")")) [] = false.
Proof.
  apply (@card_head_clean [lit "*Phase one*: Getting You Comfortable"]
           (Phase.mk (lit "Phase one: Getting You Comfortable") [] [] [])).
  vm_compute. left. reflexivity.
Defined.

End PhaseProps.

(* ===================================================================== *)
(** * The Recommended line in closed form *)
(* ===================================================================== *)

Module DoseProps.
Import StrFacts TrimFacts ReFacts HeaderFacts ParseFacts ListFacts ParseProps
       HeaderProps.

Lemma rmatch_word_i w :
  forall k q x cs,
    rmatch (word_i w) k (MState q x cs)
    = if prefix_i w x
      then k (MState (q + length w) (skipn (length w) x) cs)
      else None.
Proof.
  unfold word_i. induction w as [|a w IH]; intros k q x cs.
  - cbn. rewrite Nat.add_0_r. reflexivity.
  - cbn [map]. rewrite rmatch_seqs_cons.
    destruct x as [|c x']; [reflexivity|].
    cbn [rmatch chr_i rest pos caps prefix_i].
    destruct (N.eqb (canon c) (canon a)); [|reflexivity].
    cbn [andb]. rewrite IH. cbn [length skipn].
    rewrite Nat.add_succ_r. reflexivity.
Qed.

Lemma firstn_takeWhile p (x : str) :
  firstn (length (takeWhile p x)) x = takeWhile p x.
Proof.
  induction x as [|c t IH]; [reflexivity|]. cbn [takeWhile].
  destruct (p c); [|reflexivity]. cbn [length firstn]. rewrite IH.
  reflexivity.
Qed.

(** [(.+)] with nothing after it: the longest run without a line
    terminator. *)
Lemma dose_group q x cs :
  rmatch (Group 1 (Plus dot)) Some (MState q x cs)
  = match x with
    | c :: r =>
        if negb (is_lt c)
        then Some (MState (S q + length (takeWhile (fun c => negb (is_lt c)) r))
                     (dropWhile (fun c => negb (is_lt c)) r)
                     ((1, c :: takeWhile (fun c => negb (is_lt c)) r) :: cs))
        else None
    | [] => None
    end.
Proof.
  cbn [rmatch]. unfold dot. rewrite rmatch_plus_cls.
  destruct x as [|c r]; [reflexivity|].
  destruct (negb (is_lt c)); [|reflexivity].
  apply star_cls_greedy. cbn [pos rest caps].
  replace (S q + length (takeWhile (fun c0 => negb (is_lt c0)) r) - q)
    with (S (length (takeWhile (fun c0 => negb (is_lt c0)) r))) by lia.
  cbn [firstn]. rewrite firstn_takeWhile. reflexivity.
Qed.

Lemma dose_group_ws q c t cs :
  is_ws c = false ->
  exists m, rmatch (Group 1 (Plus dot)) Some (MState q (c :: t) cs) = Some m
            /\ caps m = (1, c :: takeWhile (fun c => negb (is_lt c)) t) :: cs.
Proof.
  intros Hc. rewrite dose_group.
  assert (E : is_lt c = false).
  { destruct (is_lt c) eqn:E; [|reflexivity].
    rewrite (lt_is_ws _ E) in Hc. discriminate. }
  rewrite E. cbn [negb]. eexists. split; reflexivity.
Qed.

Lemma recommended_re_unfold :
  recommended_re
  = Seq Bol (Seq (word_i (lit "Recommended:"))
                 (Seq (Star ws) (Group 1 (Plus dot)))).
Proof. reflexivity. Qed.

(** X18: a trimmed line is a Recommended line exactly when it starts with
    the label [Recommended:], in any case, and something other than white
    space follows; the dose is then the text from the first code unit
    after that white space up to the first line terminator.  The label
    alone is no Recommended line. *)
Theorem dose_lines (line : str) :
  match dose_text (trim line) with
  | Some g =>
      exists m, exec recommended_re (trim line) = Some m /\ cap 1 m = g
  | None => exec recommended_re (trim line) = None
  end.
Proof.
  assert (Ht : trimEnd (trim line) = trim line) by apply trimEnd_idem.
  set (t := trim line) in *.
  rewrite recommended_re_unfold, exec_bol.
  change (rmatch (Seq (word_i (lit "Recommended:"))
                    (Seq (Star ws) (Group 1 (Plus dot)))) Some (MState 0 t []))
    with (rmatch (word_i (lit "Recommended:"))
            (rmatch (Star ws) (rmatch (Group 1 (Plus dot)) Some))
            (MState 0 t [])).
  rewrite rmatch_word_i. unfold dose_text.
  destruct (prefix_i (lit "Recommended:") t); [|reflexivity].
  change (length (lit "Recommended:")) with 12.
  unfold ws. rewrite rmatch_star_cls.
  assert (Hs : trimEnd (skipn 12 t) = skipn 12 t).
  { apply (@suffix_trimEnd (firstn 12 t)). rewrite firstn_skipn. exact Ht. }
  destruct (dropWhile is_ws (skipn 12 t)) as [|c r] eqn:Ed.
  - apply dropWhile_nil_all in Ed. unfold trimEnd in Hs.
    rewrite (dropWhileEnd_all _ _ Ed) in Hs. rewrite <- Hs. reflexivity.
  - pose proof (dropWhile_head _ _ Ed) as Hc.
    destruct (@dose_group_ws
                (0 + 12 + length (takeWhile is_ws (skipn 12 t))) c r [] Hc)
      as (m & Hm & Hcaps).
    exists m. split.
    + apply star_cls_greedy. rewrite Ed. exact Hm.
    + unfold cap, group. rewrite Hcaps. reflexivity.
Qed.

End DoseProps.


(* ===================================================================== *)
(** * Generic and orphaned sections on any input *)
(* ===================================================================== *)

Module GenericProps.
Import StrFacts TrimFacts ReFacts EscFacts ListFacts.

Lemma search_bol r s :
  search_from (Seq Bol r) 0 s
  = match rmatch r Some (MState 0 s []) with
    | Some m => Some (0, m)
    | None => None
    end.
Proof.
  destruct s as [|c t]; cbn [search_from rmatch pos Nat.eqb].
  - destruct (rmatch r Some _); reflexivity.
  - destruct (rmatch r Some _); [reflexivity|]. apply search_bol_later.
Qed.

Lemma bullet_not_ws c : is_ws c = true -> is_bullet c = false.
Proof.
  intros H. unfold is_bullet. cbn [existsb].
  repeat (apply orb_false_iff; split); try reflexivity;
    apply N.eqb_neq; intros ->; discriminate.
Qed.

Lemma bullet_re_unfold :
  bullet_re = Seq Bol (Seq (Star ws) (Seq (Cls is_bullet) (Plus ws))).
Proof. reflexivity. Qed.

(** The marker and the white space after it. *)
Lemma bullet_tail q x :
  rmatch (Seq (Cls is_bullet) (Plus ws)) Some (MState q x [])
  = match x with
    | b :: c :: t =>
        if is_bullet b && is_ws c
        then Some (MState (S (S q) + length (takeWhile is_ws t))
                          (dropWhile is_ws t) [])
        else None
    | _ => None
    end.
Proof.
  destruct x as [|b [|c t]]; cbn [rmatch rest pos caps].
  - reflexivity.
  - destruct (is_bullet b); reflexivity.
  - destruct (is_bullet b); [|reflexivity]. cbn [andb].
    change (rmatch ws (rmatch (Star ws) Some) (MState (S q) (c :: t) []))
      with (rmatch (Plus ws) Some (MState (S q) (c :: t) [])).
    unfold ws. rewrite rmatch_plus_cls.
    destruct (is_ws c); [|reflexivity].
    apply star_cls_greedy. reflexivity.
Qed.

(** The whole pattern: the leading white space is skipped for good, a
    marker being no white space. *)
Lemma bullet_search l :
  search_from bullet_re 0 l
  = match rmatch (Seq (Cls is_bullet) (Plus ws)) Some
            (MState (length (takeWhile is_ws l)) (dropWhile is_ws l) []) with
    | Some m => Some (0, m)
    | None => None
    end.
Proof.
  rewrite bullet_re_unfold, search_bol.
  change (rmatch (Seq (Star ws) (Seq (Cls is_bullet) (Plus ws))) Some
            (MState 0 l []))
    with (rmatch (Star ws) (rmatch (Seq (Cls is_bullet) (Plus ws)) Some)
            (MState 0 l [])).
  unfold ws at 1. rewrite rmatch_star_cls, star_cls_commit; [reflexivity|].
  intros q' c t Hc. rewrite bullet_tail.
  destruct t as [|c' t']; [reflexivity|].
  rewrite (bullet_not_ws _ Hc). reflexivity.
Qed.

(** X19: a line is a bullet line exactly when, after its leading white
    space, it has one of the markers [-], [*], U+2022 and then white
    space; the item text is then what follows that white space, and a
    line that is no bullet line is left as it is by the replacement. *)
Theorem bullet_lines (l : str) :
  match bullet_text l with
  | Some t => test bullet_re l = true /\ replace bullet_re [] l = t
  | None => test bullet_re l = false /\ replace bullet_re [] l = l
  end.
Proof.
  unfold test, exec, replace, bullet_text.
  rewrite bullet_search, bullet_tail.
  destruct (dropWhile is_ws l) as [|b [|c t]]; [split; reflexivity ..|].
  destruct (is_bullet b && is_ws c); split; reflexivity.
Qed.

Lemma test_bullet l : test bullet_re l = matched (bullet_text l).
Proof.
  unfold test, exec, bullet_text.
  rewrite bullet_search, bullet_tail.
  destruct (dropWhile is_ws l) as [|b [|c t]]; try reflexivity.
  destruct (is_bullet b && is_ws c); reflexivity.
Qed.

Lemma blank_no_bullet l : trim l = [] -> test bullet_re l = false.
Proof.
  intros H. rewrite test_bullet. unfold bullet_text.
  rewrite dropWhile_all by (apply trim_nil_all_ws; exact H). reflexivity.
Qed.

(** ** The loop over the lines *)

Lemma item_step_blank st l : trim l = [] -> item_step st l = st.
Proof.
  intros H. destruct st as [items bullets]. unfold item_step.
  rewrite (blank_no_bullet _ H), H. reflexivity.
Qed.

(** X20: blank lines do not show in a generic or orphaned section and do
    not end a bullet list: the items are those of the lines that are not
    blank. *)
Theorem blank_lines_ignored (ls : list str) :
  collectItems (filter (fun l => truthy (trim l)) ls) = collectItems ls.
Proof.
  unfold collectItems.
  assert (H : forall st,
            fold_left item_step (filter (fun l => truthy (trim l)) ls) st
            = fold_left item_step ls st).
  { induction ls as [|l t IH]; intros st; [reflexivity|].
    cbn [filter fold_left].
    destruct (trim l) as [|c r] eqn:E; cbn [truthy].
    - rewrite (item_step_blank st _ E). apply IH.
    - cbn [fold_left]. apply IH. }
  rewrite H. reflexivity.
Qed.

Lemma collectItems_close ls :
  collectItems ls = close_items (fold_left item_step ls ([], [])).
Proof.
  unfold collectItems, close_items.
  destruct (fold_left item_step ls ([], [])) as [items [|b bs]]; reflexivity.
Qed.

Lemma item_step_prefix pre items bullets l :
  item_step (pre ++ items, bullets) l
  = (pre ++ fst (item_step (items, bullets) l),
     snd (item_step (items, bullets) l)).
Proof.
  unfold item_step. destruct (test bullet_re l); [reflexivity|].
  destruct (0 <? length (trim l)); [|reflexivity].
  cbn [fst snd]. destruct bullets; rewrite <- !app_assoc; reflexivity.
Qed.

Lemma fold_prefix ls :
  forall pre items bullets,
    fold_left item_step ls (pre ++ items, bullets)
    = (pre ++ fst (fold_left item_step ls (items, bullets)),
       snd (fold_left item_step ls (items, bullets))).
Proof.
  induction ls as [|l t IH]; intros pre items bullets; [reflexivity|].
  cbn [fold_left]. rewrite item_step_prefix.
  destruct (item_step (items, bullets) l) as [i b]. cbn [fst snd].
  apply IH.
Qed.

Lemma close_prefix pre st :
  close_items (pre ++ fst st, snd st) = pre ++ close_items st.
Proof.
  unfold close_items. cbn [fst snd].
  destruct (snd st); [reflexivity | symmetry; apply app_assoc].
Qed.

Lemma item_step_paragraph items bullets l :
  paragraph_line l ->
  item_step (items, bullets) l
  = (close_items (items, bullets) ++ [tpl "<p>" ++ escapeHtml l ++ tpl "</p>"],
     []).
Proof.
  intros [Hb Ht]. unfold item_step, close_items. rewrite Hb.
  cbn [fst snd].
  destruct (trim l); [congruence|]. cbn [length Nat.ltb Nat.leb].
  destruct bullets; reflexivity.
Qed.

(** X21: a line that is neither blank nor a bullet line becomes a
    paragraph of its own and closes the bullet list before it: the items
    of the section are the items of the lines before it, the paragraph,
    and the items of the lines after it. *)
Theorem paragraph_closes_list (before after : list str) (l : str) :
  paragraph_line l ->
  collectItems (before ++ l :: after)
  = collectItems before
    ++ [tpl "<p>" ++ escapeHtml l ++ tpl "</p>"]
    ++ collectItems after.
Proof.
  intros Hl. rewrite !collectItems_close, fold_left_app. cbn [fold_left].
  destruct (fold_left item_step before ([], [])) as [items bullets].
  rewrite (item_step_paragraph items bullets Hl).
  rewrite <- (app_nil_r (close_items (items, bullets) ++ _)) at 1.
  rewrite fold_prefix, close_prefix.
  rewrite <- app_assoc. reflexivity.
Qed.

Lemma paragraph_closes_list_witness :
  collectItems [lit "- one"; lit "- two"; lit "Then rest."; lit "- three"]
  = collectItems [lit "- one"; lit "- two"]
    ++ [tpl "<p>" ++ escapeHtml (lit "Then rest.") ++ tpl "</p>"]
    ++ collectItems [lit "- three"].
Proof.
  apply (@paragraph_closes_list [lit "- one"; lit "- two"] [lit "- three"]).
  split; [vm_compute; reflexivity | vm_compute; discriminate].
Defined.

End GenericProps.

(* ===================================================================== *)
(** * The page and the file name *)
(* ===================================================================== *)

Module PageProps.
Import StrFacts TrimFacts ReFacts EscFacts ParseFacts ListFacts DocFacts
       EscapeProps ParseProps ItemProps RunFacts.



(** ** The lines of the fallback *)

Lemma split_cons (c : char) (s : str) : exists w ws, split c s = w :: ws.
Proof.
  destruct s as [|x t]; cbn [split]; [eauto|].
  destruct (N.eqb x c); [eauto|]. destruct (split c t); eauto.
Qed.

(** Joining the pieces of a split text gives the text back. *)
Lemma join_split (c : char) (s : str) : join [c] (split c s) = s.
Proof.
  induction s as [|x t IH]; [reflexivity|].
  cbn [split]. destruct (split_cons c t) as (w & ws & E).
  rewrite E in *. destruct (N.eqb_spec x c) as [->|Hx].
  - change (join [c] ([] :: w :: ws)) with (c :: join [c] (w :: ws)).
    rewrite IH. reflexivity.
  - rewrite <- IH. destruct ws as [|w' ws']; reflexivity.
Qed.

Lemma join_flat_map (f : char -> str) (sep : str) (ls : list str) :
  flat_map f (join sep ls) = join (flat_map f sep) (map (flat_map f) ls).
Proof.
  induction ls as [|a [|b t] IH]; [reflexivity | reflexivity|].
  change (join sep (a :: b :: t)) with (a ++ sep ++ join sep (b :: t)).
  rewrite !flat_map_app, IH. reflexivity.
Qed.

Lemma line_break_plain (s : str) :
  @existsb char (N.eqb newline) s = false -> flat_map line_break s = s.
Proof.
  induction s as [|c t IH]; [reflexivity|].
  cbn [existsb flat_map]. intros H. apply orb_false_iff in H as [Hc Ht].
  unfold line_break at 1. rewrite N.eqb_sym, Hc, (IH Ht). reflexivity.
Qed.

Lemma strip_bold_sub (f : char -> bool) n :
  forall s : str, length s <= n ->
    existsb f s = false -> existsb f (strip_bold s) = false.
Proof.
  induction n as [|n IH]; intros s Hn Hs.
  - destruct s; [reflexivity | cbn in Hn; lia].
  - destruct s as [|c [|d u]]; [reflexivity | exact Hs|].
    rewrite strip_bold_cons2.
    cbn [existsb] in Hs. apply orb_false_iff in Hs as [Hc Hs].
    destruct (_ && _).
    + apply IH; [cbn [length] in Hn; lia|].
      apply orb_false_iff in Hs as [_ Hs]. exact Hs.
    + cbn [existsb]. rewrite Hc. apply IH; [cbn [length] in *; lia | exact Hs].
Qed.

Lemma escaped_no_newline (s : str) :
  @existsb char (N.eqb newline) s = false ->
  @existsb char (N.eqb newline) (escapeHtml s) = false.
Proof.
  intros H. rewrite escapeHtml_spec.
  pose proof (@strip_bold_sub (N.eqb newline) (length s) s (le_n _) H) as H'.
  induction (strip_bold s) as [|c t IH]; [reflexivity|].
  cbn [existsb flat_map] in *. apply orb_false_iff in H' as [Hc Ht].
  rewrite existsb_app, (IH Ht), orb_false_r.
  destruct (special c) eqn:Ec.
  - destruct (special_cases _ Ec) as [-> | [-> | ->]]; reflexivity.
  - rewrite (entity_plain _ Ec). cbn [existsb]. rewrite Hc. reflexivity.
Qed.

(** X23: the raw-text fallback shows the lines of the input, each escaped
    on its own, with a line break between any two of them. *)
Theorem fallback_lines (planText : str) :
  rawFallback planText
  = tpl "<div class=`section`><p>"
    ++ join (lit "<br/>") (map escapeHtml (split newline planText))
    ++ tpl "</p></div>".
Proof.
  unfold rawFallback. do 2 f_equal.
  rewrite replaceAll_chr.
  rewrite (flat_map_ext _ line_break)
    by (intros c; unfold line_break; rewrite N.eqb_sym; reflexivity).
  rewrite <- (join_split newline planText) at 1.
  rewrite escapeHtml_spec, (@escaped_pieces [newline])
    by (vm_compute; discriminate).
  rewrite join_flat_map.
  change (flat_map line_break (flat_map entity (strip_bold [newline])))
    with (lit "<br/>").
  f_equal. rewrite !map_map. apply map_ext_in. intros l Hl.
  rewrite <- escapeHtml_spec. apply line_break_plain.
  apply escaped_no_newline. apply (split_parts _ _ _ Hl).
Qed.

(** ** The name of the PDF file *)

Lemma unsafe_removed (s : str) :
  replaceAll unsafe_re [] s = filter kept s.
Proof.
  unfold unsafe_re. rewrite replaceAll_cls.
  induction s as [|c t IH]; [reflexivity|].
  cbn [flat_map filter]. rewrite IH. unfold kept.
  destruct (_ || _); reflexivity.
Qed.

(** X25: the file name of the PDF is the fixed prefix, the patient name
    without the code units that are no ASCII letter, digit, white space
    or hyphen, every run of white space in what is left turned into one
    hyphen, and the extension; an empty patient name gives the fixed
    name. *)
Theorem pdfFilename_spec (patientName : str) :
  pdfFilename patientName
  = if truthy patientName then
      lit "massage-treatment-plan-"
      ++ squeeze is_ws (lit "-") false (filter kept patientName)
      ++ lit ".pdf"
    else lit "massage-treatment-plan.pdf".
Proof.
  unfold pdfFilename, ws. rewrite unsafe_removed, replaceAll_squeeze.
  reflexivity.
Qed.

(** X26: whatever the patient name, the file name of the PDF is made of
    ASCII letters, digits, hyphens and periods only: no quote, no slash,
    no white space and no control character reaches the
    [Content-Disposition] header. *)
Theorem pdfFilename_safe (patientName : str) :
  forallb file_safe (pdfFilename patientName) = true.
Proof.
  unfold pdfFilename, ws. rewrite unsafe_removed, replaceAll_squeeze.
  destruct (truthy patientName); [|reflexivity].
  rewrite !forallb_app.
  replace (forallb file_safe (lit "massage-treatment-plan-")) with true
    by reflexivity.
  replace (forallb file_safe (lit ".pdf")) with true by reflexivity.
  rewrite andb_true_r. cbn [andb].
  apply squeeze_forallb; [reflexivity|].
  apply forallb_forall. intros c Hc. apply filter_In in Hc as [_ Hc].
  unfold kept in Hc. unfold file_safe.
  destruct (is_ws c); [reflexivity|]. cbn [orb].
  rewrite orb_false_r in Hc.
  destruct (is_lower c || is_upper c || is_digit c); cbn [orb] in *;
    [reflexivity|].
  rewrite Hc. reflexivity.
Qed.

End PageProps.

(* ===================================================================== *)
(** * More examples *)
(* ===================================================================== *)

Module EdgeCases.

(** The label alone is no Recommended line: it becomes paragraph text. *)
Example bare_label_is_content :
  map (fun p => (Phase.content p, Phase.recommended p))
      (collectPhases [lit "Getting You Comfortable"; lit "Recommended:";
                      lit "recommended:   weekly"])
  = [([lit "Recommended:"], lit "weekly")].
Proof. vm_compute. reflexivity. Qed.

(** Carriage returns do not reach the sections. *)
Example crlf_sections :
  map (fun sec => (number sec, title sec, lines sec))
      (parsePlanText (join CRLF [lit "1. A: x"; lit "more"; lit "2. B"]))
  = [ (lit "1", lit "A", [lit "x"; lit "more"]); (lit "2", lit "B", []) ].
Proof. vm_compute. reflexivity. Qed.

(** A header needs no blank after the period, and one digit only. *)
Example header_shapes :
  map is_header [lit "1.x"; lit "   7.   Title"; lit "10. Ten"; lit "1."; lit "1) x"]
  = [true; true; false; false; false].
Proof. vm_compute. reflexivity. Qed.

(** File names. *)
Example file_names :
  map pdfFilename [lit "O'Brien  Mary-Jane"; lit ""; lit "!!!"; lit " a/b.c "]
  = [ lit "massage-treatment-plan-OBrien-Mary-Jane.pdf";
      lit "massage-treatment-plan.pdf";
      lit "massage-treatment-plan-.pdf";
      lit "massage-treatment-plan--abc-.pdf" ].
Proof. vm_compute. reflexivity. Qed.

(** A blank line between two bullets does not split the list. *)
Example bullets_across_blank :
  collectItems [lit "- one"; lit "   "; lit "* two"]
  = [tpl "<ul><li>one</li><li>two</li></ul>"].
Proof. vm_compute. reflexivity. Qed.

End EdgeCases.
